(** * Renko and Point-and-Figure aggregation of [mplfinance/_utils.py]

    A shallow embedding of [_check_input], [_calculate_atr],
    [combine_adjacent], [coalesce_volume_dates], [_updown_colors],
    [_updownhollow_colors], [_construct_renko_collections] and
    [_construct_pointnfig_collections], followed by the properties
    established about them.

    Numbers.  Brick and box counts are Python ints, here [Z].  Prices,
    volumes and dates are floats in the source.  The two aggregations are
    embedded over exact rationals ([Q], compared with [==]; [int(x)]
    truncates toward zero): this model carries the properties that do not
    depend on rounding, namely the shape of the outputs, the signs and
    counts of bricks and columns, and the bookkeeping of volumes.  The
    delta-extraction loop is embedded a second time over IEEE 754 binary64
    numbers ([float64], the last part of the file): that model carries
    what is said about the value of the reference close and about a size
    of zero, where rounding and the float implementation decide.  In
    [_check_input] and the colour functions a price is an [option Q],
    [None] standing for NaN.

    Errors.  Python exceptions are values of [result]: [Raise e] for the
    exceptions the embedded code can raise.  [Stuck] is the outcome of a
    [while] loop that exhausts its iteration budget; the budget given to
    the one [while] loop of the source is shown to suffice. *)

From Stdlib Require Import ZArith QArith Qabs Qminmax List Lia Lqa Bool.
From Stdlib Require Import Floats.SpecFloat.
Import ListNotations.

Open Scope Z_scope.

(* ================================================================== *)
(** ** Python outcomes *)
(* ================================================================== *)

Inductive exn : Type := ValueError | IndexError | ZeroDivisionError | OverflowError.

Inductive result (A : Type) : Type :=
| Ok (a : A)
| Raise (e : exn)
| Stuck.

Arguments Ok {A} a.
Arguments Raise {A} e.
Arguments Stuck {A}.

Definition bind {A B : Type} (r : result A) (k : A -> result B) : result B :=
  match r with
  | Ok a => k a
  | Raise e => Raise e
  | Stuck => Stuck
  end.

Notation "x <- c ;; k" := (bind c (fun x => k))
  (at level 61, c at next level, right associativity).

(** [for x in xs: st = body(st, x)], stopping at the first exception. *)
Fixpoint for_each {S I : Type} (body : S -> I -> result S) (st : S) (xs : list I)
  : result S :=
  match xs with
  | [] => Ok st
  | x :: xs' => st' <- body st x ;; for_each body st' xs'
  end.

(* ================================================================== *)
(** ** Python lists and numbers *)
(* ================================================================== *)

Definition len {A : Type} (l : list A) : Z := Z.of_nat (length l).

(** [range(a, b)] *)
Definition py_range (a b : Z) : list Z :=
  map (fun k => a + Z.of_nat k) (seq 0 (Z.to_nat (b - a))).

(** The position a subscript denotes: negative subscripts count from the
    end, anything outside [-len, len) is an [IndexError]. *)
Definition py_pos {A : Type} (l : list A) (i : Z) : result nat :=
  if (0 <=? i) && (i <? len l) then Ok (Z.to_nat i)
  else if (- len l <=? i) && (i <? 0) then Ok (Z.to_nat (len l + i))
  else Raise IndexError.

(** [l[i]] *)
Definition py_index {A : Type} (l : list A) (i : Z) : result A :=
  p <- py_pos l i ;;
  match nth_error l p with
  | Some x => Ok x
  | None => Raise IndexError
  end.

(** [l[i] = v] *)
Definition py_setitem {A : Type} (l : list A) (i : Z) (v : A) : result (list A) :=
  p <- py_pos l i ;;
  Ok (firstn p l ++ v :: skipn (p + 1) l).

(** [l.pop(i)], keeping the list that remains *)
Definition py_pop {A : Type} (l : list A) (i : Z) : result (list A) :=
  p <- py_pos l i ;;
  Ok (firstn p l ++ skipn (p + 1) l).

(** [l[a:b]]: bounds are clamped, negative bounds count from the end. *)
Definition py_clamp {A : Type} (l : list A) (i : Z) : nat :=
  if i <? 0 then Z.to_nat (Z.max 0 (len l + i)) else Z.to_nat (Z.min i (len l)).

Definition py_slice {A : Type} (l : list A) (a b : Z) : list A :=
  skipn (py_clamp l a) (firstn (py_clamp l b) l).

(** [[x] * n] *)
Definition py_repeat {A : Type} (x : A) (n : Z) : list A := repeat x (Z.to_nat n).

(** [sum(l)] on ints and on floats *)
Definition py_sumZ (l : list Z) : Z := fold_left Z.add l 0.
Definition py_sum (l : list Q) : Q := fold_left Qplus l (0%Q).

(** [int(x)]: truncation toward zero *)
Definition int_of (x : Q) : Z := Z.quot (Qnum x) (Zpos (Qden x)).

(** [a / b] on Python numbers in exact arithmetic: a zero divisor raises.
    (On [numpy.float64] it does not; see [f64_div].) *)
Definition py_div (a b : Q) : result Q :=
  if Qeq_bool b 0 then Raise ZeroDivisionError else Ok (a / b)%Q.

Definition Qltb (a b : Q) : bool := negb (Qle_bool b a).

(** [max(a, b, c)] *)
Definition py_max3 (a b c : Q) : Q := Qmax (Qmax a b) c.

(** [max(l)] and [min(l)]; on an empty list Python raises [ValueError]. *)
Definition py_max (l : list Q) : result Q :=
  match l with
  | [] => Raise ValueError
  | x :: l' => Ok (fold_left Qmax l' x)
  end.

Definition py_min (l : list Q) : result Q :=
  match l with
  | [] => Raise ValueError
  | x :: l' => Ok (fold_left Qmin l' x)
  end.

(* ================================================================== *)
(** ** [_calculate_atr] *)
(* ================================================================== *)

(** One iteration of the loop of [_calculate_atr]. *)
Definition atr_body (highs lows closes : list Q) (atr : Q) (i : Z) : result Q :=
  high <- py_index highs i ;;
  low <- py_index lows i ;;
  close_prev <- py_index closes (i - 1) ;;
  let tr := py_max3 (Qabs (high - low)) (Qabs (high - close_prev))
                    (Qabs (low - close_prev)) in
  Ok (atr + tr)%Q.

Definition _calculate_atr (atr_length : Z) (highs lows closes : list Q) : result Q :=
  if atr_length <? 1 then Raise ValueError
  else if atr_length >=? len closes then Raise ValueError
  else
    atr <- for_each (atr_body highs lows closes) (0%Q)
             (py_range (len highs - atr_length) (len highs)) ;;
    py_div atr (inject_Z atr_length).

(** The true range as the specification words it, at a position of the
    series, and the terms of the trailing window. *)
Definition true_range (highs lows closes : list Q) (i : nat) : Q :=
  let h := nth i highs 0%Q in
  let l := nth i lows 0%Q in
  let c := nth (i - 1) closes 0%Q in
  Qmax (Qmax (Qabs (h - l)) (Qabs (h - c))) (Qabs (l - c)).

Definition Qsum (l : list Q) : Q := fold_right Qplus (0%Q) l.

Definition true_range_window (length : nat) (highs lows closes : list Q) : list Q :=
  map (true_range highs lows closes) (seq (List.length closes - length) length).

(* ================================================================== *)
(** ** Configuration *)
(* ================================================================== *)

(** [brick_size] / [box_size]: the string ['atr'] or a number. *)
Inductive size_cfg : Type :=
| SizeATR
| SizeNum (v : Q).

(** [atr_length]: the string ['total'] or an int. *)
Inductive atr_length_cfg : Type :=
| LengthTotal
| LengthInt (n : Z).

Record renko_params : Type := Build_renko_params {
  brick_size : size_cfg;
  renko_atr_length : atr_length_cfg
}.

Record pnf_params : Type := Build_pnf_params {
  box_size : size_cfg;
  pnf_atr_length : atr_length_cfg;
  reversal : Z
}.

(** The two limits of an explicit size. *)
Definition upper_limit (closes : list Q) : result Q :=
  mx <- py_max closes ;;
  mn <- py_min closes ;;
  py_div (mx - mn) 2.

Definition lower_limit (highs lows closes : list Q) : result Q :=
  atr <- _calculate_atr (len closes - 1) highs lows closes ;;
  Ok ((1 # 100) * atr)%Q.

(** The size resolution that opens both aggregators (the [if brick_size ==
    'atr'] statement of [_construct_renko_collections] and the identical
    [if box_size == 'atr'] statement of [_construct_pointnfig_collections]). *)
Definition resolve_size (size : size_cfg) (atr_length : atr_length_cfg)
    (highs lows closes : list Q) : result Q :=
  match size with
  | SizeATR =>
      match atr_length with
      | LengthTotal => _calculate_atr (len closes - 1) highs lows closes
      | LengthInt n => _calculate_atr n highs lows closes
      end
  | SizeNum v =>
      upper <- upper_limit closes ;;
      lower <- lower_limit highs lows closes ;;
      if Qltb upper v then Raise ValueError
      else if Qltb v lower then Raise ValueError
      else Ok v
  end.

(* ================================================================== *)
(** ** [_construct_renko_collections] *)
(* ================================================================== *)

(** The variables of the first loop (delta extraction). *)
Record renko_extract : Type := Build_renko_extract {
  cdiff : list Z;
  prev_close_brick : Q;
  rx_volume_cache : Q;
  rx_new_dates : list Q;
  rx_new_volumes : list Q
}.

Definition renko_extract_init (closes0 : Q) : renko_extract :=
  Build_renko_extract [] closes0 0 [] [].

(** Body of [for i in range(len(closes)-1)], in exact arithmetic: the
    quotient and the reference close carry no rounding here (they do in
    [renko_extract_body64]). *)
Definition renko_extract_body (dates : list Q) (volumes : option (list Q))
    (closes : list Q) (size : Q) (st : renko_extract) (i : Z)
  : result renko_extract :=
  c <- py_index closes (i + 1) ;;
  q <- py_div (c - prev_close_brick st) size ;;
  let brick_diff := int_of q in
  if brick_diff =? 0 then
    match volumes with
    | Some vs =>
        v <- py_index vs i ;;
        Ok (Build_renko_extract (cdiff st) (prev_close_brick st)
              (rx_volume_cache st + v) (rx_new_dates st) (rx_new_volumes st))
    | None => Ok st
    end
  else
    s <- py_div (inject_Z brick_diff) (inject_Z (Z.abs brick_diff)) ;;
    let cdiff' := cdiff st ++ py_repeat (int_of s) (Z.abs brick_diff) in
    vc <- match volumes with
          | Some vs =>
              v <- py_index vs i ;;
              Ok (rx_new_volumes st
                    ++ py_repeat (v + rx_volume_cache st)%Q (Z.abs brick_diff),
                  0%Q)
          | None => Ok (rx_new_volumes st, rx_volume_cache st)
          end ;;
    d <- py_index dates i ;;
    Ok (Build_renko_extract cdiff'
          (prev_close_brick st + inject_Z brick_diff * size)
          (snd vc)
          (rx_new_dates st ++ py_repeat d (Z.abs brick_diff))
          (fst vc)).

(** The first loop run on its first [m] iterations. *)
Definition renko_extract_upto (m : Z) (dates : list Q) (volumes : option (list Q))
    (closes : list Q) (size : Q) : result renko_extract :=
  c0 <- py_index closes 0 ;;
  for_each (renko_extract_body dates volumes closes size)
    (renko_extract_init c0) (py_range 0 m).

Definition renko_extract_pass (dates : list Q) (volumes : option (list Q))
    (closes : list Q) (size : Q) : result renko_extract :=
  renko_extract_upto (len closes - 1) dates volumes closes size.

(** The variables of the second loop (reversal penalty). *)
Record renko_penalty : Type := Build_renko_penalty {
  bricks : list Z;
  last_diff_sign : Q;
  dates_volumes_index : Z;
  rp_new_dates : list Q;
  rp_new_volumes : list Q
}.

(** The volume fold of a dropped unit:
    [new_volumes[k-1] += new_volumes[k]] when [k] is the last position,
    [new_volumes[k+1] += new_volumes[k]] otherwise, then [pop(k)]. *)
Definition renko_fold_volume (new_volumes : list Q) (k : Z) : result (list Q) :=
  nv <- (if k =? len new_volumes - 1 then
           a <- py_index new_volumes (k - 1) ;;
           b <- py_index new_volumes k ;;
           py_setitem new_volumes (k - 1) (a + b)%Q
         else
           a <- py_index new_volumes (k + 1) ;;
           b <- py_index new_volumes k ;;
           py_setitem new_volumes (k + 1) (a + b)%Q) ;;
  py_pop nv k.

(** Body of [for diff in cdiff]. *)
Definition renko_penalty_body (volumes : option (list Q)) (st : renko_penalty)
    (diff : Z) : result renko_penalty :=
  curr_diff_sign <- py_div (inject_Z diff) (inject_Z (Z.abs diff)) ;;
  if negb (Qeq_bool (last_diff_sign st) 0)
     && negb (Qeq_bool curr_diff_sign (last_diff_sign st)) then
    nd <- py_pop (rp_new_dates st) (dates_volumes_index st) ;;
    nv <- match volumes with
          | Some _ => renko_fold_volume (rp_new_volumes st) (dates_volumes_index st)
          | None => Ok (rp_new_volumes st)
          end ;;
    Ok (Build_renko_penalty (bricks st) curr_diff_sign
          (dates_volumes_index st) nd nv)
  else
    Ok (Build_renko_penalty
          (bricks st ++ (if diff >? 0 then py_repeat 1 (Z.abs diff)
                         else py_repeat (-1) (Z.abs diff)))
          curr_diff_sign (dates_volumes_index st + 1)
          (rp_new_dates st) (rp_new_volumes st)).

Definition renko_penalty_init (new_dates new_volumes : list Q) : renko_penalty :=
  Build_renko_penalty [] 0 0 new_dates new_volumes.

Definition renko_penalty_pass (volumes : option (list Q))
    (cd : list Z) (new_dates new_volumes : list Q) : result renko_penalty :=
  for_each (renko_penalty_body volumes)
    (renko_penalty_init new_dates new_volumes) cd.

(** The last loop, restricted to the price levels: [curr_price += brick_size
    * number; brick_values.append(curr_price)], accumulated in exact
    arithmetic. *)
Fixpoint renko_brick_values (size : Q) (curr_price : Q) (bs : list Z) : list Q :=
  match bs with
  | [] => []
  | number :: bs' =>
      let curr_price' := (curr_price + size * inject_Z number)%Q in
      curr_price' :: renko_brick_values size curr_price' bs'
  end.

(** What the aggregation hands on: the bricks behind the polygons and the
    [calculated_values] dictionary. *)
Record renko_output : Type := Build_renko_output {
  ro_bricks : list Z;
  ro_dates : list Q;
  ro_volumes : list Q;
  ro_values : list Q;
  ro_size : Q
}.

Definition _construct_renko_collections (dates highs lows : list Q)
    (volumes : option (list Q)) (config_renko_params : renko_params)
    (closes : list Q) : result renko_output :=
  size <- resolve_size (brick_size config_renko_params)
            (renko_atr_length config_renko_params) highs lows closes ;;
  ex <- renko_extract_pass dates volumes closes size ;;
  curr_price <- py_index closes 0 ;;
  pe <- renko_penalty_pass volumes (cdiff ex) (rx_new_dates ex) (rx_new_volumes ex) ;;
  Ok (Build_renko_output (bricks pe) (rp_new_dates pe) (rp_new_volumes pe)
        (renko_brick_values size curr_price (bricks pe)) size).

(* ================================================================== *)
(** ** [combine_adjacent] and [coalesce_volume_dates] *)
(* ================================================================== *)

(** The inner loop [while index < len(arr) and arr[index]/abs(arr[index])
    == curr_sign: index += 1], as the final value of [index]. *)
Fixpoint run_length (curr_sign : Q) (arr : list Z) : result Z :=
  match arr with
  | [] => Ok 0
  | x :: arr' =>
      s <- py_div (inject_Z x) (inject_Z (Z.abs x)) ;;
      if Qeq_bool s curr_sign then
        index <- run_length curr_sign arr' ;; Ok (index + 1)
      else Ok 0
  end.

(** The outer loop [while len(arr) > 0], with an iteration budget. *)
Fixpoint combine_adjacent_loop (budget : nat) (arr : list Z) (curr_i : Z)
    (output indexes : list Z) : result (list Z * list Z) :=
  match arr with
  | [] => Ok (output, indexes)
  | a0 :: _ =>
      match budget with
      | O => Stuck
      | S budget' =>
          curr_sign <- py_div (inject_Z a0) (inject_Z (Z.abs a0)) ;;
          index <- run_length curr_sign arr ;;
          combine_adjacent_loop budget'
            (skipn (Z.to_nat index) arr)
            (curr_i + index)
            (output ++ [py_sumZ (py_slice arr 0 index)])
            (indexes ++ [curr_i])
      end
  end.

Definition combine_adjacent (arr : list Z) : result (list Z * list Z) :=
  combine_adjacent_loop (length arr) arr 0 [] [].

(** Body of [for i in range(len(indexes))]; the state is [(volumes, dates)]. *)
Definition coalesce_body (in_volumes in_dates : list Q) (indexes : list Z)
    (st : list Q * list Q) (i : Z) : result (list Q * list Q) :=
  ix <- py_index indexes i ;;
  d <- py_index in_dates ix ;;
  to_sum_to <- (if i + 1 <? len indexes then py_index indexes (i + 1)
                else Ok (len in_volumes)) ;;
  ix' <- py_index indexes i ;;
  Ok (fst st ++ [py_sum (py_slice in_volumes ix' to_sum_to)], snd st ++ [d]).

Definition coalesce_volume_dates (in_volumes in_dates : list Q) (indexes : list Z)
  : result (list Q * list Q) :=
  for_each (coalesce_body in_volumes in_dates indexes) ([], [])
    (py_range 0 (len indexes)).

(* ================================================================== *)
(** ** [_construct_pointnfig_collections] *)
(* ================================================================== *)

(** The variables of the first loop (delta extraction). *)
Record pnf_extract : Type := Build_pnf_extract {
  px_boxes : list Z;
  prev_close_box : Q;
  px_volume_cache : Q;
  px_temp_volumes : list Q;
  px_temp_dates : list Q
}.

(** Body of [for i in range(len(closes)-1)], in exact arithmetic as in
    [renko_extract_body]. *)
Definition pnf_extract_body (dates : list Q) (volumes : option (list Q))
    (closes : list Q) (size : Q) (st : pnf_extract) (i : Z) : result pnf_extract :=
  c <- py_index closes (i + 1) ;;
  q <- py_div (c - prev_close_box st) size ;;
  let box_diff := int_of q in
  if box_diff =? 0 then
    match volumes with
    | Some vs =>
        v <- py_index vs i ;;
        Ok (Build_pnf_extract (px_boxes st) (prev_close_box st)
              (px_volume_cache st + v) (px_temp_volumes st) (px_temp_dates st))
    | None => Ok st
    end
  else
    vc <- match volumes with
          | Some vs =>
              v <- py_index vs i ;;
              Ok (px_temp_volumes st ++ [(v + px_volume_cache st)%Q], 0%Q)
          | None => Ok (px_temp_volumes st, px_volume_cache st)
          end ;;
    d <- py_index dates i ;;
    Ok (Build_pnf_extract (px_boxes st ++ [box_diff])
          (prev_close_box st + inject_Z box_diff * size)
          (snd vc) (fst vc) (px_temp_dates st ++ [d])).

Definition pnf_extract_pass (dates : list Q) (volumes : option (list Q))
    (closes : list Q) (size : Q) : result pnf_extract :=
  c0 <- py_index closes 0 ;;
  for_each (pnf_extract_body dates volumes closes size)
    (Build_pnf_extract [] c0 0 [] []) (py_range 0 (len closes - 1)).

(** The variables of the discount loop. *)
Record pnf_discount : Type := Build_pnf_discount {
  adjusted_boxes : list Z;
  pd_temp_volumes : list Q;
  pd_temp_dates : list Q;
  pd_volume_cache : Q
}.

(** Body of the first [for i in range(1, len(boxes))]. *)
Definition pnf_discount_body (boxes : list Z) (new_volumes new_dates : list Q)
    (st : pnf_discount) (i : Z) : result pnf_discount :=
  b <- py_index boxes i ;;
  s <- py_div (inject_Z b) (inject_Z (Z.abs b)) ;;
  let adjusted_value := b - int_of s in
  let parked :=
    nv <- py_index new_volumes i ;;
    Ok (Build_pnf_discount (adjusted_boxes st) (pd_temp_volumes st)
          (pd_temp_dates st) (pd_volume_cache st + nv)) in
  if adjusted_value =? 0 then parked
  else
    last <- py_index (adjusted_boxes st) (-1) ;;
    if last * adjusted_value <? 0 then
      nv <- py_index new_volumes i ;;
      nd <- py_index new_dates i ;;
      Ok (Build_pnf_discount (adjusted_boxes st ++ [adjusted_value])
            (pd_temp_volumes st ++ [(nv + pd_volume_cache st)%Q])
            (pd_temp_dates st ++ [nd]) 0)
    else if last * adjusted_value >? 0 then
      ab <- py_setitem (adjusted_boxes st) (-1) (last + adjusted_value) ;;
      lastv <- py_index (pd_temp_volumes st) (-1) ;;
      nv <- py_index new_volumes i ;;
      tv <- py_setitem (pd_temp_volumes st) (-1) (lastv + (nv + pd_volume_cache st))%Q ;;
      Ok (Build_pnf_discount ab tv (pd_temp_dates st) 0)
    else parked.

Definition pnf_discount_pass (boxes : list Z) (new_volumes new_dates : list Q)
  : result pnf_discount :=
  b0 <- py_index boxes 0 ;;
  v0 <- py_index new_volumes 0 ;;
  d0 <- py_index new_dates 0 ;;
  for_each (pnf_discount_body boxes new_volumes new_dates)
    (Build_pnf_discount [b0] [v0] [d0] 0) (py_range 1 (len boxes)).

(** The variables of the reversal-threshold loop.  [boxes], [new_volumes]
    and [new_dates] are the source's names at that point. *)
Record pnf_merge : Type := Build_pnf_merge {
  boxes : list Z;
  new_volumes : list Q;
  new_dates : list Q;
  rolling_change : Z;
  volume_cache : Q;
  biggest_difference : Z
}.

(** Body of the second [for i in range(1, len(adjusted_boxes))]. *)
Definition pnf_merge_body (rev : Z) (adjusted : list Z) (temp_volumes temp_dates : list Q)
    (st : pnf_merge) (i : Z) : result pnf_merge :=
  a <- py_index adjusted i ;;
  tv <- py_index temp_volumes i ;;
  let rolling := rolling_change st + a in
  let cache := (volume_cache st + tv)%Q in
  last <- py_index (boxes st) (-1) ;;
  let biggest :=
    if (rolling * last >? 0) && (Z.abs rolling >? Z.abs (biggest_difference st))
    then rolling else biggest_difference st in
  if Z.abs rolling >=? rev then
    if rolling * last >? 0 then
      bs <- py_setitem (boxes st) (-1) (last + rolling) ;;
      lastv <- py_index (new_volumes st) (-1) ;;
      vs <- py_setitem (new_volumes st) (-1) (lastv + cache)%Q ;;
      Ok (Build_pnf_merge bs vs (new_dates st) 0 0 0)
    else
      td <- py_index temp_dates i ;;
      Ok (Build_pnf_merge (boxes st ++ [rolling]) (new_volumes st ++ [cache])
            (new_dates st ++ [td]) 0 0 0)
  else
    Ok (Build_pnf_merge (boxes st) (new_volumes st) (new_dates st)
          rolling cache biggest).

Definition pnf_merge_init (adjusted : list Z) (temp_volumes temp_dates : list Q)
  : result pnf_merge :=
  a0 <- py_index adjusted 0 ;;
  v0 <- py_index temp_volumes 0 ;;
  d0 <- py_index temp_dates 0 ;;
  Ok (Build_pnf_merge [a0] [v0] [d0] 0 0 0).

(** The loop run on the iterations [1 .. m-1]. *)
Definition pnf_merge_upto (m : Z) (rev : Z) (adjusted : list Z)
    (temp_volumes temp_dates : list Q) : result pnf_merge :=
  st0 <- pnf_merge_init adjusted temp_volumes temp_dates ;;
  for_each (pnf_merge_body rev adjusted temp_volumes temp_dates) st0 (py_range 1 m).

(** The two statements after the loop: [boxes[-1] += biggest_difference]
    and [new_volumes[-1] += volume_cache]. *)
Definition pnf_merge_finish (st : pnf_merge) : result pnf_merge :=
  last <- py_index (boxes st) (-1) ;;
  bs <- py_setitem (boxes st) (-1) (last + biggest_difference st) ;;
  lastv <- py_index (new_volumes st) (-1) ;;
  vs <- py_setitem (new_volumes st) (-1) (lastv + volume_cache st)%Q ;;
  Ok (Build_pnf_merge bs vs (new_dates st) (rolling_change st)
        (volume_cache st) (biggest_difference st)).

Definition pnf_merge_pass (rev : Z) (adjusted : list Z)
    (temp_volumes temp_dates : list Q) : result pnf_merge :=
  st <- pnf_merge_upto (len adjusted) rev adjusted temp_volumes temp_dates ;;
  pnf_merge_finish st.

(** One column of [box_values]:
    [[curr_price + i*box_size*sign for i in range(start, diff+start)]]. *)
Definition pnf_column (size curr_price sign : Q) (start_iteration diff : Z) : list Q :=
  map (fun i => curr_price + inject_Z i * size * sign)%Q
      (py_range start_iteration (diff + start_iteration)).

(** Body of [for index, difference in enumerate(boxes)], restricted to the
    price levels; the state is [(curr_price, box_values)]. *)
Definition pnf_values_body (size : Q) (st : Q * list (list Q)) (difference : Z)
  : result (Q * list (list Q)) :=
  let diff := Z.abs difference in
  sign <- py_div (inject_Z difference) (inject_Z (Z.abs difference)) ;;
  let start_iteration := if Qltb 0 sign then 0 else 1 in
  let y := pnf_column size (fst st) sign start_iteration diff in
  Ok ((fst st + size * sign * inject_Z diff)%Q, snd st ++ [y]).

Record pnf_output : Type := Build_pnf_output {
  po_boxes : list Z;
  po_dates : list Q;
  po_volumes : list Q;
  po_values : list (list Q);
  po_size : Q
}.

Definition _construct_pointnfig_collections (dates highs lows : list Q)
    (volumes : option (list Q)) (config_pointnfig_params : pnf_params)
    (closes : list Q) : result pnf_output :=
  size <- resolve_size (box_size config_pointnfig_params)
            (pnf_atr_length config_pointnfig_params) highs lows closes ;;
  let rev := reversal config_pointnfig_params in
  if (rev <? 1) || (rev >? 9) then Raise ValueError
  else
    ex <- pnf_extract_pass dates volumes closes size ;;
    comb <- combine_adjacent (px_boxes ex) ;;
    vd <- coalesce_volume_dates (px_temp_volumes ex) (px_temp_dates ex) (snd comb) ;;
    di <- pnf_discount_pass (fst comb) (fst vd) (snd vd) ;;
    me <- pnf_merge_pass rev (adjusted_boxes di) (pd_temp_volumes di) (pd_temp_dates di) ;;
    curr_price <- py_index closes 0 ;;
    bv <- for_each (pnf_values_body size) (curr_price, []) (boxes me) ;;
    Ok (Build_pnf_output (boxes me) (new_dates me) (new_volumes me) (snd bv) size).

(* ================================================================== *)
(** * Properties *)
(* ================================================================== *)

(** ** Outcomes and loops *)

Lemma bind_Ok {A B : Type} (r : result A) (k : A -> result B) (b : B) :
  bind r k = Ok b -> exists a, r = Ok a /\ k a = Ok b.
Proof.
  destruct r as [a | e | ]; simpl; intros H; try discriminate.
  exists a; split; [reflexivity | exact H].
Qed.

Lemma for_each_app {S I : Type} (body : S -> I -> result S) (xs ys : list I) (st : S) :
  for_each body st (xs ++ ys) = (st' <- for_each body st xs ;; for_each body st' ys).
Proof.
  revert st; induction xs as [| x xs IH]; intros st; simpl; [reflexivity |].
  destruct (body st x) as [st1 | e | ]; simpl; [apply IH | reflexivity | reflexivity].
Qed.

(** An invariant of the loop body is an invariant of the loop. *)
Lemma for_each_invariant {S I : Type} (P : S -> Prop) (body : S -> I -> result S) :
  (forall st x st', P st -> body st x = Ok st' -> P st') ->
  forall xs st st', P st -> for_each body st xs = Ok st' -> P st'.
Proof.
  intros Hstep xs; induction xs as [| x xs IH]; intros st st' HP H; simpl in H.
  - injection H as <-; exact HP.
  - apply bind_Ok in H as (st1 & H1 & H2).
    eapply IH; [eapply Hstep; eassumption | exact H2].
Qed.

Ltac inv_bind H :=
  let x := fresh "x" in
  let Hx := fresh "Hx" in
  apply bind_Ok in H as (x & Hx & H).

(** ** Lists and subscripts *)

Lemma len_nonneg {A : Type} (l : list A) : 0 <= len l.
Proof. unfold len; lia. Qed.

Lemma len_app {A : Type} (l1 l2 : list A) : len (l1 ++ l2) = len l1 + len l2.
Proof. unfold len; rewrite length_app; lia. Qed.

Lemma py_range_shift (a : nat) (k s : nat) :
  map (fun j => Z.of_nat a + Z.of_nat j) (seq s k) = map Z.of_nat (seq (a + s) k).
Proof.
  revert s; induction k as [| k IH]; intros s; simpl; [reflexivity |].
  f_equal; [lia |].
  rewrite IH; do 2 f_equal; lia.
Qed.

Lemma py_range_nat (a b : nat) :
  py_range (Z.of_nat a) (Z.of_nat b) = map Z.of_nat (seq a (b - a)).
Proof.
  unfold py_range.
  replace (Z.to_nat (Z.of_nat b - Z.of_nat a)) with (b - a)%nat by lia.
  rewrite py_range_shift; do 2 f_equal; lia.
Qed.

Lemma py_pos_nat {A : Type} (l : list A) (i : nat) :
  (i < length l)%nat -> py_pos l (Z.of_nat i) = Ok i.
Proof.
  intros Hi; unfold py_pos, len.
  replace (0 <=? Z.of_nat i) with true by (symmetry; apply Z.leb_le; lia).
  replace (Z.of_nat i <? Z.of_nat (length l)) with true
    by (symmetry; apply Z.ltb_lt; lia).
  simpl; f_equal; lia.
Qed.

Lemma py_index_nat {A : Type} (l : list A) (i : nat) (d : A) :
  (i < length l)%nat -> py_index l (Z.of_nat i) = Ok (nth i l d).
Proof.
  intros Hi; unfold py_index; rewrite py_pos_nat by exact Hi; simpl.
  rewrite (nth_error_nth' l d Hi); reflexivity.
Qed.

Lemma py_pos_last {A : Type} (l : list A) (x : A) :
  py_pos (l ++ [x]) (-1) = Ok (length l).
Proof.
  unfold py_pos, len; rewrite length_app; simpl.
  replace (- Z.of_nat (length l + 1) <=? -1) with true
    by (symmetry; apply Z.leb_le; lia).
  simpl; f_equal; lia.
Qed.

Lemma py_index_last {A : Type} (l : list A) (x : A) : py_index (l ++ [x]) (-1) = Ok x.
Proof.
  unfold py_index; rewrite py_pos_last; simpl.
  rewrite nth_error_app2 by lia; rewrite Nat.sub_diag; reflexivity.
Qed.

Lemma py_setitem_last {A : Type} (l : list A) (x v : A) :
  py_setitem (l ++ [x]) (-1) v = Ok (l ++ [v]).
Proof.
  unfold py_setitem; rewrite py_pos_last; unfold bind.
  rewrite firstn_app, firstn_all, Nat.sub_diag, firstn_O, app_nil_r.
  rewrite skipn_all2 by (rewrite length_app; simpl; lia).
  reflexivity.
Qed.

Lemma py_div_nonzero (a b : Q) : ~ b == 0 -> py_div a b = Ok (a / b)%Q.
Proof.
  intros Hb; unfold py_div.
  destruct (Qeq_bool b 0) eqn:E; [apply Qeq_bool_eq in E; contradiction | reflexivity].
Qed.

(** ** The ATR estimator *)

Lemma atr_body_true_range (highs lows closes : list Q) (atr : Q) (i : nat) :
  length highs = length closes -> length lows = length closes ->
  (1 <= i < length closes)%nat ->
  atr_body highs lows closes atr (Z.of_nat i)
  = Ok (atr + true_range highs lows closes i)%Q.
Proof.
  intros Hh Hl Hi; unfold atr_body.
  rewrite (py_index_nat highs i 0%Q) by lia; simpl.
  rewrite (py_index_nat lows i 0%Q) by lia; simpl.
  replace (Z.of_nat i - 1) with (Z.of_nat (i - 1)) by lia.
  rewrite (py_index_nat closes (i - 1) 0%Q) by lia; simpl.
  reflexivity.
Qed.

Lemma atr_loop_sum (highs lows closes : list Q) (idx : list nat) :
  length highs = length closes -> length lows = length closes ->
  Forall (fun i => 1 <= i < length closes)%nat idx ->
  forall atr, exists r,
    for_each (atr_body highs lows closes) atr (map Z.of_nat idx) = Ok r /\
    r == atr + Qsum (map (true_range highs lows closes) idx).
Proof.
  intros Hh Hl Hidx; induction Hidx as [| i idx Hi _ IH]; intros atr; simpl.
  - exists atr; split; [reflexivity | ring].
  - rewrite atr_body_true_range by assumption; simpl.
    destruct (IH (atr + true_range highs lows closes i)%Q) as (r & Hr & Heq).
    exists r; split; [exact Hr |].
    rewrite Heq; ring.
Qed.

(** C6. With highs, lows and closes of one length [n] and an integer
    [atr_length] with [1 <= atr_length < n], [_calculate_atr] returns the
    arithmetic mean of exactly [atr_length] true ranges, those of the
    positions [n - atr_length .. n - 1], the true range at [i] being
    [max(|high[i]-low[i]|, |high[i]-close[i-1]|, |low[i]-close[i-1]|)];
    with [atr_length < 1] or [atr_length >= n] it raises [ValueError]. *)
Theorem calculate_atr_mean_of_window :
  forall (highs lows closes : list Q) (atr_length : Z),
    length highs = length closes ->
    length lows = length closes ->
    (1 <= atr_length < len closes ->
     exists atr,
       _calculate_atr atr_length highs lows closes = Ok atr /\
       len (true_range_window (Z.to_nat atr_length) highs lows closes) = atr_length /\
       atr == Qsum (true_range_window (Z.to_nat atr_length) highs lows closes)
              / inject_Z atr_length) /\
    (atr_length < 1 \/ len closes <= atr_length ->
     _calculate_atr atr_length highs lows closes = Raise ValueError).
Proof.
  intros highs lows closes atr_length Hh Hl; split.
  - intros [H1 Hn]; unfold _calculate_atr.
    replace (atr_length <? 1) with false by (symmetry; apply Z.ltb_ge; lia).
    replace (atr_length >=? len closes) with false
      by (symmetry; rewrite Z.geb_leb; apply Z.leb_gt; lia).
    unfold len in *.
    set (L := Z.to_nat atr_length).
    assert (HL : atr_length = Z.of_nat L) by (subst L; lia).
    rewrite Hh.
    replace (Z.of_nat (length closes) - atr_length)
      with (Z.of_nat (length closes - L)) by lia.
    rewrite py_range_nat.
    replace (length closes - (length closes - L))%nat with L by lia.
    destruct (atr_loop_sum highs lows closes (seq (length closes - L) L) Hh Hl)
      with (atr := 0%Q) as (r & Hr & Heq).
    { apply Forall_forall; intros i Hi; apply in_seq in Hi; lia. }
    rewrite Hr; simpl.
    rewrite py_div_nonzero.
    + eexists; split; [reflexivity |]; split.
      * unfold true_range_window; rewrite length_map, length_seq; lia.
      * unfold true_range_window; rewrite Heq.
        rewrite Qplus_0_l; reflexivity.
    + intros Hz. unfold Qeq in Hz; simpl in Hz; lia.
  - intros Hbad; unfold _calculate_atr.
    destruct (atr_length <? 1) eqn:E1; [reflexivity |].
    apply Z.ltb_ge in E1.
    replace (atr_length >=? len closes) with true; [reflexivity |].
    symmetry; rewrite Z.geb_leb; apply Z.leb_le; lia.
Qed.

Lemma calculate_atr_mean_of_window_witness :
  let highs := [3; 5; 4]%Q in
  let lows := [1; 2; 2]%Q in
  let closes := [2; 3; 3]%Q in
  exists atr,
    _calculate_atr 2 highs lows closes = Ok atr /\
    len (true_range_window (Z.to_nat 2) highs lows closes) = 2 /\
    atr == Qsum (true_range_window (Z.to_nat 2) highs lows closes) / inject_Z 2.
Proof.
  intros highs lows closes.
  apply (proj1 (calculate_atr_mean_of_window highs lows closes 2
                  eq_refl eq_refl)).
  unfold len; simpl; lia.
Defined.

(** ** Renko: the bricks depend on the closes and the brick size only *)

Lemma renko_extract_body_prices (dates1 dates2 : list Q) (vols1 vols2 : option (list Q))
    (closes : list Q) (size : Q) (s1 s2 s1' s2' : renko_extract) (i : Z) :
  cdiff s1 = cdiff s2 -> prev_close_brick s1 = prev_close_brick s2 ->
  renko_extract_body dates1 vols1 closes size s1 i = Ok s1' ->
  renko_extract_body dates2 vols2 closes size s2 i = Ok s2' ->
  cdiff s1' = cdiff s2' /\ prev_close_brick s1' = prev_close_brick s2'.
Proof.
  intros Hc Hp H1 H2; unfold renko_extract_body in H1, H2.
  rewrite <- Hp in H2.
  destruct (py_index closes (i + 1)) as [c | |]; simpl in H1, H2; try discriminate.
  destruct (py_div (c - prev_close_brick s1) size) as [q | |];
    simpl in H1, H2; try discriminate.
  destruct (int_of q =? 0).
  - assert (E1 : cdiff s1' = cdiff s1 /\ prev_close_brick s1' = prev_close_brick s1).
    { destruct vols1 as [vs |]; [inv_bind H1 |]; injection H1 as <-; simpl; auto. }
    assert (E2 : cdiff s2' = cdiff s2 /\ prev_close_brick s2' = prev_close_brick s2).
    { destruct vols2 as [vs |]; [inv_bind H2 |]; injection H2 as <-; simpl; auto. }
    destruct E1 as [-> ->], E2 as [-> ->]; auto.
  - destruct (py_div (inject_Z (int_of q)) (inject_Z (Z.abs (int_of q)))) as [s | |];
      simpl in H1, H2; try discriminate.
    inv_bind H1; inv_bind H1; inv_bind H2; inv_bind H2.
    injection H1 as <-; injection H2 as <-; simpl.
    rewrite Hc; auto.
Qed.

Lemma renko_extract_loop_prices (dates1 dates2 : list Q) (vols1 vols2 : option (list Q))
    (closes : list Q) (size : Q) (idx : list Z) :
  forall s1 s2 s1' s2',
    cdiff s1 = cdiff s2 -> prev_close_brick s1 = prev_close_brick s2 ->
    for_each (renko_extract_body dates1 vols1 closes size) s1 idx = Ok s1' ->
    for_each (renko_extract_body dates2 vols2 closes size) s2 idx = Ok s2' ->
    cdiff s1' = cdiff s2' /\ prev_close_brick s1' = prev_close_brick s2'.
Proof.
  induction idx as [| i idx IH]; intros s1 s2 s1' s2' Hc Hp H1 H2; simpl in H1, H2.
  - injection H1 as <-; injection H2 as <-; auto.
  - apply bind_Ok in H1 as (t1 & Hb1 & H1); apply bind_Ok in H2 as (t2 & Hb2 & H2).
    destruct (renko_extract_body_prices _ _ _ _ _ _ _ _ _ _ _ Hc Hp Hb1 Hb2) as [Hc' Hp'].
    exact (IH _ _ _ _ Hc' Hp' H1 H2).
Qed.

Lemma renko_extract_pass_prices (dates1 dates2 : list Q) (vols1 vols2 : option (list Q))
    (closes : list Q) (size : Q) (e1 e2 : renko_extract) :
  renko_extract_pass dates1 vols1 closes size = Ok e1 ->
  renko_extract_pass dates2 vols2 closes size = Ok e2 ->
  cdiff e1 = cdiff e2.
Proof.
  unfold renko_extract_pass, renko_extract_upto; intros H1 H2.
  destruct (py_index closes 0) as [c0 | |]; simpl in H1, H2; try discriminate.
  eapply renko_extract_loop_prices; [| | exact H1 | exact H2]; reflexivity.
Qed.

Lemma renko_penalty_body_bricks (vols1 vols2 : option (list Q))
    (s1 s2 s1' s2' : renko_penalty) (diff : Z) :
  bricks s1 = bricks s2 -> last_diff_sign s1 = last_diff_sign s2 ->
  renko_penalty_body vols1 s1 diff = Ok s1' ->
  renko_penalty_body vols2 s2 diff = Ok s2' ->
  bricks s1' = bricks s2' /\ last_diff_sign s1' = last_diff_sign s2'.
Proof.
  intros Hb Hl H1 H2; unfold renko_penalty_body in H1, H2.
  rewrite <- Hl in H2.
  destruct (py_div (inject_Z diff) (inject_Z (Z.abs diff))) as [s | |];
    simpl in H1, H2; try discriminate.
  destruct (negb (Qeq_bool (last_diff_sign s1) 0)
            && negb (Qeq_bool s (last_diff_sign s1))).
  - inv_bind H1; inv_bind H1; inv_bind H2; inv_bind H2.
    injection H1 as <-; injection H2 as <-; simpl; auto.
  - injection H1 as <-; injection H2 as <-; simpl; rewrite Hb; auto.
Qed.

Lemma renko_penalty_pass_bricks (vols1 vols2 : option (list Q)) (cd : list Z)
    (d1 d2 v1 v2 : list Q) (p1 p2 : renko_penalty) :
  renko_penalty_pass vols1 cd d1 v1 = Ok p1 ->
  renko_penalty_pass vols2 cd d2 v2 = Ok p2 ->
  bricks p1 = bricks p2.
Proof.
  unfold renko_penalty_pass.
  assert (G : forall s1 s2 s1' s2',
             bricks s1 = bricks s2 -> last_diff_sign s1 = last_diff_sign s2 ->
             for_each (renko_penalty_body vols1) s1 cd = Ok s1' ->
             for_each (renko_penalty_body vols2) s2 cd = Ok s2' ->
             bricks s1' = bricks s2').
  { induction cd as [| diff cd IH]; intros s1 s2 s1' s2' Hb Hl H1 H2; simpl in H1, H2.
    - injection H1 as <-; injection H2 as <-; exact Hb.
    - apply bind_Ok in H1 as (t1 & Hb1 & H1); apply bind_Ok in H2 as (t2 & Hb2 & H2).
      destruct (renko_penalty_body_bricks _ _ _ _ _ _ _ Hb Hl Hb1 Hb2) as [Hb' Hl'].
      exact (IH _ _ _ _ Hb' Hl' H1 H2). }
  intros H1 H2; eapply G; [| | exact H1 | exact H2]; reflexivity.
Qed.

Lemma resolve_size_explicit (v size : Q) (al : atr_length_cfg) (highs lows closes : list Q) :
  resolve_size (SizeNum v) al highs lows closes = Ok size -> size = v.
Proof.
  unfold resolve_size; intros H.
  inv_bind H; inv_bind H.
  destruct (Qltb x v); [discriminate |].
  destruct (Qltb v x0); [discriminate |].
  injection H as <-; reflexivity.
Qed.

(** The series of the single-reversal example. *)
Definition reversal_closes : list Q := [100; 110; 120; 115; 105; 95]%Q.
Definition reversal_dates : list Q := [1; 2; 3; 4; 5; 6]%Q.

(** C1, as stated, fails: on closes [100,110,120,115,105,95] with brick
    size 10 the aggregation does not return the bricks [+1,+1,-1,-1]. *)
Lemma renko_single_reversal_not_four_bricks :
  ~ (exists out,
       _construct_renko_collections reversal_dates reversal_closes reversal_closes
         None (Build_renko_params (SizeNum 10) (LengthInt 14)) reversal_closes
       = Ok out /\
       ro_bricks out = [1; 1; -1; -1]).
Proof.
  intros (out & Hrun & Hb).
  vm_compute in Hrun; injection Hrun as <-.
  discriminate Hb.
Qed.

(** C1, amended.  On closes [100,110,120,115,105,95] with brick size 10,
    whatever the dates, highs, lows and volumes, delta extraction yields
    the four units [+1,+1,-1,-1] and the aggregation returns the three
    bricks [+1,+1,-1]: the reversal costs one brick. *)
Theorem renko_single_reversal_three_bricks :
  forall (dates highs lows : list Q) (volumes : option (list Q))
         (al : atr_length_cfg) (out : renko_output),
    _construct_renko_collections dates highs lows volumes
      (Build_renko_params (SizeNum 10) al) reversal_closes = Ok out ->
    (exists ex, renko_extract_pass dates volumes reversal_closes 10 = Ok ex /\
                cdiff ex = [1; 1; -1; -1]) /\
    ro_bricks out = [1; 1; -1].
Proof.
  intros dates highs lows volumes al out H.
  unfold _construct_renko_collections in H; simpl brick_size in H.
  apply bind_Ok in H as (size & Hsize & H).
  apply resolve_size_explicit in Hsize; subst size.
  apply bind_Ok in H as (ex & Hex & H).
  apply bind_Ok in H as (c0 & _ & H).
  apply bind_Ok in H as (pe & Hpe & H).
  injection H as <-; simpl.
  assert (Hcd : cdiff ex = [1; 1; -1; -1]).
  { destruct (renko_extract_pass reversal_dates None reversal_closes 10)
      as [ex0 | |] eqn:E0; try (vm_compute in E0; discriminate E0).
    rewrite (renko_extract_pass_prices _ _ _ _ _ _ _ _ Hex E0).
    vm_compute in E0; injection E0 as <-; reflexivity. }
  split; [exists ex; auto |].
  rewrite Hcd in Hpe.
  destruct (renko_penalty_pass None [1; 1; -1; -1] [1; 2; 4; 5]%Q [])
    as [pe0 | |] eqn:E0; try (vm_compute in E0; discriminate E0).
  rewrite (renko_penalty_pass_bricks _ _ _ _ _ _ _ _ _ Hpe E0).
  vm_compute in E0; injection E0 as <-; reflexivity.
Qed.

Lemma renko_single_reversal_three_bricks_witness :
  exists out,
    _construct_renko_collections reversal_dates reversal_closes reversal_closes
      (Some [7; 7; 7; 7; 7; 7]%Q) (Build_renko_params (SizeNum 10) (LengthInt 14))
      reversal_closes = Ok out /\
    ro_bricks out = [1; 1; -1].
Proof.
  eexists; split; [vm_compute; reflexivity |].
  refine (proj2 (renko_single_reversal_three_bricks reversal_dates reversal_closes
                   reversal_closes (Some [7; 7; 7; 7; 7; 7]%Q) (LengthInt 14) _ _)).
  vm_compute; reflexivity.
Defined.

(** ** Signs and sums *)

Lemma int_of_sign (z : Z) :
  z <> 0 -> int_of (inject_Z z / inject_Z (Z.abs z)) = Z.sgn z.
Proof.
  intros Hz; destruct z as [| p | p]; [contradiction | |];
    unfold int_of, Qdiv, Qmult, Qinv, inject_Z; simpl.
  - rewrite Pos.mul_1_r. apply Z.quot_same; discriminate.
  - rewrite Pos.mul_1_r.
    change (Z.neg p) with (- Z.pos p).
    rewrite Z.quot_opp_l by discriminate.
    rewrite Z.quot_same by discriminate; reflexivity.
Qed.

Lemma inject_Z_nonzero (z : Z) : z <> 0 -> ~ inject_Z z == 0.
Proof. intros Hz H; unfold Qeq in H; simpl in H; lia. Qed.

Lemma py_div_sign (z : Z) :
  z <> 0 ->
  py_div (inject_Z z) (inject_Z (Z.abs z)) = Ok (inject_Z z / inject_Z (Z.abs z))%Q.
Proof. intros Hz; apply py_div_nonzero, inject_Z_nonzero; lia. Qed.

Lemma py_div_Ok (a b q : Q) : py_div a b = Ok q -> ~ b == 0 /\ q = (a / b)%Q.
Proof.
  unfold py_div; destruct (Qeq_bool b 0) eqn:E; [discriminate |].
  intros H; injection H as <-; split; [| reflexivity].
  intros Hb; apply Qeq_eq_bool in Hb; congruence.
Qed.

Lemma py_div_sign_Ok (z : Z) (s : Q) :
  py_div (inject_Z z) (inject_Z (Z.abs z)) = Ok s ->
  z <> 0 /\ int_of s = Z.sgn z /\ s == inject_Z (Z.sgn z).
Proof.
  intros H; apply py_div_Ok in H as [Hnz ->].
  assert (Hz : z <> 0).
  { intros ->; apply Hnz; reflexivity. }
  split; [exact Hz |]; split; [apply int_of_sign; exact Hz |].
  destruct z as [| p | p]; [contradiction | |];
    unfold Qeq, Qdiv, Qmult, Qinv, inject_Z; simpl;
    rewrite ?Pos.mul_1_r; reflexivity.
Qed.

Lemma fold_left_Zadd (l : list Z) (a : Z) : fold_left Z.add l a = a + py_sumZ l.
Proof.
  unfold py_sumZ; revert a; induction l as [| x l IH]; intros a; simpl; [lia |].
  rewrite IH, (IH x); lia.
Qed.

Lemma py_sumZ_app (l1 l2 : list Z) : py_sumZ (l1 ++ l2) = py_sumZ l1 + py_sumZ l2.
Proof. unfold py_sumZ at 1; rewrite fold_left_app, fold_left_Zadd; reflexivity. Qed.

Lemma py_sumZ_repeat (x : Z) (n : nat) : py_sumZ (repeat x n) = Z.of_nat n * x.
Proof.
  induction n as [| n IH]; [reflexivity |].
  change (repeat x (S n)) with ([x] ++ repeat x n).
  rewrite py_sumZ_app, IH; unfold py_sumZ; cbn [fold_left]; lia.
Qed.

Lemma py_sumZ_units (z : Z) : py_sumZ (py_repeat (Z.sgn z) (Z.abs z)) = z.
Proof. unfold py_repeat; rewrite py_sumZ_repeat; lia. Qed.

(** ** Renko: the reference close *)

(** One iteration either leaves the reference close and the units alone,
    or emits [|brick_diff|] units of sign [sgn brick_diff] and advances the
    reference close by [brick_diff * brick_size]. *)
Lemma renko_extract_body_step (dates : list Q) (volumes : option (list Q))
    (closes : list Q) (size : Q) (st st' : renko_extract) (i : Z) :
  renko_extract_body dates volumes closes size st i = Ok st' ->
  (cdiff st' = cdiff st /\ prev_close_brick st' = prev_close_brick st /\
   rx_new_dates st' = rx_new_dates st /\ rx_new_volumes st' = rx_new_volumes st) \/
  (exists (brick_diff : Z) (d : Q),
      brick_diff <> 0 /\
      cdiff st' = cdiff st ++ py_repeat (Z.sgn brick_diff) (Z.abs brick_diff) /\
      prev_close_brick st' = (prev_close_brick st + inject_Z brick_diff * size)%Q /\
      rx_new_dates st' = rx_new_dates st ++ py_repeat d (Z.abs brick_diff) /\
      match volumes with
      | Some _ => exists v, rx_new_volumes st'
                            = rx_new_volumes st ++ py_repeat v (Z.abs brick_diff)
      | None => rx_new_volumes st' = rx_new_volumes st
      end).
Proof.
  intros H; unfold renko_extract_body in H.
  apply bind_Ok in H as (c & _ & H).
  apply bind_Ok in H as (q & _ & H).
  destruct (int_of q =? 0) eqn:E.
  - left; destruct volumes as [vs |]; [inv_bind H |]; injection H as <-; simpl; auto.
  - right; apply Z.eqb_neq in E.
    apply bind_Ok in H as (s & Hs & H).
    apply py_div_sign_Ok in Hs as (_ & Hs & _).
    apply bind_Ok in H as (vc & Hvc & H).
    apply bind_Ok in H as (d & _ & H).
    injection H as <-; simpl.
    exists (int_of q), d; rewrite Hs; repeat split; auto.
    destruct volumes as [vs |].
    + apply bind_Ok in Hvc as (v & _ & Hvc); injection Hvc as <-; simpl; eauto.
    + injection Hvc as <-; reflexivity.
Qed.

(** ** Subscripts at a known position *)

Lemma py_pos_Ok {A : Type} (l : list A) (i : Z) (p : nat) :
  py_pos l i = Ok p ->
  (p < length l)%nat /\
  ((0 <= i /\ Z.of_nat p = i) \/ (i < 0 /\ Z.of_nat p = len l + i)).
Proof.
  unfold py_pos, len; intros H.
  destruct ((0 <=? i) && (i <? Z.of_nat (length l))) eqn:E1.
  - apply andb_prop in E1 as [E1 E2]; apply Z.leb_le in E1; apply Z.ltb_lt in E2.
    injection H as <-; split; [lia | left; lia].
  - destruct ((- Z.of_nat (length l) <=? i) && (i <? 0)) eqn:E2; [| discriminate].
    apply andb_prop in E2 as [E2 E3]; apply Z.leb_le in E2; apply Z.ltb_lt in E3.
    injection H as <-; split; [lia | right; lia].
Qed.

Lemma py_pos_mid {A : Type} (pre post : list A) (x : A) :
  py_pos (pre ++ x :: post) (len pre) = Ok (length pre).
Proof. apply py_pos_nat; rewrite length_app; simpl; lia. Qed.

Lemma py_index_mid {A : Type} (pre post : list A) (x : A) :
  py_index (pre ++ x :: post) (len pre) = Ok x.
Proof.
  unfold py_index; rewrite py_pos_mid; unfold bind.
  rewrite nth_error_app2 by lia; rewrite Nat.sub_diag; reflexivity.
Qed.

Lemma py_setitem_mid {A : Type} (pre post : list A) (x v : A) :
  py_setitem (pre ++ x :: post) (len pre) v = Ok (pre ++ v :: post).
Proof.
  unfold py_setitem; rewrite py_pos_mid; unfold bind.
  rewrite firstn_app, firstn_all, Nat.sub_diag, firstn_O, app_nil_r.
  rewrite skipn_app, skipn_all2 by lia.
  replace (length pre + 1 - length pre)%nat with 1%nat by lia; reflexivity.
Qed.

Lemma py_pop_mid {A : Type} (pre post : list A) (x : A) :
  py_pop (pre ++ x :: post) (len pre) = Ok (pre ++ post).
Proof.
  unfold py_pop; rewrite py_pos_mid; unfold bind.
  rewrite firstn_app, firstn_all, Nat.sub_diag, firstn_O, app_nil_r.
  rewrite skipn_app, skipn_all2 by lia.
  replace (length pre + 1 - length pre)%nat with 1%nat by lia; reflexivity.
Qed.

Lemma py_pop_length {A : Type} (l l' : list A) (i : Z) :
  py_pop l i = Ok l' -> len l = len l' + 1.
Proof.
  unfold py_pop; intros H; apply bind_Ok in H as (p & Hp & H).
  apply py_pos_Ok in Hp as [Hp _]; injection H as <-.
  unfold len; rewrite length_app, length_firstn, length_skipn; lia.
Qed.

Lemma py_setitem_length {A : Type} (l l' : list A) (i : Z) (v : A) :
  py_setitem l i v = Ok l' -> len l' = len l.
Proof.
  unfold py_setitem; intros H; apply bind_Ok in H as (p & Hp & H).
  apply py_pos_Ok in Hp as [Hp _]; injection H as <-.
  unfold len; rewrite length_app, length_firstn; cbn [length].
  rewrite length_skipn; lia.
Qed.

(** Every subscript that succeeds splits the list around its position. *)
Lemma py_index_split {A : Type} (l : list A) (i : Z) (x : A) :
  py_index l i = Ok x ->
  exists pre post, l = pre ++ x :: post /\
    (0 <= i -> len pre = i) /\ (i < 0 -> len pre = len l + i).
Proof.
  unfold py_index; intros H; apply bind_Ok in H as (p & Hp & H).
  apply py_pos_Ok in Hp as [Hlt Hp].
  destruct (nth_error l p) as [y |] eqn:E; [| discriminate]; injection H as ->.
  apply nth_error_split in E as (pre & post & -> & Hlen).
  exists pre, post; split; [reflexivity |].
  unfold len in *; split; intros Hi; destruct Hp as [[? ?] | [? ?]]; lia.
Qed.

(** ** Renko: the unit dropped at a reversal *)

Lemma Qeq_bool_false (x y : Q) : ~ x == y -> Qeq_bool x y = false.
Proof.
  intros H; destruct (Qeq_bool x y) eqn:E; [| reflexivity].
  apply Qeq_bool_eq in E; contradiction.
Qed.

Lemma Qeq_bool_true (x y : Q) : x == y -> Qeq_bool x y = true.
Proof. apply Qeq_eq_bool. Qed.

Lemma renko_fold_volume_following (pre post : list Q) (v w : Q) :
  renko_fold_volume (pre ++ v :: w :: post) (len pre)
  = Ok (pre ++ (w + v)%Q :: post).
Proof.
  unfold renko_fold_volume.
  replace (len pre =? len (pre ++ v :: w :: post) - 1) with false
    by (symmetry; apply Z.eqb_neq; rewrite len_app; unfold len; simpl length; lia).
  assert (E : pre ++ v :: w :: post = (pre ++ [v]) ++ w :: post)
    by (rewrite <- app_assoc; reflexivity).
  assert (L : len pre + 1 = len (pre ++ [v])) by (rewrite len_app; reflexivity).
  rewrite E at 1; rewrite L, py_index_mid; unfold bind at 2.
  rewrite py_index_mid; unfold bind at 2.
  rewrite E, py_setitem_mid; unfold bind.
  rewrite <- app_assoc; simpl; apply py_pop_mid.
Qed.

Lemma renko_fold_volume_previous (pre : list Q) (u v : Q) :
  renko_fold_volume (pre ++ [u; v]) (len pre + 1) = Ok (pre ++ [(u + v)%Q]).
Proof.
  unfold renko_fold_volume.
  replace (len pre + 1 =? len (pre ++ [u; v]) - 1) with true
    by (symmetry; apply Z.eqb_eq; rewrite len_app; unfold len; simpl length; lia).
  replace (len pre + 1 - 1) with (len pre) by lia.
  rewrite py_index_mid; unfold bind at 2.
  assert (E : pre ++ [u; v] = (pre ++ [u]) ++ [v])
    by (rewrite <- app_assoc; reflexivity).
  assert (L : len pre + 1 = len (pre ++ [u])) by (rewrite len_app; reflexivity).
  rewrite E at 1; rewrite L, py_index_mid; unfold bind at 2.
  rewrite py_setitem_mid; unfold bind.
  assert (E' : pre ++ [(u + v)%Q; v] = (pre ++ [(u + v)%Q]) ++ [v])
    by (rewrite <- app_assoc; reflexivity).
  assert (L' : len (pre ++ [u]) = len (pre ++ [(u + v)%Q]))
    by (rewrite !len_app; reflexivity).
  rewrite E', L', py_pop_mid, app_nil_r; reflexivity.
Qed.

(** C3, as stated, fails: with the dropped unit at position 1 of three
    entries (not the last), its volume 20 goes to the following entry
    ([10, 50]), not to the previous one ([30, 30]). *)
Lemma renko_drop_not_last_folds_forward :
  exists st',
    renko_penalty_body (Some [10; 20; 30]%Q)
      (Build_renko_penalty [1] 1 1 [1; 2; 3]%Q [10; 20; 30]%Q) (-1) = Ok st' /\
    bricks st' = [1] /\
    rp_new_volumes st' = [10; 50]%Q /\
    rp_new_volumes st' <> [30; 30]%Q.
Proof.
  eexists; split; [vm_compute; reflexivity |]; simpl.
  repeat split; discriminate.
Qed.

(** C3, amended.  In the Renko reversal-penalty pass, whenever a unit's sign
    differs from a nonzero [last_diff_sign], that unit is dropped: no brick
    is emitted, the cursor stays, [last_diff_sign] takes the unit's sign,
    its date entry is removed, and its volume is folded into the following
    entry if the dropped entry is not the last one, otherwise into the
    previous entry. *)
Theorem renko_reversal_drop_folds_volume :
  forall (vs : list Q) (st : renko_penalty) (diff : Z) (dpre dpost : list Q) (d : Q),
    diff <> 0 ->
    ~ last_diff_sign st == 0 ->
    ~ inject_Z (Z.sgn diff) == last_diff_sign st ->
    rp_new_dates st = dpre ++ d :: dpost ->
    len dpre = dates_volumes_index st ->
    (forall pre post v w,
        rp_new_volumes st = pre ++ v :: w :: post ->
        len pre = dates_volumes_index st ->
        exists st',
          renko_penalty_body (Some vs) st diff = Ok st' /\
          bricks st' = bricks st /\
          dates_volumes_index st' = dates_volumes_index st /\
          last_diff_sign st' == inject_Z (Z.sgn diff) /\
          rp_new_dates st' = dpre ++ dpost /\
          rp_new_volumes st' = pre ++ (w + v)%Q :: post) /\
    (forall pre u v,
        rp_new_volumes st = pre ++ [u; v] ->
        len pre + 1 = dates_volumes_index st ->
        exists st',
          renko_penalty_body (Some vs) st diff = Ok st' /\
          bricks st' = bricks st /\
          dates_volumes_index st' = dates_volumes_index st /\
          last_diff_sign st' == inject_Z (Z.sgn diff) /\
          rp_new_dates st' = dpre ++ dpost /\
          rp_new_volumes st' = pre ++ [(u + v)%Q]).
Proof.
  intros vs st diff dpre dpost d Hdiff Hlast Hsign Hdates Hdlen.
  assert (Hs : (inject_Z diff / inject_Z (Z.abs diff) == inject_Z (Z.sgn diff))%Q).
  { pose proof (py_div_sign diff Hdiff) as E.
    apply py_div_sign_Ok in E as (_ & _ & E); exact E. }
  assert (Hbody : forall nv,
             renko_fold_volume (rp_new_volumes st) (dates_volumes_index st) = Ok nv ->
             renko_penalty_body (Some vs) st diff
             = Ok (Build_renko_penalty (bricks st)
                     (inject_Z diff / inject_Z (Z.abs diff))%Q
                     (dates_volumes_index st) (dpre ++ dpost) nv)).
  { intros nv Hnv; unfold renko_penalty_body.
    rewrite (py_div_sign diff Hdiff); unfold bind at 1.
    rewrite (Qeq_bool_false _ _ Hlast).
    rewrite Qeq_bool_false by (rewrite Hs; exact Hsign).
    simpl negb; simpl andb; cbv iota.
    rewrite Hdates, <- Hdlen, py_pop_mid; unfold bind at 1.
    rewrite Hdlen, Hnv; reflexivity. }
  split.
  - intros pre post v w Hv Hlen.
    eexists; split; [apply Hbody; rewrite Hv, <- Hlen;
                     apply renko_fold_volume_following |].
    simpl; repeat split; auto.
  - intros pre u v Hv Hlen.
    eexists; split; [apply Hbody; rewrite Hv, <- Hlen;
                     apply renko_fold_volume_previous |].
    simpl; repeat split; auto.
Qed.

Lemma renko_reversal_drop_folds_volume_witness :
  exists st',
    renko_penalty_body (Some [10; 20; 30]%Q)
      (Build_renko_penalty [1] 1 1 [1; 2; 3]%Q [10; 20; 30]%Q) (-1) = Ok st' /\
    bricks st' = [1] /\
    dates_volumes_index st' = 1 /\
    last_diff_sign st' == inject_Z (Z.sgn (-1)) /\
    rp_new_dates st' = [1; 3]%Q /\
    rp_new_volumes st' = [10; (30 + 20)]%Q.
Proof.
  refine (proj1 (renko_reversal_drop_folds_volume [10; 20; 30]%Q
            (Build_renko_penalty [1] 1 1 [1; 2; 3]%Q [10; 20; 30]%Q) (-1)
            [1%Q] [3%Q] 2%Q _ _ _ eq_refl eq_refl) [10%Q] [] 20%Q 30%Q eq_refl eq_refl).
  - lia.
  - simpl; intros H; discriminate H.
  - simpl; intros H; discriminate H.
Defined.

(** ** Renko: the two loops, step by step *)

Lemma len_py_repeat {A : Type} (x : A) (n : Z) : 0 <= n -> len (py_repeat x n) = n.
Proof. intros Hn; unfold len, py_repeat; rewrite repeat_length; lia. Qed.

Lemma Qsum_app (l1 l2 : list Q) : Qsum (l1 ++ l2) == Qsum l1 + Qsum l2.
Proof.
  induction l1 as [| x l1 IH]; simpl; [ring |].
  rewrite IH; ring.
Qed.

Definition is_unit (u : Z) : Prop := u = 1 \/ u = -1.

Lemma Forall_unit_repeat (z : Z) :
  z <> 0 -> Forall is_unit (py_repeat (Z.sgn z) (Z.abs z)).
Proof.
  intros Hz; unfold py_repeat; apply Forall_forall; intros u Hu.
  apply repeat_spec in Hu; subst u; unfold is_unit; lia.
Qed.

(** After delta extraction with volumes, units, dates and volumes are
    aligned and every unit is [+1] or [-1]. *)
Lemma renko_extract_aligned (dates vs closes : list Q) (size : Q) (idx : list Z) :
  forall st st',
    for_each (renko_extract_body dates (Some vs) closes size) st idx = Ok st' ->
    (len (cdiff st) = len (rx_new_dates st) /\
     len (cdiff st) = len (rx_new_volumes st) /\ Forall is_unit (cdiff st)) ->
    len (cdiff st') = len (rx_new_dates st') /\
    len (cdiff st') = len (rx_new_volumes st') /\ Forall is_unit (cdiff st').
Proof.
  intros st st' Hrun Hinit; revert Hrun.
  apply for_each_invariant with (P := fun s =>
    len (cdiff s) = len (rx_new_dates s) /\
    len (cdiff s) = len (rx_new_volumes s) /\ Forall is_unit (cdiff s));
    [| exact Hinit].
  clear; intros s i s' (Hd & Hv & Hu) Hb.
  apply renko_extract_body_step in Hb
    as [(Hc & _ & Hd' & Hv') | (bd & d & Hbd & Hc & _ & Hd' & v & Hv')].
  - rewrite Hc, Hd', Hv'; auto.
  - rewrite Hc, Hd', Hv', !len_app, !len_py_repeat by lia.
    repeat split; try lia.
    apply Forall_app; split; [exact Hu | apply Forall_unit_repeat; exact Hbd].
Qed.

(** One iteration of the reversal-penalty loop: a drop or an emission. *)
Lemma renko_penalty_body_step (volumes : option (list Q)) (st st' : renko_penalty)
    (diff : Z) :
  renko_penalty_body volumes st diff = Ok st' ->
  diff <> 0 /\ last_diff_sign st' == inject_Z (Z.sgn diff) /\
  ((~ last_diff_sign st == 0 /\ ~ inject_Z (Z.sgn diff) == last_diff_sign st /\
    bricks st' = bricks st /\
    dates_volumes_index st' = dates_volumes_index st /\
    py_pop (rp_new_dates st) (dates_volumes_index st) = Ok (rp_new_dates st') /\
    match volumes with
    | Some _ => renko_fold_volume (rp_new_volumes st) (dates_volumes_index st)
                = Ok (rp_new_volumes st')
    | None => rp_new_volumes st' = rp_new_volumes st
    end) \/
   ((last_diff_sign st == 0 \/ inject_Z (Z.sgn diff) == last_diff_sign st) /\
    bricks st' = bricks st ++ py_repeat (Z.sgn diff) (Z.abs diff) /\
    dates_volumes_index st' = dates_volumes_index st + 1 /\
    rp_new_dates st' = rp_new_dates st /\
    rp_new_volumes st' = rp_new_volumes st)).
Proof.
  intros H; unfold renko_penalty_body in H.
  apply bind_Ok in H as (s & Hs & H).
  apply py_div_sign_Ok in Hs as (Hdiff & _ & Hs).
  split; [exact Hdiff |].
  destruct (Qeq_bool (last_diff_sign st) 0) eqn:E0;
    destruct (Qeq_bool s (last_diff_sign st)) eqn:E1; simpl in H.
  - injection H as <-; simpl; split; [exact Hs | right].
    apply Qeq_bool_eq in E0; split; [left; exact E0 |].
    repeat split; destruct diff; simpl; congruence.
  - injection H as <-; simpl; split; [exact Hs | right].
    apply Qeq_bool_eq in E0; split; [left; exact E0 |].
    repeat split; destruct diff; simpl; congruence.
  - injection H as <-; simpl; split; [exact Hs | right].
    apply Qeq_bool_eq in E1; split; [right; rewrite <- Hs; exact E1 |].
    repeat split; destruct diff; simpl; congruence.
  - apply bind_Ok in H as (nd & Hnd & H).
    apply bind_Ok in H as (nv & Hnv & H).
    injection H as <-; simpl; split; [exact Hs | left].
    split; [intros H0; apply Qeq_eq_bool in H0; congruence |].
    split; [intros H1; rewrite <- Hs in H1; apply Qeq_eq_bool in H1; congruence |].
    repeat split; auto.
    destruct volumes; [exact Hnv | injection Hnv as <-; reflexivity].
Qed.

Lemma renko_fold_volume_length (vols nv : list Q) (k : Z) :
  renko_fold_volume vols k = Ok nv -> len vols = len nv + 1.
Proof.
  unfold renko_fold_volume; intros H.
  apply bind_Ok in H as (l1 & H1 & H).
  apply py_pop_length in H.
  assert (len l1 = len vols); [| lia].
  destruct (k =? len vols - 1);
    apply bind_Ok in H1 as (a & _ & H1); apply bind_Ok in H1 as (b & _ & H1);
    eapply py_setitem_length; exact H1.
Qed.

(** The reversal-penalty loop keeps bricks, dates and volumes aligned with
    the cursor. *)
Lemma renko_penalty_loop_aligned (vs : list Q) (cd : list Z) :
  Forall is_unit cd ->
  forall st st',
    for_each (renko_penalty_body (Some vs)) st cd = Ok st' ->
    len (bricks st) = dates_volumes_index st ->
    len (rp_new_dates st) = dates_volumes_index st + len cd ->
    len (rp_new_volumes st) = dates_volumes_index st + len cd ->
    len (bricks st') = dates_volumes_index st' /\
    len (rp_new_dates st') = dates_volumes_index st' /\
    len (rp_new_volumes st') = dates_volumes_index st'.
Proof.
  induction 1 as [| diff cd Hdiff Hcd IH]; intros st st' Hrun Hb Hd Hv; simpl in Hrun.
  - injection Hrun as <-; unfold len in *; simpl in *; lia.
  - apply bind_Ok in Hrun as (s1 & Hstep & Hrun).
    assert (Hlen : len (diff :: cd) = len cd + 1) by (unfold len; simpl length; lia).
    rewrite Hlen in Hd, Hv.
    apply renko_penalty_body_step in Hstep
      as (_ & _ & [(_ & _ & Eb & Ei & Ed & Ev) | (_ & Eb & Ei & Ed & Ev)]).
    + apply py_pop_length in Ed; apply renko_fold_volume_length in Ev.
      apply (IH s1 st' Hrun); rewrite ?Eb, ?Ei; lia.
    + apply (IH s1 st' Hrun); rewrite ?Eb, ?Ei, ?Ed, ?Ev; try lia.
      rewrite len_app, len_py_repeat by lia.
      destruct Hdiff as [-> | ->]; simpl; lia.
Qed.

Lemma renko_brick_values_length (size curr_price : Q) (bs : list Z) :
  len (renko_brick_values size curr_price bs) = len bs.
Proof.
  revert curr_price; induction bs as [| b bs IH]; intros curr_price; [reflexivity |].
  unfold len in *; simpl; specialize (IH (curr_price + size * inject_Z b)%Q); lia.
Qed.

(** C10. Whenever the Renko aggregation, given volumes, returns, its
    bricks, resampled dates, resampled volumes and brick values all have
    the same length. *)
Theorem renko_outputs_aligned :
  forall (dates highs lows vs : list Q) (config : renko_params) (closes : list Q)
         (out : renko_output),
    _construct_renko_collections dates highs lows (Some vs) config closes = Ok out ->
    len (ro_dates out) = len (ro_bricks out) /\
    len (ro_volumes out) = len (ro_bricks out) /\
    len (ro_values out) = len (ro_bricks out).
Proof.
  intros dates highs lows vs config closes out H.
  unfold _construct_renko_collections in H.
  apply bind_Ok in H as (size & _ & H).
  apply bind_Ok in H as (ex & Hex & H).
  apply bind_Ok in H as (c0 & _ & H).
  apply bind_Ok in H as (pe & Hpe & H).
  injection H as <-; simpl.
  unfold renko_extract_pass, renko_extract_upto in Hex.
  apply bind_Ok in Hex as (c0' & _ & Hex).
  apply renko_extract_aligned in Hex as (Hd & Hv & Hu);
    [| simpl; repeat split; constructor].
  unfold renko_penalty_pass in Hpe.
  apply (renko_penalty_loop_aligned vs _ Hu) in Hpe as (Eb & Ed & Ev).
  - rewrite renko_brick_values_length; lia.
  - reflexivity.
  - unfold renko_penalty_init; cbn [rp_new_dates dates_volumes_index]; lia.
  - unfold renko_penalty_init; cbn [rp_new_volumes dates_volumes_index]; lia.
Qed.

Lemma renko_outputs_aligned_witness :
  exists out,
    _construct_renko_collections reversal_dates reversal_closes reversal_closes
      (Some [1; 2; 4; 8; 16; 32]%Q) (Build_renko_params (SizeNum 10) (LengthInt 14))
      reversal_closes = Ok out /\
    len (ro_dates out) = len (ro_bricks out) /\
    len (ro_volumes out) = len (ro_bricks out) /\
    len (ro_values out) = len (ro_bricks out).
Proof.
  eexists; split; [vm_compute; reflexivity |].
  apply (renko_outputs_aligned reversal_dates reversal_closes reversal_closes
           [1; 2; 4; 8; 16; 32]%Q (Build_renko_params (SizeNum 10) (LengthInt 14))
           reversal_closes).
  vm_compute; reflexivity.
Defined.

(** ** Point and figure: one iteration of the reversal-threshold loop *)

Lemma py_index_last_inv {A : Type} (l : list A) (x : A) :
  py_index l (-1) = Ok x -> exists pre, l = pre ++ [x].
Proof.
  intros H; apply py_index_split in H as (pre & post & -> & _ & Hneg).
  specialize (Hneg ltac:(lia)); rewrite len_app in Hneg.
  unfold len in Hneg; simpl length in Hneg.
  destruct post; [exists pre; reflexivity | simpl in Hneg; lia].
Qed.

(** An iteration adds [adjusted_boxes[i]] to [rolling_change] and
    [temp_volumes[i]] to [volume_cache]; below the threshold nothing else
    changes but [biggest_difference]; at or above it the pending count is
    merged into the last column (same sign) or appended as a new column,
    and the three accumulators are reset. *)
Lemma pnf_merge_body_step (rev : Z) (adjusted : list Z) (temp_volumes temp_dates : list Q)
    (st st' : pnf_merge) (i : Z) :
  pnf_merge_body rev adjusted temp_volumes temp_dates st i = Ok st' ->
  exists (a : Z) (tv : Q) (pre : list Z) (last : Z),
    py_index adjusted i = Ok a /\
    py_index temp_volumes i = Ok tv /\
    boxes st = pre ++ [last] /\
    let rolling := rolling_change st + a in
    let cache := (volume_cache st + tv)%Q in
    (Z.abs rolling < rev /\
     boxes st' = boxes st /\ new_volumes st' = new_volumes st /\
     new_dates st' = new_dates st /\
     rolling_change st' = rolling /\ volume_cache st' = cache /\
     biggest_difference st'
     = (if (rolling * last >? 0) && (Z.abs rolling >? Z.abs (biggest_difference st))
        then rolling else biggest_difference st)) \/
    (rev <= Z.abs rolling /\ rolling * last > 0 /\
     boxes st' = pre ++ [last + rolling] /\
     (exists vpre lastv, new_volumes st = vpre ++ [lastv] /\
                         new_volumes st' = vpre ++ [(lastv + cache)%Q]) /\
     new_dates st' = new_dates st /\
     rolling_change st' = 0 /\ volume_cache st' = 0%Q /\ biggest_difference st' = 0) \/
    (rev <= Z.abs rolling /\ rolling * last <= 0 /\
     boxes st' = boxes st ++ [rolling] /\
     new_volumes st' = new_volumes st ++ [cache] /\
     (exists td, py_index temp_dates i = Ok td /\
                 new_dates st' = new_dates st ++ [td]) /\
     rolling_change st' = 0 /\ volume_cache st' = 0%Q /\ biggest_difference st' = 0).
Proof.
  intros H; unfold pnf_merge_body in H.
  apply bind_Ok in H as (a & Ha & H).
  apply bind_Ok in H as (tv & Htv & H).
  apply bind_Ok in H as (last & Hlast & H).
  destruct (py_index_last_inv _ _ Hlast) as (pre & Hpre).
  exists a, tv, pre, last; repeat (split; [assumption |]); cbv zeta.
  destruct (Z.abs (rolling_change st + a) >=? rev) eqn:Erev.
  - rewrite Z.geb_leb in Erev; apply Z.leb_le in Erev.
    destruct ((rolling_change st + a) * last >? 0) eqn:Esame.
    + right; left.
      apply bind_Ok in H as (bs & Hbs & H).
      apply bind_Ok in H as (lastv & Hlastv & H).
      apply bind_Ok in H as (vs & Hvs & H).
      injection H as <-; simpl.
      destruct (py_index_last_inv _ _ Hlastv) as (vpre & Hvpre).
      rewrite Hpre, py_setitem_last in Hbs; injection Hbs as <-.
      rewrite Hvpre, py_setitem_last in Hvs; injection Hvs as <-.
      apply Z.gtb_lt in Esame.
      repeat split; try lia.
      exists vpre, lastv; rewrite Hvpre; auto.
    + right; right.
      apply bind_Ok in H as (td & Htd & H).
      injection H as <-; simpl.
      rewrite Z.gtb_ltb in Esame; apply Z.ltb_ge in Esame.
      repeat split; try lia.
      exists td; auto.
  - left; rewrite Z.geb_leb in Erev; apply Z.leb_gt in Erev.
    injection H as <-; simpl; repeat split; lia.
Qed.

(** C4. In the reversal-threshold loop a column is flushed (merged into the
    last column on sign agreement, appended otherwise) exactly when
    [|rolling_change| >= reversal]; below the threshold the columns are
    left alone and the count stays pending.  With [reversal = 3] and
    adjusted deltas 1, 1, 1 after the first column, the first two
    iterations leave the columns alone (pending 1, then 2) and the third
    flushes them once: merged into a rising column, appended to a falling
    one. *)
Theorem pnf_flush_at_reversal_threshold :
  (forall rev adjusted temp_volumes temp_dates st i st',
      pnf_merge_body rev adjusted temp_volumes temp_dates st i = Ok st' ->
      exists a pre last,
        py_index adjusted i = Ok a /\ boxes st = pre ++ [last] /\
        let rolling := rolling_change st + a in
        (Z.abs rolling < rev ->
         boxes st' = boxes st /\ new_volumes st' = new_volumes st /\
         rolling_change st' = rolling) /\
        (rev <= Z.abs rolling ->
         rolling_change st' = 0 /\
         (rolling * last > 0 -> boxes st' = pre ++ [last + rolling]) /\
         (rolling * last <= 0 -> boxes st' = boxes st ++ [rolling]))) /\
  (forall (b0 : Z) (tv td : list Q),
      len tv = 4 -> len td = 4 ->
      exists s1 s2 s3,
        pnf_merge_upto 2 3 [b0; 1; 1; 1] tv td = Ok s1 /\
        pnf_merge_upto 3 3 [b0; 1; 1; 1] tv td = Ok s2 /\
        pnf_merge_upto 4 3 [b0; 1; 1; 1] tv td = Ok s3 /\
        boxes s1 = [b0] /\ rolling_change s1 = 1 /\
        boxes s2 = [b0] /\ rolling_change s2 = 2 /\
        rolling_change s3 = 0 /\
        boxes s3 = (if 3 * b0 >? 0 then [b0 + 3] else [b0; 3])).
Proof.
  split.
  - intros rev adjusted temp_volumes temp_dates st i st' H.
    apply pnf_merge_body_step in H
      as (a & tv & pre & last & Ha & _ & Hpre & Hcases); cbv zeta in Hcases.
    exists a, pre, last; repeat (split; [assumption |]); cbv zeta.
    destruct Hcases as [(Hlt & Hb & Hv & _ & Hr & _)
                       | [(Hge & Hs & Hb & _ & _ & Hr & _)
                         | (Hge & Hs & Hb & _ & _ & Hr & _)]].
    + split; [auto | lia].
    + split; [lia |]; intros _; repeat split; [exact Hr | auto | lia].
    + split; [lia |]; intros _; repeat split; [exact Hr | lia | auto].
  - intros b0 tv td Htv Htd.
    destruct tv as [| v0 [| v1 [| v2 [| v3 [| ? ?]]]]]; try discriminate Htv;
      try (unfold len in Htv; simpl in Htv; lia).
    destruct td as [| d0 [| d1 [| d2 [| d3 [| ? ?]]]]]; try discriminate Htd;
      try (unfold len in Htd; simpl in Htd; lia).
    destruct b0 as [| p | p]; do 3 eexists;
      (split; [lazy; reflexivity |]); (split; [lazy; reflexivity |]);
      (split; [lazy; reflexivity |]); repeat split; reflexivity.
Qed.

Lemma pnf_flush_at_reversal_threshold_witness :
  exists s1 s2 s3,
    pnf_merge_upto 2 3 [5; 1; 1; 1] [1; 1; 1; 1]%Q [1; 2; 3; 4]%Q = Ok s1 /\
    pnf_merge_upto 3 3 [5; 1; 1; 1] [1; 1; 1; 1]%Q [1; 2; 3; 4]%Q = Ok s2 /\
    pnf_merge_upto 4 3 [5; 1; 1; 1] [1; 1; 1; 1]%Q [1; 2; 3; 4]%Q = Ok s3 /\
    boxes s1 = [5] /\ rolling_change s1 = 1 /\
    boxes s2 = [5] /\ rolling_change s2 = 2 /\
    rolling_change s3 = 0 /\
    boxes s3 = [5 + 3].
Proof.
  exact (proj2 pnf_flush_at_reversal_threshold 5 [1; 1; 1; 1]%Q [1; 2; 3; 4]%Q
           eq_refl eq_refl).
Defined.

(** ** Loops over a range *)

Lemma py_range_empty (a b : Z) : b <= a -> py_range a b = [].
Proof.
  intros H; unfold py_range.
  replace (Z.to_nat (b - a)) with 0%nat by lia; reflexivity.
Qed.

Lemma py_range_cons (a b : Z) : a < b -> py_range a b = a :: py_range (a + 1) b.
Proof.
  intros H; unfold py_range.
  replace (Z.to_nat (b - a)) with (S (Z.to_nat (b - (a + 1)))) by lia.
  cbn [seq map]; f_equal; [lia |].
  rewrite <- seq_shift, map_map; apply map_ext; intros k; lia.
Qed.

Lemma py_range_snoc (a b : Z) : a <= b -> py_range a (b + 1) = py_range a b ++ [b].
Proof.
  intros H; unfold py_range.
  replace (Z.to_nat (b + 1 - a)) with (Z.to_nat (b - a) + 1)%nat by lia.
  rewrite seq_app, map_app; cbn [seq map]; do 2 f_equal; lia.
Qed.

(** An invariant that may mention the loop counter. *)
Lemma for_each_range_invariant {S : Type} (P : Z -> S -> Prop)
    (body : S -> Z -> result S) (b : Z) :
  (forall i s s', i < b -> P i s -> body s i = Ok s' -> P (i + 1) s') ->
  forall a st st',
    a <= b -> P a st -> for_each body st (py_range a b) = Ok st' -> P b st'.
Proof.
  intros Hstep a st st' Hab.
  remember (Z.to_nat (b - a)) as n eqn:Hn.
  revert a st Hab Hn; induction n as [| n IH]; intros a st Hab Hn HP Hrun.
  - assert (a = b) by lia; subst a.
    rewrite py_range_empty in Hrun by lia; injection Hrun as <-; exact HP.
  - rewrite py_range_cons in Hrun by lia; simpl in Hrun.
    apply bind_Ok in Hrun as (s1 & Hb & Hrun).
    apply (IH (a + 1) s1); [lia | lia | | exact Hrun].
    apply (Hstep a st s1); [lia | exact HP | exact Hb].
Qed.

(** ** Point and figure: columns alternate in sign *)

(** Every count is nonzero and neighbours have opposite signs. *)
Fixpoint alternating (l : list Z) : Prop :=
  match l with
  | [] => True
  | x :: l' =>
      x <> 0 /\
      match l' with
      | [] => True
      | y :: _ => x * y < 0
      end /\
      alternating l'
  end.

Lemma sign_opposite_same (p x y : Z) : p * x < 0 -> x * y > 0 -> p * y < 0.
Proof. intros H1 H2; destruct p, x, y; simpl in *; lia. Qed.

Lemma alternating_last_nonzero (pre : list Z) (x : Z) :
  alternating (pre ++ [x]) -> x <> 0.
Proof.
  induction pre as [| p pre IH]; simpl; [tauto |].
  intros (_ & _ & H); exact (IH H).
Qed.

Lemma alternating_replace_last (pre : list Z) (x y : Z) :
  alternating (pre ++ [x]) -> x * y > 0 -> alternating (pre ++ [y]).
Proof.
  intros H Hxy; induction pre as [| p pre IH]; simpl in *.
  - repeat split; auto; lia.
  - destruct H as (Hp & Hn & H); specialize (IH H).
    repeat split; auto.
    destruct pre as [| q pre]; simpl in *; [| exact Hn].
    eapply sign_opposite_same; eassumption.
Qed.

Lemma alternating_append (pre : list Z) (x y : Z) :
  alternating (pre ++ [x]) -> x * y < 0 -> alternating (pre ++ [x; y]).
Proof.
  intros H Hxy; induction pre as [| p pre IH]; simpl in *.
  - repeat split; try tauto; lia.
  - destruct H as (Hp & Hn & H); specialize (IH H).
    repeat split; auto.
    destruct pre as [| q pre]; simpl in *; exact Hn.
Qed.

Lemma list_last_eq {A : Type} (l1 l2 : list A) (x y : A) :
  l1 ++ [x] = l2 ++ [y] -> l1 = l2 /\ x = y.
Proof. intros H; apply app_inj_tail in H; exact H. Qed.

(** The loop invariant behind C9: the columns alternate and
    [biggest_difference] is zero or has the sign of the last column. *)
Definition merge_columns_ok (st : pnf_merge) : Prop :=
  alternating (boxes st) /\
  forall pre last, boxes st = pre ++ [last] ->
                   biggest_difference st = 0 \/ biggest_difference st * last > 0.

Lemma pnf_merge_body_columns_ok (rev : Z) (adjusted : list Z)
    (temp_volumes temp_dates : list Q) (st st' : pnf_merge) (i : Z) :
  1 <= rev ->
  merge_columns_ok st ->
  pnf_merge_body rev adjusted temp_volumes temp_dates st i = Ok st' ->
  merge_columns_ok st'.
Proof.
  intros Hrev (Halt & Hbig) H.
  apply pnf_merge_body_step in H as (a & tv & pre & last & _ & _ & Hpre & Hcases).
  cbv zeta in Hcases; specialize (Hbig pre last Hpre).
  destruct Hcases as [(_ & Hb & _ & _ & _ & _ & Hbd)
                     | [(_ & Hs & Hb & _ & _ & _ & _ & Hbd)
                       | (Hge & Hs & Hb & _ & _ & _ & _ & Hbd)]];
    unfold merge_columns_ok; rewrite Hb.
  - split; [exact Halt |].
    intros pre' last' E; rewrite Hpre in E; apply list_last_eq in E as [_ <-].
    rewrite Hbd.
    destruct ((rolling_change st + a) * last >? 0) eqn:E1; simpl; [| exact Hbig].
    destruct (Z.abs (rolling_change st + a) >? Z.abs (biggest_difference st));
      [| exact Hbig].
    right; apply Z.gtb_lt in E1; lia.
  - rewrite Hpre in Halt; split.
    + apply (alternating_replace_last pre last); [exact Halt |].
      pose proof (alternating_last_nonzero _ _ Halt).
      destruct last, (rolling_change st + a); simpl in *; lia.
    + intros; left; exact Hbd.
  - rewrite Hpre in Halt |- *; split.
    + rewrite <- app_assoc; simpl; apply alternating_append; [exact Halt |].
      pose proof (alternating_last_nonzero _ _ Halt).
      destruct last, (rolling_change st + a); simpl in *; lia.
    + intros; left; exact Hbd.
Qed.

Lemma pnf_merge_pass_alternating (rev : Z) (adjusted : list Z)
    (temp_volumes temp_dates : list Q) (a0 : Z) (out : pnf_merge) :
  1 <= rev ->
  py_index adjusted 0 = Ok a0 -> a0 <> 0 ->
  pnf_merge_pass rev adjusted temp_volumes temp_dates = Ok out ->
  alternating (boxes out).
Proof.
  intros Hrev Ha0 Hnz H; unfold pnf_merge_pass, pnf_merge_upto in H.
  apply bind_Ok in H as (st & Hst & H).
  apply bind_Ok in Hst as (st0 & Hinit & Hloop).
  unfold pnf_merge_init in Hinit; rewrite Ha0 in Hinit; simpl in Hinit.
  apply bind_Ok in Hinit as (v0 & _ & Hinit).
  apply bind_Ok in Hinit as (d0 & _ & Hinit); injection Hinit as <-.
  assert (Hok : merge_columns_ok st).
  { revert Hloop; apply for_each_invariant with (P := merge_columns_ok).
    - intros s i s' HP Hb; eapply pnf_merge_body_columns_ok; eassumption.
    - split; simpl; [tauto | intros; left; reflexivity]. }
  destruct Hok as (Halt & Hbig).
  unfold pnf_merge_finish in H.
  apply bind_Ok in H as (last & Hlast & H).
  destruct (py_index_last_inv _ _ Hlast) as (pre & Hpre).
  apply bind_Ok in H as (bs & Hbs & H).
  apply bind_Ok in H as (lastv & _ & H).
  apply bind_Ok in H as (vs & _ & H).
  injection H as <-; simpl.
  rewrite Hpre, py_setitem_last in Hbs; injection Hbs as <-.
  rewrite Hpre in Halt.
  apply (alternating_replace_last pre last); [exact Halt |].
  pose proof (alternating_last_nonzero _ _ Halt).
  destruct (Hbig pre last Hpre) as [-> | Hs];
    destruct last, (biggest_difference st); simpl in *; lia.
Qed.

(** ** [combine_adjacent] *)

Fixpoint ascending (lo : Z) (l : list Z) : Prop :=
  match l with
  | [] => True
  | x :: l' => lo <= x /\ ascending x l'
  end.

(** What [combine_adjacent] promises about its two results: as many
    indexes as sums, no zero sum, and indexes that start at 0 and never
    decrease. *)
Definition combined_ok (output indexes : list Z) : Prop :=
  len output = len indexes /\
  Forall (fun x => x <> 0) output /\
  ascending 0 indexes /\
  match indexes with
  | [] => True
  | i0 :: _ => i0 = 0
  end.

Lemma ascending_snoc (lo : Z) (l : list Z) (x y : Z) :
  ascending lo (l ++ [x]) -> x <= y -> ascending lo ((l ++ [x]) ++ [y]).
Proof.
  revert lo; induction l as [| z l IH]; intros lo H Hxy; simpl in *.
  - repeat split; try tauto; lia.
  - destruct H as [Hz H]; split; [exact Hz | apply IH; assumption].
Qed.

Lemma ascending_weaken (lo lo' : Z) (l : list Z) :
  lo' <= lo -> ascending lo l -> ascending lo' l.
Proof. destruct l; simpl; [tauto | intros ? [? ?]; split; [lia | assumption]]. Qed.

Lemma run_length_spec (curr_sign : Q) (arr : list Z) (index : Z) :
  run_length curr_sign arr = Ok index ->
  0 <= index <= len arr /\
  Forall (fun x => x <> 0 /\ inject_Z (Z.sgn x) == curr_sign)
         (firstn (Z.to_nat index) arr).
Proof.
  revert index; induction arr as [| x arr IH]; intros index H;
    cbn [run_length] in H.
  - injection H as <-; unfold len; simpl; split; [lia | constructor].
  - apply bind_Ok in H as (s & Hs & H).
    apply py_div_sign_Ok in Hs as (Hx & _ & Hs).
    destruct (Qeq_bool s curr_sign) eqn:E.
    + apply bind_Ok in H as (n & Hn & H); injection H as <-.
      destruct (IH n Hn) as [Hrange Hall].
      unfold len in *; cbn [length]; split; [lia |].
      replace (Z.to_nat (n + 1)) with (S (Z.to_nat n)) by lia.
      cbn [firstn]; constructor; [| exact Hall].
      split; [exact Hx |].
      apply Qeq_bool_eq in E; rewrite <- Hs; exact E.
    + injection H as <-; unfold len; simpl; split; [lia | constructor].
Qed.

Lemma run_length_positive (a0 : Z) (arr : list Z) (s : Q) (index : Z) :
  py_div (inject_Z a0) (inject_Z (Z.abs a0)) = Ok s ->
  run_length s (a0 :: arr) = Ok index -> 1 <= index.
Proof.
  intros Hs H; cbn [run_length] in H; rewrite Hs in H; cbn [bind] in H.
  rewrite Qeq_bool_true in H by reflexivity.
  apply bind_Ok in H as (n & Hn & H); injection H as <-.
  apply run_length_spec in Hn; lia.
Qed.

Lemma sum_same_sign (sigma : Z) (l : list Z) :
  sigma <> 0 -> l <> [] ->
  Forall (fun x => Z.sgn x = sigma) l -> Z.sgn (py_sumZ l) = sigma.
Proof.
  intros Hs Hne Hall; induction Hall as [| x l Hx Hall IH]; [contradiction |].
  change (x :: l) with ([x] ++ l); rewrite py_sumZ_app.
  destruct l as [| y l].
  - unfold py_sumZ; simpl; rewrite Z.add_0_r; exact Hx.
  - specialize (IH ltac:(discriminate)).
    unfold py_sumZ at 1; simpl fold_left; lia.
Qed.

Lemma py_slice_prefix {A : Type} (l : list A) (n : Z) :
  0 <= n -> py_slice l 0 n = firstn (Z.to_nat n) l.
Proof.
  intros Hn; unfold py_slice, py_clamp.
  replace (n <? 0) with false by (symmetry; apply Z.ltb_ge; lia).
  replace (0 <? 0) with false by reflexivity.
  replace (Z.min 0 (len l)) with 0 by (pose proof (len_nonneg l); lia).
  cbn [Z.to_nat skipn].
  destruct (Z.min_spec n (len l)) as [[Hlt ->] | [Hge ->]]; [reflexivity |].
  unfold len in *; rewrite Nat2Z.id, firstn_all, firstn_all2 by lia; reflexivity.
Qed.

Lemma combine_adjacent_loop_ok (budget : nat) :
  forall (arr : list Z) (curr_i : Z) (output indexes out_o out_i : list Z),
    combine_adjacent_loop budget arr curr_i output indexes = Ok (out_o, out_i) ->
    len output = len indexes ->
    Forall (fun x => x <> 0) output ->
    ascending 0 (indexes ++ [curr_i]) ->
    match indexes with [] => curr_i = 0 | i0 :: _ => i0 = 0 end ->
    combined_ok out_o out_i.
Proof.
  induction budget as [| budget IH]; intros arr curr_i output indexes out_o out_i
    H Hlen Hnz Hasc Hhd.
  - destruct arr; simpl in H; [| discriminate].
    injection H as <- <-; unfold combined_ok; repeat split; auto.
    + clear -Hasc. revert Hasc; generalize 0; induction indexes as [| i l IH];
        intros lo; simpl; [tauto |].
      intros [? ?]; split; [assumption | apply IH; assumption].
    + destruct indexes; auto.
  - destruct arr as [| a0 arr].
    + simpl in H; injection H as <- <-; unfold combined_ok; repeat split; auto.
      * clear -Hasc. revert Hasc; generalize 0; induction indexes as [| i l IH];
          intros lo; simpl; [tauto |].
        intros [? ?]; split; [assumption | apply IH; assumption].
      * destruct indexes; auto.
    + cbn [combine_adjacent_loop] in H.
      apply bind_Ok in H as (s & Hs & H).
      apply bind_Ok in H as (n & Hrun & H).
      pose proof (run_length_spec _ _ _ Hrun) as [Hrange Hall].
      pose proof (run_length_positive _ _ _ _ Hs Hrun) as Hpos.
      pose proof (py_div_sign_Ok _ _ Hs) as (Ha0 & _ & Hsgn).
      apply IH in H; [exact H | | | |].
      * rewrite !len_app; unfold len in *; simpl; lia.
      * apply Forall_app; split; [exact Hnz |]; constructor; [| constructor].
        rewrite py_slice_prefix by lia.
        assert (Z.sgn (py_sumZ (firstn (Z.to_nat n) (a0 :: arr))) = Z.sgn a0).
        { apply sum_same_sign; [lia | |].
          - replace (Z.to_nat n) with (S (Z.to_nat (n - 1))) by lia; discriminate.
          - eapply Forall_impl; [| exact Hall]; simpl; intros x [_ Hx].
            rewrite Hsgn in Hx; exact (proj1 (inject_Z_injective _ _) Hx). }
        lia.
      * apply ascending_snoc; [exact Hasc | lia].
      * destruct indexes; simpl; auto.
Qed.

Lemma combine_adjacent_ok (arr out_o out_i : list Z) :
  combine_adjacent arr = Ok (out_o, out_i) -> combined_ok out_o out_i.
Proof.
  intros H; unfold combine_adjacent in H.
  eapply combine_adjacent_loop_ok; [exact H | | | |];
    simpl; auto; repeat split; lia.
Qed.

(** The iteration budget [len(arr)] is enough: [combine_adjacent] never
    runs out of it. *)
Lemma combine_adjacent_loop_total (budget : nat) :
  forall (arr : list Z) (curr_i : Z) (output indexes : list Z),
    (length arr <= budget)%nat ->
    combine_adjacent_loop budget arr curr_i output indexes <> Stuck.
Proof.
  induction budget as [| budget IH]; intros arr curr_i output indexes Hlen.
  - destruct arr; simpl in *; [discriminate | lia].
  - destruct arr as [| a0 arr]; [simpl; discriminate |].
    cbn [combine_adjacent_loop].
    destruct (py_div (inject_Z a0) (inject_Z (Z.abs a0))) as [s | |] eqn:Hs;
      [| simpl; discriminate |
       unfold py_div in Hs; destruct (Qeq_bool _ _) in Hs; discriminate].
    unfold bind at 1.
    destruct (run_length s (a0 :: arr)) as [n | |] eqn:Hn; unfold bind.
    + apply IH.
      pose proof (run_length_positive _ _ _ _ Hs Hn).
      rewrite length_skipn; cbn [length] in *; lia.
    + discriminate.
    + exfalso; clear -Hn.
      revert Hn; generalize (a0 :: arr); intros l; induction l as [| x l IHl];
        simpl; [discriminate |].
      unfold py_div; destruct (Qeq_bool (inject_Z (Z.abs x)) 0); simpl;
        [discriminate |].
      destruct (Qeq_bool _ s); [| discriminate].
      destruct (run_length s l); simpl; [discriminate | discriminate | auto].
Qed.

Lemma combine_adjacent_total (arr : list Z) : combine_adjacent arr <> Stuck.
Proof. apply combine_adjacent_loop_total; lia. Qed.

(** ** Point and figure: the discount loop *)

(** One iteration of the discount loop: the discounted value is parked
    (zero), appended (sign change) or merged into the last value (same
    sign). *)
Lemma pnf_discount_body_step (bxs : list Z) (nvs nds : list Q)
    (st st' : pnf_discount) (i : Z) :
  pnf_discount_body bxs nvs nds st i = Ok st' ->
  exists (b : Z) (v : Q),
    py_index bxs i = Ok b /\ b <> 0 /\ py_index nvs i = Ok v /\
    let adjusted_value := b - Z.sgn b in
    (adjusted_boxes st' = adjusted_boxes st /\
     pd_temp_volumes st' = pd_temp_volumes st /\
     pd_temp_dates st' = pd_temp_dates st /\
     pd_volume_cache st' = (pd_volume_cache st + v)%Q) \/
    (adjusted_value <> 0 /\
     exists pre last,
       adjusted_boxes st = pre ++ [last] /\ last * adjusted_value < 0 /\
       adjusted_boxes st' = adjusted_boxes st ++ [adjusted_value] /\
       pd_temp_volumes st' = pd_temp_volumes st ++ [(v + pd_volume_cache st)%Q] /\
       pd_volume_cache st' = 0%Q /\
       exists d, pd_temp_dates st' = pd_temp_dates st ++ [d]) \/
    (adjusted_value <> 0 /\
     exists pre last,
       adjusted_boxes st = pre ++ [last] /\ last * adjusted_value > 0 /\
       adjusted_boxes st' = pre ++ [last + adjusted_value] /\
       (exists vpre lastv,
           pd_temp_volumes st = vpre ++ [lastv] /\
           pd_temp_volumes st'
           = vpre ++ [(lastv + (v + pd_volume_cache st))%Q]) /\
       pd_volume_cache st' = 0%Q /\
       pd_temp_dates st' = pd_temp_dates st).
Proof.
  intros H; unfold pnf_discount_body in H.
  apply bind_Ok in H as (b & Hb & H).
  apply bind_Ok in H as (s & Hs & H).
  apply py_div_sign_Ok in Hs as (Hnz & Hs & _); rewrite Hs in H.
  assert (Hparked :
    forall r, (nv <- py_index nvs i ;;
               Ok (Build_pnf_discount (adjusted_boxes st) (pd_temp_volumes st)
                     (pd_temp_dates st) (pd_volume_cache st + nv))) = Ok r ->
              exists v, py_index nvs i = Ok v /\
                adjusted_boxes r = adjusted_boxes st /\
                pd_temp_volumes r = pd_temp_volumes st /\
                pd_temp_dates r = pd_temp_dates st /\
                pd_volume_cache r = (pd_volume_cache st + v)%Q).
  { intros r Hr; apply bind_Ok in Hr as (v & Hv & Hr); injection Hr as <-.
    exists v; simpl; auto. }
  destruct (b - Z.sgn b =? 0) eqn:E0.
  - apply Hparked in H as (v & Hv & Hres).
    exists b, v; repeat (split; [assumption |]); left; exact Hres.
  - apply Z.eqb_neq in E0.
    apply bind_Ok in H as (last & Hlast & H).
    destruct (py_index_last_inv _ _ Hlast) as (pre & Hpre).
    destruct (last * (b - Z.sgn b) <? 0) eqn:E1.
    + apply Z.ltb_lt in E1.
      apply bind_Ok in H as (v & Hv & H).
      apply bind_Ok in H as (d & _ & H); injection H as <-.
      exists b, v; repeat (split; [assumption |]); right; left.
      split; [exact E0 |]; exists pre, last; simpl; repeat split; auto.
      exists d; reflexivity.
    + destruct (last * (b - Z.sgn b) >? 0) eqn:E2.
      * apply Z.gtb_lt in E2.
        apply bind_Ok in H as (ab & Hab & H).
        apply bind_Ok in H as (lastv & Hlastv & H).
        apply bind_Ok in H as (v & Hv & H).
        apply bind_Ok in H as (tv & Htv & H); injection H as <-.
        destruct (py_index_last_inv _ _ Hlastv) as (vpre & Hvpre).
        rewrite Hpre, py_setitem_last in Hab; injection Hab as <-.
        rewrite Hvpre, py_setitem_last in Htv; injection Htv as <-.
        exists b, v; repeat (split; [assumption |]); right; right.
        split; [exact E0 |]; exists pre, last; simpl; repeat split; auto; try lia.
        exists vpre, lastv; auto.
      * apply Hparked in H as (v & Hv & Hres).
        exists b, v; repeat (split; [assumption |]); left; exact Hres.
Qed.

(** The discounted values are never zero and stay aligned with their
    volumes. *)
Definition discount_ok (st : pnf_discount) : Prop :=
  adjusted_boxes st <> [] /\
  Forall (fun x => x <> 0) (adjusted_boxes st) /\
  len (pd_temp_volumes st) = len (adjusted_boxes st).

Lemma pnf_discount_body_ok (bxs : list Z) (nvs nds : list Q)
    (st st' : pnf_discount) (i : Z) :
  discount_ok st -> pnf_discount_body bxs nvs nds st i = Ok st' -> discount_ok st'.
Proof.
  intros (Hne & Hnz & Hlen) H.
  apply pnf_discount_body_step in H as (b & v & _ & Hb & _ & Hcases).
  cbv zeta in Hcases; unfold discount_ok.
  destruct Hcases as [(Ea & Ev & _ & _)
                     | [(Hadj & pre & last & Epre & Hs & Ea & Ev & _)
                       | (Hadj & pre & last & Epre & Hs & Ea & (vpre & lastv & Evp & Ev) & _)]];
    rewrite Ea, Ev.
  - auto.
  - repeat split.
    + intros E; apply app_eq_nil in E as [_ E]; discriminate.
    + apply Forall_app; split; [exact Hnz | repeat constructor; exact Hadj].
    + rewrite !len_app, Hlen; reflexivity.
  - rewrite Epre in Hnz, Hlen; rewrite Evp in Hlen.
    apply Forall_app in Hnz as [Hpre Hlast].
    repeat split.
    + intros E; apply app_eq_nil in E as [_ E]; discriminate.
    + apply Forall_app; split; [exact Hpre | repeat constructor].
      assert (last <> 0) by (inversion Hlast; assumption).
      destruct last, (b - Z.sgn b); simpl in *; lia.
    + rewrite !len_app in *; exact Hlen.
Qed.

Lemma pnf_discount_pass_ok (bxs : list Z) (nvs nds : list Q) (di : pnf_discount) :
  Forall (fun x => x <> 0) bxs ->
  pnf_discount_pass bxs nvs nds = Ok di ->
  discount_ok di /\
  exists a0, py_index (adjusted_boxes di) 0 = Ok a0 /\ a0 <> 0.
Proof.
  intros Hbxs H; unfold pnf_discount_pass in H.
  apply bind_Ok in H as (b0 & Hb0 & H).
  apply bind_Ok in H as (v0 & _ & H).
  apply bind_Ok in H as (d0 & _ & H).
  assert (Hok : discount_ok di).
  { revert H; apply for_each_invariant with (P := discount_ok).
    - intros s i s' HP Hb; eapply pnf_discount_body_ok; eassumption.
    - repeat split; simpl; [discriminate |].
      constructor; [| constructor].
      apply py_index_split in Hb0 as (pre & post & -> & _).
      apply Forall_app in Hbxs as [_ Hbxs]; inversion Hbxs; assumption. }
  split; [exact Hok |].
  destruct Hok as (Hne & Hnz & _).
  destruct (adjusted_boxes di) as [| a0 rest]; [contradiction |].
  exists a0; split; [reflexivity | inversion Hnz; assumption].
Qed.

(** C9. Whenever the point-and-figure aggregation returns, every column
    count is nonzero and consecutive column counts have opposite signs. *)
Theorem pnf_columns_alternate :
  forall (dates highs lows : list Q) (volumes : option (list Q))
         (config : pnf_params) (closes : list Q) (out : pnf_output),
    _construct_pointnfig_collections dates highs lows volumes config closes = Ok out ->
    alternating (po_boxes out).
Proof.
  intros dates highs lows volumes config closes out H.
  unfold _construct_pointnfig_collections in H.
  apply bind_Ok in H as (size & _ & H).
  destruct ((reversal config <? 1) || (reversal config >? 9)) eqn:Erev;
    [discriminate |].
  apply orb_false_elim in Erev as [Erev _]; apply Z.ltb_ge in Erev.
  apply bind_Ok in H as (ex & _ & H).
  apply bind_Ok in H as ([out_o out_i] & Hcomb & H).
  apply bind_Ok in H as (vd & _ & H).
  apply bind_Ok in H as (di & Hdi & H).
  apply bind_Ok in H as (me & Hme & H).
  apply bind_Ok in H as (c0 & _ & H).
  apply bind_Ok in H as (bv & _ & H).
  injection H as <-; simpl.
  apply combine_adjacent_ok in Hcomb as (_ & Hnz & _).
  apply pnf_discount_pass_ok in Hdi as (_ & a0 & Ha0 & Hnz0); [| exact Hnz].
  eapply pnf_merge_pass_alternating; eassumption.
Qed.

Lemma pnf_columns_alternate_witness :
  exists out,
    _construct_pointnfig_collections reversal_dates reversal_closes reversal_closes
      (Some [1; 2; 4; 8; 16; 32]%Q)
      (Build_pnf_params (SizeNum 5) (LengthInt 14) 1) reversal_closes = Ok out /\
    po_boxes out = [4; -4] /\
    alternating (po_boxes out).
Proof.
  eexists; split; [vm_compute; reflexivity |]; split; [reflexivity |].
  apply (pnf_columns_alternate reversal_dates reversal_closes reversal_closes
           (Some [1; 2; 4; 8; 16; 32]%Q)
           (Build_pnf_params (SizeNum 5) (LengthInt 14) 1) reversal_closes).
  vm_compute; reflexivity.
Defined.

(** ** Point and figure: what is pending since the last flush *)

(** The successive values of a running total started at [acc]. *)
Fixpoint running_sums (acc : Z) (xs : list Z) : list Z :=
  match xs with
  | [] => []
  | x :: xs' => (acc + x) :: running_sums (acc + x) xs'
  end.

(** [b] is the largest, in magnitude, of the values of [sums] that have the
    sign of [last]; it is [0] when no value has that sign. *)
Definition largest_matching (last : Z) (sums : list Z) (b : Z) : Prop :=
  (b = 0 /\ forall r, In r sums -> r * last <= 0) \/
  (In b sums /\ b * last > 0 /\
   forall r, In r sums -> r * last > 0 -> Z.abs r <= Z.abs b).

Lemma running_sums_snoc (acc : Z) (xs : list Z) (a : Z) :
  running_sums acc (xs ++ [a]) = running_sums acc xs ++ [acc + py_sumZ xs + a].
Proof.
  revert acc; induction xs as [| x xs IH]; intros acc; simpl.
  - unfold py_sumZ; simpl; do 2 f_equal; lia.
  - rewrite IH; do 3 f_equal.
    change (x :: xs) with ([x] ++ xs); rewrite py_sumZ_app.
    unfold py_sumZ at 2; simpl; lia.
Qed.

Lemma firstn_exact {A : Type} (l1 l2 : list A) : firstn (length l1) (l1 ++ l2) = l1.
Proof. induction l1 as [| x l1 IH]; simpl; [destruct l2 |]; congruence. Qed.

Lemma py_clamp_inside {A : Type} (l : list A) (i : Z) :
  0 <= i <= len l -> py_clamp l i = Z.to_nat i.
Proof.
  intros Hi; unfold py_clamp.
  replace (i <? 0) with false by (symmetry; apply Z.ltb_ge; lia).
  f_equal; lia.
Qed.

Lemma py_slice_nil {A : Type} (l : list A) (m : Z) : py_slice l m m = [].
Proof.
  unfold py_slice; apply skipn_all2; rewrite length_firstn; lia.
Qed.

Lemma py_slice_snoc {A : Type} (l : list A) (m0 m : Z) (a : A) :
  0 <= m0 <= m -> py_index l m = Ok a ->
  py_slice l m0 (m + 1) = py_slice l m0 m ++ [a].
Proof.
  intros Hm Ha.
  apply py_index_split in Ha as (pre & post & -> & Hlen & _).
  specialize (Hlen ltac:(lia)).
  assert (Hl : len (pre ++ a :: post) = m + 1 + len post).
  { rewrite len_app; unfold len in *; cbn [length]; lia. }
  pose proof (len_nonneg post) as Hpost.
  unfold py_slice; rewrite !py_clamp_inside by lia.
  replace (Z.to_nat (m + 1)) with (length (pre ++ [a]))
    by (rewrite length_app; unfold len in Hlen; simpl; lia).
  replace (pre ++ a :: post) with ((pre ++ [a]) ++ post)
    by (rewrite <- app_assoc; reflexivity).
  rewrite firstn_exact.
  replace (Z.to_nat m) with (length pre) by (unfold len in Hlen; lia).
  rewrite <- app_assoc, firstn_exact.
  rewrite skipn_app.
  replace (Z.to_nat m0 - length pre)%nat with 0%nat by (unfold len in Hlen; lia).
  reflexivity.
Qed.

Lemma pnf_merge_upto_snoc (rev : Z) (adjusted : list Z) (tv td : list Q)
    (m : Z) (st st' : pnf_merge) :
  1 <= m ->
  pnf_merge_upto m rev adjusted tv td = Ok st ->
  pnf_merge_body rev adjusted tv td st m = Ok st' ->
  pnf_merge_upto (m + 1) rev adjusted tv td = Ok st'.
Proof.
  intros Hm Hst Hb; unfold pnf_merge_upto in *.
  destruct (pnf_merge_init adjusted tv td) as [st0 | |]; simpl in *; try discriminate.
  rewrite py_range_snoc by lia.
  rewrite for_each_app, Hst; simpl; rewrite Hb; reflexivity.
Qed.

(** The loop invariant behind C5, after the iterations [1 .. m-1]. *)
Definition pending_ok (rev : Z) (adjusted : list Z) (tv td : list Q)
    (m : Z) (st : pnf_merge) : Prop :=
  pnf_merge_upto m rev adjusted tv td = Ok st /\
  exists (m0 : Z) (st0 : pnf_merge),
    1 <= m0 <= m /\
    pnf_merge_upto m0 rev adjusted tv td = Ok st0 /\
    rolling_change st0 = 0 /\ biggest_difference st0 = 0 /\
    boxes st0 = boxes st /\
    (m0 = 1 \/
     exists sp a,
       pnf_merge_upto (m0 - 1) rev adjusted tv td = Ok sp /\
       py_index adjusted (m0 - 1) = Ok a /\
       rev <= Z.abs (rolling_change sp + a)) /\
    rolling_change st = py_sumZ (py_slice adjusted m0 m) /\
    (forall r, In r (running_sums 0 (py_slice adjusted m0 m)) -> Z.abs r < rev) /\
    (forall pre last,
        boxes st = pre ++ [last] ->
        largest_matching last (running_sums 0 (py_slice adjusted m0 m))
          (biggest_difference st)).

Lemma largest_matching_step (last : Z) (sums : list Z) (b r : Z) :
  largest_matching last sums b ->
  largest_matching last (sums ++ [r])
    (if (r * last >? 0) && (Z.abs r >? Z.abs b) then r else b).
Proof.
  intros HLM; unfold largest_matching in *.
  destruct (r * last >? 0) eqn:E1; simpl.
  - apply Z.gtb_lt in E1.
    destruct (Z.abs r >? Z.abs b) eqn:E2.
    + apply Z.gtb_lt in E2; right.
      split; [apply in_or_app; right; left; reflexivity |].
      split; [lia |].
      intros x Hx Hpos; apply in_app_or in Hx as [Hx | [<- | []]]; [| lia].
      destruct HLM as [[_ Hnone] | (_ & _ & Hmax)];
        [specialize (Hnone x Hx); lia | specialize (Hmax x Hx Hpos); lia].
    + rewrite Z.gtb_ltb in E2; apply Z.ltb_ge in E2.
      destruct HLM as [[-> Hnone] | (Hin & Hpos & Hmax)].
      * exfalso; destruct r; simpl in *; lia.
      * right; split; [apply in_or_app; left; exact Hin |].
        split; [exact Hpos |].
        intros x Hx Hxpos; apply in_app_or in Hx as [Hx | [<- | []]];
          [apply Hmax; assumption | lia].
  - rewrite Z.gtb_ltb in E1; apply Z.ltb_ge in E1.
    destruct HLM as [[-> Hnone] | (Hin & Hpos & Hmax)].
    + left; split; [reflexivity |].
      intros x Hx; apply in_app_or in Hx as [Hx | [<- | []]]; [auto | lia].
    + right; split; [apply in_or_app; left; exact Hin |].
      split; [exact Hpos |].
      intros x Hx Hxpos; apply in_app_or in Hx as [Hx | [<- | []]];
        [apply Hmax; assumption | lia].
Qed.

Lemma pending_ok_step (rev : Z) (adjusted : list Z) (tv td : list Q)
    (m : Z) (st st' : pnf_merge) :
  pending_ok rev adjusted tv td m st ->
  pnf_merge_body rev adjusted tv td st m = Ok st' ->
  pending_ok rev adjusted tv td (m + 1) st'.
Proof.
  intros (Hupto & m0 & st0 & Hm0 & Hst0 & Hr0 & Hb0 & Hbx & Hflush & Hroll & Hlt & HLM)
         Hbody.
  assert (Hupto' : pnf_merge_upto (m + 1) rev adjusted tv td = Ok st')
    by (eapply pnf_merge_upto_snoc; [lia | eassumption | eassumption]).
  split; [exact Hupto' |].
  apply pnf_merge_body_step in Hbody
    as (a & v & pre & last & Ha & _ & Hpre & Hcases); cbv zeta in Hcases.
  assert (Hflushed :
    rev <= Z.abs (rolling_change st + a) ->
    rolling_change st' = 0 -> biggest_difference st' = 0 ->
    exists (m1 : Z) (st1 : pnf_merge),
      1 <= m1 <= m + 1 /\
      pnf_merge_upto m1 rev adjusted tv td = Ok st1 /\
      rolling_change st1 = 0 /\ biggest_difference st1 = 0 /\
      boxes st1 = boxes st' /\
      (m1 = 1 \/
       exists sp a,
         pnf_merge_upto (m1 - 1) rev adjusted tv td = Ok sp /\
         py_index adjusted (m1 - 1) = Ok a /\
         rev <= Z.abs (rolling_change sp + a)) /\
      rolling_change st' = py_sumZ (py_slice adjusted m1 (m + 1)) /\
      (forall r, In r (running_sums 0 (py_slice adjusted m1 (m + 1))) ->
                 Z.abs r < rev) /\
      (forall pre last,
          boxes st' = pre ++ [last] ->
          largest_matching last (running_sums 0 (py_slice adjusted m1 (m + 1)))
            (biggest_difference st'))).
  { intros Hge Hr Hb; exists (m + 1), st'.
    rewrite py_slice_nil, Hr, Hb; simpl.
    repeat split; auto; try lia.
    - right; exists st, a; replace (m + 1 - 1) with m by lia; auto.
    - intros; left; split; [reflexivity | intros r []]. }
  destruct Hcases as [(Hsmall & Eb & _ & _ & Er & _ & Ebig)
                     | [(Hge & _ & _ & _ & _ & Er & _ & Ebig)
                       | (Hge & _ & _ & _ & _ & Er & _ & Ebig)]];
    [| apply Hflushed; assumption | apply Hflushed; assumption].
  exists m0, st0.
  rewrite (py_slice_snoc adjusted m0 m a ltac:(lia) Ha).
  rewrite running_sums_snoc, py_sumZ_app, Eb, Er, Ebig, <- Hroll.
  repeat split; auto; try lia.
  - intros r Hr; apply in_app_or in Hr as [Hr | [<- | []]]; [auto | lia].
  - intros pre' last' E; rewrite Hpre in E; apply list_last_eq in E as [_ <-].
    replace (0 + rolling_change st + a) with (rolling_change st + a) by lia.
    apply largest_matching_step, (HLM pre last Hpre).
Qed.

Lemma pnf_merge_upto_pending (rev : Z) (adjusted : list Z) (tv td : list Q)
    (st : pnf_merge) :
  pnf_merge_upto (len adjusted) rev adjusted tv td = Ok st ->
  pending_ok rev adjusted tv td (len adjusted) st.
Proof.
  intros H; unfold pnf_merge_upto in H.
  apply bind_Ok in H as (st0 & Hinit & Hloop).
  assert (Hlen : 1 <= len adjusted).
  { unfold pnf_merge_init in Hinit; apply bind_Ok in Hinit as (a0 & Ha0 & _).
    apply py_index_split in Ha0 as (pre & post & -> & _).
    rewrite len_app; unfold len; cbn [length]; lia. }
  revert Hloop.
  apply (for_each_range_invariant (pending_ok rev adjusted tv td)); [| exact Hlen |].
  - intros i s s' _ HP Hb; eapply pending_ok_step; eassumption.
  - assert (Hupto1 : pnf_merge_upto 1 rev adjusted tv td = Ok st0).
    { unfold pnf_merge_upto; rewrite Hinit; reflexivity. }
    split; [exact Hupto1 |].
    exists 1, st0; rewrite py_slice_nil.
    unfold pnf_merge_init in Hinit.
    apply bind_Ok in Hinit as (a0 & _ & Hinit).
    apply bind_Ok in Hinit as (v0 & _ & Hinit).
    apply bind_Ok in Hinit as (d0 & _ & Hinit); injection Hinit as <-; simpl.
    repeat split; auto; try lia.
    intros; left; split; [reflexivity | intros r []].
Qed.

(** C5. After the reversal-threshold loop, the last column's count is
    increased by [biggest_difference] and its volume by the leftover
    [volume_cache].  [biggest_difference] is the largest, in magnitude, of
    the values [rolling_change] took since the last flush (or since the
    start) that had the sign of the last column, and [0] when none had:
    a pending remainder that never matched the last column's sign adds no
    count to any column. *)
Theorem pnf_final_column_correction :
  forall (rev : Z) (adjusted : list Z) (tv td : list Q) (st out : pnf_merge),
    pnf_merge_upto (len adjusted) rev adjusted tv td = Ok st ->
    pnf_merge_finish st = Ok out ->
    exists (pre : list Z) (last : Z) (vpre : list Q) (lastv : Q),
      boxes st = pre ++ [last] /\
      boxes out = pre ++ [last + biggest_difference st] /\
      new_volumes st = vpre ++ [lastv] /\
      new_volumes out = vpre ++ [(lastv + volume_cache st)%Q] /\
      new_dates out = new_dates st /\
      exists (m0 : Z) (st0 : pnf_merge),
        1 <= m0 <= len adjusted /\
        pnf_merge_upto m0 rev adjusted tv td = Ok st0 /\
        rolling_change st0 = 0 /\ biggest_difference st0 = 0 /\
        boxes st0 = boxes st /\
        (m0 = 1 \/
         exists sp a,
           pnf_merge_upto (m0 - 1) rev adjusted tv td = Ok sp /\
           py_index adjusted (m0 - 1) = Ok a /\
           rev <= Z.abs (rolling_change sp + a)) /\
        let sums := running_sums 0 (py_slice adjusted m0 (len adjusted)) in
        (forall r, In r sums -> Z.abs r < rev) /\
        largest_matching last sums (biggest_difference st) /\
        ((forall r, In r sums -> r * last <= 0) -> boxes out = boxes st).
Proof.
  intros rev adjusted tv td st out Hupto Hfin.
  apply pnf_merge_upto_pending in Hupto
    as (_ & m0 & st0 & Hm0 & Hst0 & Hr0 & Hb0 & Hbx & Hflush & _ & Hlt & HLM).
  unfold pnf_merge_finish in Hfin.
  apply bind_Ok in Hfin as (last & Hlast & Hfin).
  destruct (py_index_last_inv _ _ Hlast) as (pre & Hpre).
  apply bind_Ok in Hfin as (bs & Hbs & Hfin).
  apply bind_Ok in Hfin as (lastv & Hlastv & Hfin).
  destruct (py_index_last_inv _ _ Hlastv) as (vpre & Hvpre).
  apply bind_Ok in Hfin as (vs & Hvs & Hfin).
  injection Hfin as <-; simpl.
  rewrite Hpre, py_setitem_last in Hbs; injection Hbs as <-.
  rewrite Hvpre, py_setitem_last in Hvs; injection Hvs as <-.
  exists pre, last, vpre, lastv; repeat (split; [auto |]).
  specialize (HLM pre last Hpre).
  exists m0, st0.
  split; [exact Hm0 |]; split; [exact Hst0 |]; split; [exact Hr0 |].
  split; [exact Hb0 |]; split; [exact Hbx |]; split; [exact Hflush |].
  cbv zeta; split; [exact Hlt |]; split; [exact HLM |].
  intros Hnone; rewrite Hpre.
  destruct HLM as [[-> _] | (Hin & Hpos & _)];
    [rewrite Z.add_0_r; reflexivity | specialize (Hnone _ Hin); lia].
Qed.

Lemma pnf_final_column_correction_witness :
  exists (pre : list Z) (last : Z),
    [5] = pre ++ [last] /\
    exists out, pnf_merge_finish (Build_pnf_merge [5] [1 + 0]%Q [1]%Q 0 (0 + 2 + 4)%Q 2)
                = Ok out /\
                boxes out = pre ++ [last + 2].
Proof.
  destruct (pnf_final_column_correction 3 [5; 2; -4] [1; 2; 4]%Q [1; 2; 3]%Q
              (Build_pnf_merge [5] [1]%Q [1]%Q (-2) (0 + 2 + 4)%Q 2)
              (Build_pnf_merge [5 + 2] [(1 + (0 + 2 + 4))%Q] [1]%Q (-2) (0 + 2 + 4)%Q 2)
              eq_refl eq_refl)
    as (pre & last & vpre & lastv & Hpre & Hout & _).
  exists pre, last; split; [exact Hpre |].
  eexists; split; [reflexivity |]; exact Hout.
Defined.

(** ** Size validation *)

















Lemma Qltb_false (a b : Q) : Qltb a b = false <-> (b <= a)%Q.
Proof.
  unfold Qltb; rewrite negb_false_iff; apply Qle_bool_iff.
Qed.






(** ** Volume accounting: Renko *)

Lemma Qsum_snoc (l : list Q) (x : Q) : Qsum (l ++ [x]) == Qsum l + x.
Proof. rewrite Qsum_app; simpl; ring. Qed.

Lemma py_sum_Qsum (l : list Q) : py_sum l == Qsum l.
Proof.
  unfold py_sum.
  assert (G : forall acc, fold_left Qplus l acc == acc + Qsum l).
  { induction l as [| x l IH]; intros acc; simpl; [ring |].
    rewrite IH; ring. }
  rewrite G; ring.
Qed.

Lemma renko_fold_volume_sum (vols nv : list Q) (k : Z) :
  1 <= k -> renko_fold_volume vols k = Ok nv -> Qsum nv == Qsum vols.
Proof.
  intros Hk H; pose proof H as H0; unfold renko_fold_volume in H.
  apply bind_Ok in H as (l1 & H1 & _).
  assert (Hb : exists b, py_index vols k = Ok b).
  { destruct (k =? len vols - 1);
      apply bind_Ok in H1 as (a & _ & H1); apply bind_Ok in H1 as (b & Hb & _);
      exists b; exact Hb. }
  destruct Hb as (b & Hb).
  apply py_index_split in Hb as (pre & post & -> & Hlen & _).
  specialize (Hlen ltac:(lia)).
  destruct post as [| w post].
  - destruct (exists_last (l := pre)) as (pre' & u & ->).
    { intros ->; unfold len in Hlen; simpl in Hlen; lia. }
    rewrite <- app_assoc in H0; simpl in H0.
    rewrite len_app in Hlen; unfold len at 2 in Hlen; simpl in Hlen.
    rewrite <- Hlen, renko_fold_volume_previous in H0; injection H0 as <-.
    rewrite !Qsum_app; simpl; ring.
  - rewrite <- Hlen, renko_fold_volume_following in H0; injection H0 as <-.
    rewrite !Qsum_app; simpl; ring.
Qed.

(** The reversal-penalty loop only moves volume between entries. *)
Lemma renko_penalty_pass_volume (vs : list Q) (cd : list Z) (nd nv : list Q)
    (pe : renko_penalty) :
  renko_penalty_pass (Some vs) cd nd nv = Ok pe ->
  Qsum (rp_new_volumes pe) == Qsum nv.
Proof.
  unfold renko_penalty_pass; intros H.
  cut (0 <= dates_volumes_index pe /\
       (~ last_diff_sign pe == 0 -> 1 <= dates_volumes_index pe) /\
       Qsum (rp_new_volumes pe) == Qsum nv); [tauto |].
  revert H; apply for_each_invariant with (P := fun s =>
    0 <= dates_volumes_index s /\
    (~ last_diff_sign s == 0 -> 1 <= dates_volumes_index s) /\
    Qsum (rp_new_volumes s) == Qsum nv).
  - intros s diff s' (Hidx & Hlast & Hsum) Hb.
    apply renko_penalty_body_step in Hb
      as (_ & _ & [(Hnz & _ & _ & Ei & _ & Ev) | (_ & _ & Ei & _ & Ev)]).
    + rewrite Ei; repeat split; auto.
      rewrite <- Hsum; apply (renko_fold_volume_sum _ _ _ (Hlast Hnz) Ev).
    + rewrite Ei, Ev; repeat split; auto; lia.
  - simpl; split; [lia |]; split; [| reflexivity].
    intros Hn; exfalso; apply Hn; reflexivity.
Qed.

(** ** Volume accounting: point and figure *)

Lemma py_slice_all {A : Type} (l : list A) : py_slice l 0 (len l) = l.
Proof.
  rewrite py_slice_prefix by apply len_nonneg.
  unfold len; rewrite Nat2Z.id; apply firstn_all.
Qed.

Lemma py_slice_first {A : Type} (l : list A) (x : A) :
  py_index l 0 = Ok x -> py_slice l 0 1 = [x].
Proof.
  intros H; change 1 with (0 + 1).
  rewrite (py_slice_snoc l 0 0 x ltac:(lia) H), py_slice_nil; reflexivity.
Qed.

(** The reversal-threshold loop and the statements after it only move
    volume between columns. *)
Lemma pnf_merge_pass_volume (rev : Z) (adjusted : list Z) (tv td : list Q)
    (out : pnf_merge) :
  len tv = len adjusted ->
  pnf_merge_pass rev adjusted tv td = Ok out ->
  Qsum (new_volumes out) == Qsum tv.
Proof.
  intros Hlen H; unfold pnf_merge_pass, pnf_merge_upto in H.
  apply bind_Ok in H as (st & Hst & Hfin).
  apply bind_Ok in Hst as (st0 & Hinit & Hloop).
  unfold pnf_merge_init in Hinit.
  apply bind_Ok in Hinit as (a0 & Ha0 & Hinit).
  apply bind_Ok in Hinit as (v0 & Hv0 & Hinit).
  apply bind_Ok in Hinit as (d0 & _ & Hinit); injection Hinit as <-.
  assert (H1 : 1 <= len adjusted).
  { apply py_index_split in Ha0 as (pre & post & -> & _).
    rewrite len_app; unfold len; cbn [length]; lia. }
  assert (Hsum : 1 <= len adjusted /\
                 Qsum (new_volumes st) + volume_cache st
                 == Qsum (py_slice tv 0 (len adjusted))).
  { revert Hloop.
    apply (for_each_range_invariant
             (fun m s => 1 <= m /\
                         Qsum (new_volumes s) + volume_cache s
                         == Qsum (py_slice tv 0 m))); [| exact H1 |].
    - intros i s s' _ [Hi HP] Hb; split; [lia |].
      apply pnf_merge_body_step in Hb
        as (a & v & pre & last & _ & Hv & _ & Hcases); cbv zeta in Hcases.
      rewrite (py_slice_snoc tv 0 i v ltac:(lia) Hv), Qsum_snoc, <- HP.
      destruct Hcases as [(_ & _ & Ev & _ & _ & Ec & _)
                         | [(_ & _ & _ & (vpre & lastv & Evp & Ev) & _ & _ & Ec & _)
                           | (_ & _ & _ & Ev & _ & _ & Ec & _)]];
        rewrite Ev, Ec; [| rewrite Evp |]; rewrite ?Qsum_snoc; ring.
    - simpl; split; [lia |].
      rewrite (py_slice_first tv v0 Hv0); simpl; ring. }
  destruct Hsum as [_ Hsum].
  rewrite <- Hlen, py_slice_all in Hsum.
  unfold pnf_merge_finish in Hfin.
  apply bind_Ok in Hfin as (last & _ & Hfin).
  apply bind_Ok in Hfin as (bs & _ & Hfin).
  apply bind_Ok in Hfin as (lastv & Hlastv & Hfin).
  destruct (py_index_last_inv _ _ Hlastv) as (vpre & Hvpre).
  apply bind_Ok in Hfin as (vs & Hvs & Hfin); injection Hfin as <-; simpl.
  rewrite Hvpre, py_setitem_last in Hvs; injection Hvs as <-.
  rewrite <- Hsum, Hvpre, !Qsum_snoc; ring.
Qed.

(** ** Renko: which units become bricks *)

(** The units that survive the reversal penalty, [last] being the sign of
    the unit before ([0] at the start): a unit is kept when it continues
    the direction of the unit before it. *)
Fixpoint drop_reversals (last : Z) (cd : list Z) : list Z :=
  match cd with
  | [] => []
  | u :: cd' =>
      if (last =? 0) || (u =? last) then u :: drop_reversals u cd'
      else drop_reversals u cd'
  end.

(** The number of places where two neighbouring units differ. *)
Fixpoint sign_changes (cd : list Z) : Z :=
  match cd with
  | [] => 0
  | u :: cd' =>
      match cd' with
      | [] => 0
      | v :: _ => (if u =? v then 0 else 1) + sign_changes cd'
      end
  end.

Lemma renko_extract_units (dates : list Q) (volumes : option (list Q))
    (closes : list Q) (size : Q) (ex : renko_extract) :
  renko_extract_pass dates volumes closes size = Ok ex -> Forall is_unit (cdiff ex).
Proof.
  unfold renko_extract_pass, renko_extract_upto; intros H.
  apply bind_Ok in H as (c0 & _ & H); revert H.
  apply for_each_invariant with (P := fun s => Forall is_unit (cdiff s));
    [| constructor].
  intros s i s' Hu Hb.
  apply renko_extract_body_step in Hb as [(Hc & _) | (bd & d & Hbd & Hc & _)];
    rewrite Hc; [exact Hu |].
  apply Forall_app; split; [exact Hu | apply Forall_unit_repeat; exact Hbd].
Qed.

Lemma renko_penalty_loop_bricks (volumes : option (list Q)) (cd : list Z) :
  Forall is_unit cd ->
  forall (st st' : renko_penalty) (lz : Z),
    last_diff_sign st == inject_Z lz ->
    for_each (renko_penalty_body volumes) st cd = Ok st' ->
    bricks st' = bricks st ++ drop_reversals lz cd.
Proof.
  induction 1 as [| u cd Hu Hcd IH]; intros st st' lz Hlast Hrun; simpl in Hrun.
  - injection Hrun as <-; simpl; rewrite app_nil_r; reflexivity.
  - apply bind_Ok in Hrun as (s1 & Hstep & Hrun).
    assert (Hsgn : Z.sgn u = u) by (destruct Hu as [-> | ->]; reflexivity).
    apply renko_penalty_body_step in Hstep
      as (_ & Hl1 & [(Hnz & Hne & Eb & _) | (Hcond & Eb & _)]);
      rewrite Hsgn in *; rewrite (IH s1 st' u Hl1 Hrun), Eb; simpl.
    + rewrite Hlast in Hnz, Hne.
      replace (lz =? 0) with false.
      2:{ symmetry; apply Z.eqb_neq; intros ->; apply Hnz; reflexivity. }
      replace (u =? lz) with false.
      2:{ symmetry; apply Z.eqb_neq; intros ->; apply Hne; reflexivity. }
      reflexivity.
    + replace ((lz =? 0) || (u =? lz)) with true.
      2:{ symmetry; apply orb_true_iff; rewrite Hlast in Hcond.
          destruct Hcond as [Hc | Hc]; [left | right]; apply Z.eqb_eq;
            exact (proj1 (inject_Z_injective _ _) Hc). }
      rewrite <- app_assoc.
      destruct Hu as [-> | ->]; reflexivity.
Qed.

Lemma drop_reversals_unit (lz : Z) (cd : list Z) :
  Forall is_unit cd -> Forall is_unit (drop_reversals lz cd).
Proof.
  intros H; revert lz; induction H as [| u cd Hu _ IH]; intros lz; simpl;
    [constructor |].
  destruct ((lz =? 0) || (u =? lz)); [constructor; auto | auto].
Qed.

Lemma drop_reversals_count (u : Z) (cd : list Z) :
  is_unit u -> Forall is_unit cd ->
  len (drop_reversals u cd) + sign_changes (u :: cd) = len cd.
Proof.
  intros Hu Hcd; revert u Hu; induction Hcd as [| v cd Hv _ IH]; intros u Hu;
    [reflexivity |].
  change (sign_changes (u :: v :: cd))
    with ((if u =? v then 0 else 1) + sign_changes (v :: cd)).
  change (drop_reversals u (v :: cd))
    with (if (u =? 0) || (v =? u) then v :: drop_reversals v cd
          else drop_reversals v cd).
  replace (u =? 0) with false
    by (symmetry; apply Z.eqb_neq; destruct Hu; lia).
  rewrite (Z.eqb_sym v u); cbn [orb].
  specialize (IH v Hv).
  destruct (u =? v); unfold len in *; cbn [length]; lia.
Qed.

Lemma drop_reversals_count0 (cd : list Z) :
  Forall is_unit cd ->
  len (drop_reversals 0 cd) + sign_changes cd = len cd.
Proof.
  intros Hcd; destruct Hcd as [| u cd Hu Hcd]; [reflexivity |].
  change (drop_reversals 0 (u :: cd)) with (u :: drop_reversals u cd).
  pose proof (drop_reversals_count u cd Hu Hcd).
  unfold len in *; cbn [length]; lia.
Qed.

(** X1. The bricks of the Renko aggregation are the units of delta
    extraction minus one unit at every change of direction: a unit is
    kept exactly when it continues the direction of the unit before it.
    Every brick is [+1] or [-1], and the number of bricks is the number of
    units less the number of direction changes. *)
Theorem renko_bricks_are_units_less_reversals :
  forall (dates highs lows : list Q) (volumes : option (list Q))
         (config : renko_params) (closes : list Q) (out : renko_output),
    _construct_renko_collections dates highs lows volumes config closes = Ok out ->
    exists ex,
      renko_extract_pass dates volumes closes (ro_size out) = Ok ex /\
      ro_bricks out = drop_reversals 0 (cdiff ex) /\
      Forall is_unit (ro_bricks out) /\
      len (ro_bricks out) + sign_changes (cdiff ex) = len (cdiff ex).
Proof.
  intros dates highs lows volumes config closes out H.
  unfold _construct_renko_collections in H.
  apply bind_Ok in H as (size & _ & H).
  apply bind_Ok in H as (ex & Hex & H).
  apply bind_Ok in H as (c0 & _ & H).
  apply bind_Ok in H as (pe & Hpe & H).
  injection H as <-; simpl.
  exists ex; split; [exact Hex |].
  pose proof (renko_extract_units _ _ _ _ _ Hex) as Hu.
  unfold renko_penalty_pass in Hpe.
  apply (renko_penalty_loop_bricks volumes _ Hu _ _ 0) in Hpe; [| reflexivity].
  simpl in Hpe; rewrite Hpe.
  split; [reflexivity |]; split;
    [apply drop_reversals_unit; exact Hu | apply drop_reversals_count0; exact Hu].
Qed.

Lemma renko_bricks_are_units_less_reversals_witness :
  exists ex,
    renko_extract_pass reversal_dates None reversal_closes 10 = Ok ex /\
    [1; 1; -1] = drop_reversals 0 (cdiff ex) /\
    Forall is_unit [1; 1; -1] /\
    len [1; 1; -1] + sign_changes (cdiff ex) = len (cdiff ex).
Proof.
  exact (renko_bricks_are_units_less_reversals reversal_dates reversal_closes
           reversal_closes None (Build_renko_params (SizeNum 10) (LengthInt 14))
           reversal_closes
           (Build_renko_output [1; 1; -1] [1; 2; 5]%Q []
              [100 + 10 * 1; 100 + 10 * 1 + 10 * 1;
               100 + 10 * 1 + 10 * 1 + 10 * inject_Z (-1)]%Q 10)
           eq_refl).
Defined.

(** ** Volume accounting: the discount and extraction loops *)

Lemma pnf_discount_pass_volume (bxs : list Z) (nvs nds : list Q) (di : pnf_discount) :
  len nvs = len bxs ->
  pnf_discount_pass bxs nvs nds = Ok di ->
  Qsum (pd_temp_volumes di) + pd_volume_cache di == Qsum nvs.
Proof.
  intros Hlen H; unfold pnf_discount_pass in H.
  apply bind_Ok in H as (b0 & Hb0 & H).
  apply bind_Ok in H as (v0 & Hv0 & H).
  apply bind_Ok in H as (d0 & _ & H).
  assert (H1 : 1 <= len bxs).
  { apply py_index_split in Hb0 as (pre & post & -> & _).
    rewrite len_app; unfold len; cbn [length]; lia. }
  cut (1 <= len bxs /\
       Qsum (pd_temp_volumes di) + pd_volume_cache di
       == Qsum (py_slice nvs 0 (len bxs))).
  { intros [_ Hsum]; rewrite <- Hlen, py_slice_all in Hsum; exact Hsum. }
  revert H.
  apply (for_each_range_invariant
           (fun m s => 1 <= m /\
                       Qsum (pd_temp_volumes s) + pd_volume_cache s
                       == Qsum (py_slice nvs 0 m))); [| exact H1 |].
  - intros i s s' _ [Hi HP] Hb; split; [lia |].
    apply pnf_discount_body_step in Hb as (b & v & _ & _ & Hv & Hcases).
    cbv zeta in Hcases.
    rewrite (py_slice_snoc nvs 0 i v ltac:(lia) Hv), Qsum_snoc, <- HP.
    destruct Hcases as [(_ & Ev & _ & Ec)
                       | [(_ & pre & last & _ & _ & _ & Ev & Ec & _)
                         | (_ & pre & last & _ & _ & _ & (vpre & lastv & Evp & Ev) & Ec & _)]];
      rewrite Ev, Ec; [| | rewrite Evp]; rewrite ?Qsum_snoc; ring.
  - simpl; split; [lia |].
    rewrite (py_slice_first nvs v0 Hv0); simpl; ring.
Qed.

(** One iteration of the point-and-figure delta extraction. *)
Lemma pnf_extract_body_step (dates : list Q) (volumes : option (list Q))
    (closes : list Q) (size : Q) (st st' : pnf_extract) (i : Z) :
  pnf_extract_body dates volumes closes size st i = Ok st' ->
  exists (c q : Q),
    py_index closes (i + 1) = Ok c /\
    py_div (c - prev_close_box st) size = Ok q /\
    ((int_of q = 0 /\
      px_boxes st' = px_boxes st /\ prev_close_box st' = prev_close_box st /\
      px_temp_dates st' = px_temp_dates st /\
      px_temp_volumes st' = px_temp_volumes st /\
      match volumes with
      | Some vs => exists v, py_index vs i = Ok v /\
                             px_volume_cache st' = (px_volume_cache st + v)%Q
      | None => px_volume_cache st' = px_volume_cache st
      end) \/
     (int_of q <> 0 /\
      px_boxes st' = px_boxes st ++ [int_of q] /\
      prev_close_box st' = (prev_close_box st + inject_Z (int_of q) * size)%Q /\
      (exists d, py_index dates i = Ok d /\
                 px_temp_dates st' = px_temp_dates st ++ [d]) /\
      match volumes with
      | Some vs => exists v, py_index vs i = Ok v /\
                             px_temp_volumes st'
                             = px_temp_volumes st ++ [(v + px_volume_cache st)%Q] /\
                             px_volume_cache st' = 0%Q
      | None => px_temp_volumes st' = px_temp_volumes st /\
                px_volume_cache st' = px_volume_cache st
      end)).
Proof.
  intros H; unfold pnf_extract_body in H.
  apply bind_Ok in H as (c & Hc & H).
  apply bind_Ok in H as (q & Hq & H).
  exists c, q; split; [exact Hc |]; split; [exact Hq |].
  destruct (int_of q =? 0) eqn:E.
  - apply Z.eqb_eq in E; left; split; [exact E |].
    destruct volumes as [vs |].
    + apply bind_Ok in H as (v & Hv & H); injection H as <-; simpl.
      repeat split; auto; exists v; auto.
    + injection H as <-; repeat split; auto.
  - apply Z.eqb_neq in E; right; split; [exact E |].
    apply bind_Ok in H as (vc & Hvc & H).
    apply bind_Ok in H as (d & Hd & H); injection H as <-; simpl.
    split; [reflexivity |]; split; [reflexivity |]; split; [exists d; auto |].
    destruct volumes as [vs |].
    + apply bind_Ok in Hvc as (v & Hv & Hvc); injection Hvc as <-; simpl.
      exists v; auto.
    + injection Hvc as <-; simpl; auto.
Qed.

Lemma pnf_extract_pass_volume (dates vs closes : list Q) (size : Q) (ex : pnf_extract) :
  pnf_extract_pass dates (Some vs) closes size = Ok ex ->
  Qsum (px_temp_volumes ex) + px_volume_cache ex
  == Qsum (py_slice vs 0 (len closes - 1)) /\
  len (px_temp_volumes ex) = len (px_boxes ex).
Proof.
  intros H; unfold pnf_extract_pass in H.
  apply bind_Ok in H as (c0 & Hc0 & H).
  assert (H1 : 0 <= len closes - 1).
  { apply py_index_split in Hc0 as (pre & post & -> & _).
    rewrite len_app; unfold len; cbn [length]; lia. }
  cut (0 <= len closes - 1 /\
       Qsum (px_temp_volumes ex) + px_volume_cache ex
       == Qsum (py_slice vs 0 (len closes - 1)) /\
       len (px_temp_volumes ex) = len (px_boxes ex)); [tauto |].
  revert H.
  apply (for_each_range_invariant
           (fun m s => 0 <= m /\
                       Qsum (px_temp_volumes s) + px_volume_cache s
                       == Qsum (py_slice vs 0 m) /\
                       len (px_temp_volumes s) = len (px_boxes s))); [| exact H1 |].
  - intros i s s' _ (Hi & HP & HL) Hb; split; [lia |].
    apply pnf_extract_body_step in Hb
      as (c & q & _ & _ & [(_ & Eb & _ & _ & Ev & v & Hv & Ec)
                          | (_ & Eb & _ & _ & v & Hv & Ev & Ec)]);
      rewrite (py_slice_snoc vs 0 i v ltac:(lia) Hv), Qsum_snoc, <- HP, Ev, Ec, Eb.
    + split; [ring | exact HL].
    + rewrite Qsum_snoc, !len_app, HL; split; [ring | reflexivity].
  - simpl; split; [lia |]; split; [| reflexivity].
    rewrite py_slice_nil; simpl; ring.
Qed.

(** ** [coalesce_volume_dates] *)

Lemma py_clamp_nonneg {A : Type} (l : list A) (i : Z) :
  0 <= i -> py_clamp l i = Z.to_nat (Z.min i (len l)).
Proof.
  intros Hi; unfold py_clamp.
  replace (i <? 0) with false by (symmetry; apply Z.ltb_ge; lia); reflexivity.
Qed.

(** [l[0:a] + l[a:b]] is [l[0:max(a,b)]] for bounds that are not negative. *)
Lemma py_slice_split {A : Type} (l : list A) (a b : Z) :
  0 <= a -> 0 <= b ->
  py_slice l 0 a ++ py_slice l a b = py_slice l 0 (Z.max a b).
Proof.
  intros Ha Hb; unfold py_slice.
  rewrite (py_clamp_nonneg l 0), (py_clamp_nonneg l a), (py_clamp_nonneg l b),
    (py_clamp_nonneg l (Z.max a b)) by lia.
  pose proof (len_nonneg l) as HL.
  replace (Z.to_nat (Z.min 0 (len l))) with 0%nat by lia; cbn [skipn].
  set (ca := Z.to_nat (Z.min a (len l))).
  set (cb := Z.to_nat (Z.min b (len l))).
  destruct (Nat.le_gt_cases ca cb) as [Hle | Hgt].
  - replace (Z.to_nat (Z.min (Z.max a b) (len l))) with cb by (subst ca cb; lia).
    replace (firstn ca l) with (firstn ca (firstn cb l))
      by (rewrite firstn_firstn; f_equal; lia).
    apply firstn_skipn.
  - replace (Z.to_nat (Z.min (Z.max a b) (len l))) with ca by (subst ca cb; lia).
    rewrite skipn_all2 by (rewrite length_firstn; lia).
    apply app_nil_r.
Qed.

Lemma py_slice_beyond {A : Type} (l : list A) (b : Z) :
  len l <= b -> py_slice l 0 b = l.
Proof.
  intros Hb; pose proof (len_nonneg l).
  rewrite py_slice_prefix by lia.
  apply firstn_all2; unfold len in *; lia.
Qed.

Lemma py_index_nth {A : Type} (l : list A) (m : Z) (x d : A) :
  py_index l m = Ok x -> 0 <= m ->
  nth (Z.to_nat m) l d = x /\ m < len l.
Proof.
  intros H Hm; apply py_index_split in H as (pre & post & -> & Hlen & _).
  specialize (Hlen Hm); split.
  - replace (Z.to_nat m) with (length pre) by (unfold len in Hlen; lia).
    apply nth_middle.
  - rewrite len_app; unfold len in *; cbn [length]; lia.
Qed.

Lemma ascending_nth (l : list Z) :
  forall (lo : Z) (i : nat),
    ascending lo l -> (S i < length l)%nat ->
    lo <= nth i l 0 /\ nth i l 0 <= nth (S i) l 0.
Proof.
  induction l as [| x l IH]; intros lo i Hasc Hi; [simpl in Hi; lia |].
  destruct Hasc as [Hlo Hasc].
  destruct i as [| i].
  - destruct l as [| y l]; [simpl in Hi; lia |].
    destruct Hasc as [Hxy _]; simpl; lia.
  - destruct (IH x i Hasc) as [H1 H2]; [simpl in Hi; lia |].
    change (nth (S i) (x :: l) 0) with (nth i l 0).
    change (nth (S (S i)) (x :: l) 0) with (nth (S i) l 0).
    lia.
Qed.

Lemma ascending_nth_lower (l : list Z) :
  forall (lo : Z) (i : nat),
    ascending lo l -> (i < length l)%nat -> lo <= nth i l 0.
Proof.
  induction l as [| x l IH]; intros lo i Hasc Hi; [simpl in Hi; lia |].
  destruct Hasc as [Hlo Hasc]; destruct i as [| i]; [exact Hlo |].
  specialize (IH x i Hasc ltac:(simpl in Hi; lia)); simpl; lia.
Qed.

(** The loop invariant of [coalesce_volume_dates] after [m] iterations:
    [m] volumes and dates so far, the dates those at the first [m]
    indexes, and the volumes adding up to the input volumes before the
    next index (to all of them at the end). *)
Definition coalesce_ok (in_volumes in_dates : list Q) (indexes : list Z)
    (m : Z) (st : list Q * list Q) : Prop :=
  0 <= m <= len indexes /\
  len (fst st) = m /\
  Forall2 (fun ix d => py_index in_dates ix = Ok d) (py_slice indexes 0 m) (snd st) /\
  (m < len indexes ->
   Qsum (fst st) == Qsum (py_slice in_volumes 0 (nth (Z.to_nat m) indexes 0))) /\
  (m = len indexes -> Qsum (fst st) == Qsum in_volumes).

Lemma coalesce_body_ok (in_volumes in_dates : list Q) (indexes : list Z)
    (i : Z) (st st' : list Q * list Q) :
  ascending 0 indexes ->
  i < len indexes ->
  coalesce_ok in_volumes in_dates indexes i st ->
  coalesce_body in_volumes in_dates indexes st i = Ok st' ->
  coalesce_ok in_volumes in_dates indexes (i + 1) st'.
Proof.
  intros Hasc Hi ([Hi0 _] & Hlen & Hdates & Hsum & _) Hb.
  unfold coalesce_body in Hb.
  apply bind_Ok in Hb as (ix & Hix & Hb).
  apply bind_Ok in Hb as (d & Hd & Hb).
  apply bind_Ok in Hb as (to_sum_to & Hto & Hb).
  apply bind_Ok in Hb as (ix' & Hix' & Hb).
  rewrite Hix in Hix'; injection Hix' as <-.
  injection Hb as <-; cbn [fst snd].
  destruct (py_index_nth indexes i ix 0 Hix Hi0) as [Hnth _].
  assert (Hix0 : 0 <= ix).
  { rewrite <- Hnth; apply (ascending_nth_lower indexes 0); [exact Hasc |].
    unfold len in Hi; lia. }
  specialize (Hsum Hi); rewrite Hnth in Hsum.
  unfold coalesce_ok; cbn [fst snd]; split; [lia |]; split.
  { rewrite len_app, Hlen; reflexivity. }
  split.
  { rewrite (py_slice_snoc indexes 0 i ix ltac:(lia) Hix).
    apply Forall2_app; [exact Hdates | constructor; [exact Hd | constructor]]. }
  rewrite Qsum_snoc, py_sum_Qsum, Hsum, <- Qsum_app.
  destruct (i + 1 <? len indexes) eqn:E.
  - apply Z.ltb_lt in E.
    destruct (py_index_nth indexes (i + 1) to_sum_to 0 Hto ltac:(lia)) as [Hnth' _].
    assert (Hle : ix <= to_sum_to).
    { rewrite <- Hnth, <- Hnth'.
      replace (Z.to_nat (i + 1)) with (S (Z.to_nat i)) by lia.
      apply (ascending_nth indexes 0); [exact Hasc | unfold len in E; lia]. }
    rewrite py_slice_split by lia.
    replace (Z.max ix to_sum_to) with to_sum_to by lia.
    split; [intros _; rewrite Hnth'; reflexivity | intros; lia].
  - apply Z.ltb_ge in E; injection Hto as <-.
    rewrite py_slice_split by (pose proof (len_nonneg in_volumes); lia).
    rewrite py_slice_beyond by lia.
    split; [intros; lia | intros _; reflexivity].
Qed.

Lemma coalesce_volume_dates_spec :
  forall (in_volumes in_dates : list Q) (indexes : list Z) (i0 : Z) (rest : list Z)
         (volumes dates : list Q),
    indexes = i0 :: rest -> i0 = 0 -> ascending 0 indexes ->
    coalesce_volume_dates in_volumes in_dates indexes = Ok (volumes, dates) ->
    len volumes = len indexes /\
    Forall2 (fun ix d => py_index in_dates ix = Ok d) indexes dates /\
    Qsum volumes == Qsum in_volumes.
Proof.
  intros in_volumes in_dates indexes i0 rest volumes dates Hix Hi0 Hasc H.
  unfold coalesce_volume_dates in H.
  assert (Hok : coalesce_ok in_volumes in_dates indexes (len indexes) (volumes, dates)).
  { revert H.
    apply (for_each_range_invariant (coalesce_ok in_volumes in_dates indexes));
      [| apply len_nonneg |].
    - intros i s s' Hi HP Hb; eapply coalesce_body_ok; eassumption.
    - unfold coalesce_ok; cbn [fst snd].
      pose proof (len_nonneg indexes).
      rewrite py_slice_nil; repeat split; try lia; try constructor.
      + intros _; rewrite Hix, Hi0; simpl; rewrite py_slice_nil; reflexivity.
      + intros E; rewrite Hix in E; unfold len in E; simpl in E; lia. }
  destruct Hok as (_ & Hlen & Hdates & _ & Hsum); cbn [fst snd] in *.
  rewrite py_slice_all in Hdates.
  split; [exact Hlen |]; split; [exact Hdates | apply Hsum; reflexivity].
Qed.

(** X2. [coalesce_volume_dates], given indexes that start at 0 and never
    decrease (as [combine_adjacent] returns them), yields one volume and
    one date per index; each date is the input date at its index, and the
    volumes add up to the total of the input volumes. *)
Theorem coalesce_volume_dates_conserves :
  forall (in_volumes in_dates : list Q) (rest : list Z) (volumes dates : list Q),
    ascending 0 rest ->
    coalesce_volume_dates in_volumes in_dates (0 :: rest) = Ok (volumes, dates) ->
    len volumes = len (0 :: rest) /\
    len dates = len (0 :: rest) /\
    Forall2 (fun ix d => py_index in_dates ix = Ok d) (0 :: rest) dates /\
    Qsum volumes == Qsum in_volumes.
Proof.
  intros in_volumes in_dates rest volumes dates Hasc H.
  destruct (coalesce_volume_dates_spec in_volumes in_dates (0 :: rest) 0 rest
              volumes dates eq_refl eq_refl) as (Hlen & Hdates & Hsum).
  - simpl; split; [lia | exact Hasc].
  - exact H.
  - split; [exact Hlen |]; split; [| split; [exact Hdates | exact Hsum]].
    unfold len; rewrite <- (Forall2_length Hdates); reflexivity.
Qed.

Lemma coalesce_volume_dates_conserves_witness :
  len [(0 + 5 + 7); (0 + 11)]%Q = len [0; 2] /\
  len [1; 3]%Q = len [0; 2] /\
  Forall2 (fun ix d => py_index [1; 2; 3]%Q ix = Ok d) [0; 2] [1; 3]%Q /\
  Qsum [(0 + 5 + 7); (0 + 11)]%Q == Qsum [5; 7; 11]%Q.
Proof.
  apply (coalesce_volume_dates_conserves [5; 7; 11]%Q [1; 2; 3]%Q [2]
           [(0 + 5 + 7); (0 + 11)]%Q [1; 3]%Q).
  - simpl; lia.
  - reflexivity.
Defined.

(** ** Volume accounting: the two aggregations *)

(** X3. In the Renko aggregation with volumes, the reversal-penalty pass
    only moves volume between entries: the resampled volumes add up to
    the per-unit volumes that delta extraction produced. *)
Theorem renko_penalty_conserves_volume :
  forall (dates highs lows vs : list Q) (config : renko_params) (closes : list Q)
         (out : renko_output),
    _construct_renko_collections dates highs lows (Some vs) config closes = Ok out ->
    exists ex,
      renko_extract_pass dates (Some vs) closes (ro_size out) = Ok ex /\
      Qsum (ro_volumes out) == Qsum (rx_new_volumes ex).
Proof.
  intros dates highs lows vs config closes out H.
  unfold _construct_renko_collections in H.
  apply bind_Ok in H as (size & _ & H).
  apply bind_Ok in H as (ex & Hex & H).
  apply bind_Ok in H as (c0 & _ & H).
  apply bind_Ok in H as (pe & Hpe & H).
  injection H as <-; simpl.
  exists ex; split; [exact Hex |].
  apply (renko_penalty_pass_volume vs _ _ _ _ Hpe).
Qed.

Lemma renko_penalty_conserves_volume_witness :
  exists out,
    _construct_renko_collections reversal_dates reversal_closes reversal_closes
      (Some [1; 2; 4; 8; 16; 32]%Q) (Build_renko_params (SizeNum 10) (LengthInt 14))
      reversal_closes = Ok out /\
    exists ex,
      renko_extract_pass reversal_dates (Some [1; 2; 4; 8; 16; 32]%Q)
        reversal_closes (ro_size out) = Ok ex /\
      Qsum (ro_volumes out) == Qsum (rx_new_volumes ex).
Proof.
  eexists; split; [vm_compute; reflexivity |].
  apply (renko_penalty_conserves_volume reversal_dates reversal_closes
           reversal_closes [1; 2; 4; 8; 16; 32]%Q
           (Build_renko_params (SizeNum 10) (LengthInt 14)) reversal_closes).
  vm_compute; reflexivity.
Defined.

(** X4. In the point-and-figure aggregation with volumes, the volume of
    every step but the last index is accounted for: the column volumes,
    the volume parked in the carry cache of the discount loop and the
    volume left in the carry cache of delta extraction add up to the
    input volumes [volumes[0 : len(closes)-1]]. *)
Theorem pnf_volume_accounting :
  forall (dates highs lows vs : list Q) (config : pnf_params) (closes : list Q)
         (out : pnf_output),
    _construct_pointnfig_collections dates highs lows (Some vs) config closes
    = Ok out ->
    exists ex out_o out_i vd di,
      pnf_extract_pass dates (Some vs) closes (po_size out) = Ok ex /\
      combine_adjacent (px_boxes ex) = Ok (out_o, out_i) /\
      coalesce_volume_dates (px_temp_volumes ex) (px_temp_dates ex) out_i = Ok vd /\
      pnf_discount_pass out_o (fst vd) (snd vd) = Ok di /\
      Qsum (po_volumes out) + pd_volume_cache di + px_volume_cache ex
      == Qsum (py_slice vs 0 (len closes - 1)).
Proof.
  intros dates highs lows vs config closes out H.
  unfold _construct_pointnfig_collections in H.
  apply bind_Ok in H as (size & _ & H).
  destruct ((reversal config <? 1) || (reversal config >? 9)); [discriminate |].
  apply bind_Ok in H as (ex & Hex & H).
  apply bind_Ok in H as ([out_o out_i] & Hcomb & H).
  apply bind_Ok in H as ([v d] & Hvd & H).
  apply bind_Ok in H as (di & Hdi & H).
  apply bind_Ok in H as (me & Hme & H).
  apply bind_Ok in H as (c0 & _ & H).
  apply bind_Ok in H as (bv & _ & H).
  injection H as <-; cbn [po_volumes po_size fst snd] in *.
  exists ex, out_o, out_i, (v, d), di.
  repeat (split; [assumption |]).
  destruct (pnf_extract_pass_volume _ _ _ _ _ Hex) as [Hsum_ex _].
  pose proof (combine_adjacent_ok _ _ _ Hcomb) as (Hlen_c & Hnz & Hasc & Hhd).
  assert (Hix : exists i0 rest, out_i = i0 :: rest /\ i0 = 0).
  { unfold pnf_discount_pass in Hdi.
    apply bind_Ok in Hdi as (b0 & Hb0 & _).
    apply py_index_split in Hb0 as (pre & post & -> & _).
    destruct out_i as [| i0 rest]; [| exists i0, rest; auto].
    rewrite len_app in Hlen_c; unfold len in Hlen_c; simpl in Hlen_c; lia. }
  destruct Hix as (i0 & rest & Hix & Hi0).
  destruct (coalesce_volume_dates_spec _ _ _ _ _ _ _ Hix Hi0 Hasc Hvd)
    as (Hlen_v & _ & Hsum_v).
  assert (Hlen_vo : len v = len out_o) by lia.
  pose proof (pnf_discount_pass_volume _ _ _ _ Hlen_vo Hdi) as Hsum_di.
  destruct (pnf_discount_pass_ok _ _ _ _ Hnz Hdi) as [(_ & _ & Hlen_di) _].
  pose proof (pnf_merge_pass_volume _ _ _ _ _ Hlen_di Hme) as Hsum_me.
  rewrite Hsum_me, Hsum_di, Hsum_v; exact Hsum_ex.
Qed.

Lemma pnf_volume_accounting_witness :
  exists out,
    _construct_pointnfig_collections reversal_dates reversal_closes reversal_closes
      (Some [1; 2; 4; 8; 16; 32]%Q)
      (Build_pnf_params (SizeNum 5) (LengthInt 14) 1) reversal_closes = Ok out /\
    exists ex out_o out_i vd di,
      pnf_extract_pass reversal_dates (Some [1; 2; 4; 8; 16; 32]%Q) reversal_closes
        (po_size out) = Ok ex /\
      combine_adjacent (px_boxes ex) = Ok (out_o, out_i) /\
      coalesce_volume_dates (px_temp_volumes ex) (px_temp_dates ex) out_i = Ok vd /\
      pnf_discount_pass out_o (fst vd) (snd vd) = Ok di /\
      Qsum (po_volumes out) + pd_volume_cache di + px_volume_cache ex
      == Qsum (py_slice [1; 2; 4; 8; 16; 32]%Q 0 (len reversal_closes - 1)).
Proof.
  eexists; split; [vm_compute; reflexivity |].
  apply (pnf_volume_accounting reversal_dates reversal_closes reversal_closes
           [1; 2; 4; 8; 16; 32]%Q
           (Build_pnf_params (SizeNum 5) (LengthInt 14) 1) reversal_closes).
  vm_compute; reflexivity.
Defined.

(** ** Volume: what the two aggregations conserve *)




(** ** [combine_adjacent]: sums, signs and errors *)

Lemma run_length_stop (s : Q) (arr : list Z) (n : Z) (x : Z) :
  run_length s arr = Ok n ->
  nth_error arr (Z.to_nat n) = Some x ->
  x <> 0 /\ ~ inject_Z (Z.sgn x) == s.
Proof.
  revert n; induction arr as [| y arr IH]; intros n H Hx; cbn [run_length] in H.
  - injection H as <-; discriminate Hx.
  - apply bind_Ok in H as (s' & Hs' & H).
    apply py_div_sign_Ok in Hs' as (Hy & _ & Hs').
    destruct (Qeq_bool s' s) eqn:E.
    + apply bind_Ok in H as (n' & Hn' & H); injection H as <-.
      pose proof (run_length_spec _ _ _ Hn') as [Hr _].
      replace (Z.to_nat (n' + 1)) with (S (Z.to_nat n')) in Hx by lia.
      exact (IH n' Hn' Hx).
    + injection H as <-; simpl in Hx; injection Hx as <-.
      split; [exact Hy |].
      intros Hc; rewrite <- Hs' in Hc; apply Qeq_eq_bool in Hc; congruence.
Qed.

Lemma run_length_nonzero (s : Q) (arr : list Z) :
  Forall (fun x => x <> 0) arr -> exists n, run_length s arr = Ok n.
Proof.
  induction 1 as [| x arr Hx _ IH]; cbn [run_length]; [eexists; reflexivity |].
  rewrite (py_div_sign x Hx); cbn [bind].
  destruct (Qeq_bool _ s); [| eexists; reflexivity].
  destruct IH as (n & ->); eexists; reflexivity.
Qed.

Lemma run_length_raises (s : Q) (arr : list Z) (e : exn) :
  run_length s arr = Raise e -> e = ZeroDivisionError.
Proof.
  induction arr as [| x arr IH]; cbn [run_length]; [discriminate |].
  unfold py_div; destruct (Qeq_bool (inject_Z (Z.abs x)) 0); cbn [bind];
    [intros H; injection H as <-; reflexivity |].
  destruct (Qeq_bool _ s); [| discriminate].
  destruct (run_length s arr) as [n | e' |]; cbn [bind]; try discriminate.
  intros H; injection H as <-; apply IH; reflexivity.
Qed.

Lemma combine_adjacent_loop_raises (budget : nat) :
  forall (arr : list Z) (curr_i : Z) (output indexes : list Z) (e : exn),
    combine_adjacent_loop budget arr curr_i output indexes = Raise e ->
    e = ZeroDivisionError.
Proof.
  induction budget as [| budget IH]; intros arr curr_i output indexes e H;
    destruct arr as [| a0 arr]; cbn [combine_adjacent_loop] in H; try discriminate.
  unfold py_div in H at 1.
  destruct (Qeq_bool (inject_Z (Z.abs a0)) 0); cbn [bind] in H;
    [injection H as <-; reflexivity |].
  destruct (run_length (inject_Z a0 / inject_Z (Z.abs a0)) (a0 :: arr))
    as [n | e' |] eqn:Hn; cbn [bind] in H; try discriminate.
  - exact (IH _ _ _ _ _ H).
  - injection H as <-; exact (run_length_raises _ _ _ Hn).
Qed.

Lemma combine_adjacent_loop_nonzero (budget : nat) :
  forall (arr : list Z) (curr_i : Z) (output indexes : list Z),
    (length arr <= budget)%nat ->
    Forall (fun x => x <> 0) arr ->
    exists r, combine_adjacent_loop budget arr curr_i output indexes = Ok r.
Proof.
  induction budget as [| budget IH]; intros arr curr_i output indexes Hlen Hnz;
    destruct arr as [| a0 arr]; cbn [combine_adjacent_loop];
    try (eexists; reflexivity); [simpl in Hlen; lia |].
  assert (Ha0 : a0 <> 0) by (inversion Hnz; assumption).
  pose proof (py_div_sign a0 Ha0) as Hs; rewrite Hs; cbn [bind].
  destruct (run_length_nonzero (inject_Z a0 / inject_Z (Z.abs a0)) (a0 :: arr) Hnz)
    as (n & Hn).
  rewrite Hn; cbn [bind].
  pose proof (run_length_positive _ _ _ _ Hs Hn).
  apply IH.
  - rewrite length_skipn; cbn [length] in *; lia.
  - rewrite <- (firstn_skipn (Z.to_nat n) (a0 :: arr)) in Hnz.
    apply Forall_app in Hnz as [_ Hnz]; exact Hnz.
Qed.

Lemma py_sumZ_single (x : Z) : py_sumZ [x] = x.
Proof. reflexivity. Qed.

Lemma sgn_opposite (x y : Z) : x <> 0 -> y <> 0 -> Z.sgn y <> Z.sgn x -> x * y < 0.
Proof. intros Hx Hy H; destruct x, y; simpl in *; try lia; congruence. Qed.

Lemma combine_adjacent_loop_sums (budget : nat) :
  forall (arr : list Z) (curr_i : Z) (output indexes out_o out_i : list Z),
    combine_adjacent_loop budget arr curr_i output indexes = Ok (out_o, out_i) ->
    alternating output ->
    (forall pre last x rest,
        output = pre ++ [last] -> arr = x :: rest -> Z.sgn x <> Z.sgn last) ->
    alternating out_o /\
    py_sumZ out_o = py_sumZ output + py_sumZ arr /\
    Forall (fun x => x <> 0) arr.
Proof.
  induction budget as [| budget IH]; intros arr curr_i output indexes out_o out_i
    H Halt Hnext.
  - destruct arr; cbn [combine_adjacent_loop] in H; [| discriminate].
    injection H as <- <-; unfold py_sumZ at 3; simpl.
    repeat split; [exact Halt | lia | constructor].
  - destruct arr as [| a0 arr]; cbn [combine_adjacent_loop] in H.
    { injection H as <- <-; unfold py_sumZ at 3; simpl.
      repeat split; [exact Halt | lia | constructor]. }
    apply bind_Ok in H as (s & Hs & H).
    apply bind_Ok in H as (n & Hrun & H).
    pose proof (run_length_spec _ _ _ Hrun) as [Hrange Hall].
    pose proof (run_length_positive _ _ _ _ Hs Hrun) as Hpos.
    pose proof (py_div_sign_Ok _ _ Hs) as (Ha0 & _ & Hsgn).
    rewrite py_slice_prefix in H by lia.
    set (run := firstn (Z.to_nat n) (a0 :: arr)) in *.
    assert (Hsame : Forall (fun x => Z.sgn x = Z.sgn a0) run).
    { eapply Forall_impl; [| exact Hall]; simpl; intros x [_ Hx].
      rewrite Hsgn in Hx; exact (proj1 (inject_Z_injective _ _) Hx). }
    assert (Hsum : Z.sgn (py_sumZ run) = Z.sgn a0).
    { apply sum_same_sign; [lia | | exact Hsame].
      subst run; replace (Z.to_nat n) with (S (Z.to_nat (n - 1))) by lia;
        discriminate. }
    apply IH in H.
    + destruct H as (Ho & Hs_o & Hrest); split; [exact Ho |]; split.
      * assert (E : py_sumZ (a0 :: arr)
                    = py_sumZ run + py_sumZ (skipn (Z.to_nat n) (a0 :: arr))).
        { rewrite <- py_sumZ_app; subst run; rewrite firstn_skipn; reflexivity. }
        rewrite Hs_o, py_sumZ_app, py_sumZ_single, E; lia.
      * rewrite <- (firstn_skipn (Z.to_nat n) (a0 :: arr)).
        apply Forall_app; split; [| exact Hrest].
        eapply Forall_impl; [| exact Hall]; simpl; tauto.
    + destruct output as [| o1 ot].
      * simpl; repeat split; lia.
      * destruct (exists_last (l := o1 :: ot)) as (pre & last & E); [discriminate |].
        rewrite E in *.
        rewrite <- app_assoc; simpl; apply alternating_append; [exact Halt |].
        apply sgn_opposite; [eapply alternating_last_nonzero; exact Halt | lia |].
        rewrite Hsum; eapply Hnext; reflexivity.
    + intros pre last x rest E Ex.
      apply list_last_eq in E as [_ <-].
      assert (Hx : nth_error (a0 :: arr) (Z.to_nat n) = Some x).
      { rewrite <- (firstn_skipn (Z.to_nat n) (a0 :: arr)), Ex.
        rewrite nth_error_app2 by (rewrite length_firstn; unfold len in Hrange; lia).
        rewrite length_firstn.
        replace (Z.to_nat n - Init.Nat.min (Z.to_nat n) (length (a0 :: arr)))%nat
          with 0%nat by (unfold len in Hrange; lia).
        reflexivity. }
      destruct (run_length_stop _ _ _ _ Hrun Hx) as [_ Hne].
      rewrite Hsum; intros Hc; apply Hne; rewrite Hsgn, Hc; reflexivity.
Qed.

Lemma combine_adjacent_loop_indexes (budget : nat) :
  forall (arr : list Z) (curr_i : Z) (output indexes out_o out_i : list Z),
    combine_adjacent_loop budget arr curr_i output indexes = Ok (out_o, out_i) ->
    match arr with
    | [] => out_i = indexes
    | _ :: _ => exists later, out_i = indexes ++ curr_i :: later
    end.
Proof.
  induction budget as [| budget IH]; intros arr curr_i output indexes out_o out_i H;
    destruct arr as [| a0 arr]; cbn [combine_adjacent_loop] in H;
    try discriminate; try (injection H as _ <-; reflexivity).
  apply bind_Ok in H as (s & _ & H).
  apply bind_Ok in H as (n & _ & H).
  apply IH in H.
  destruct (skipn (Z.to_nat n) (a0 :: arr)) as [| b0 rest].
  - exists []; exact H.
  - destruct H as (later & ->); rewrite <- app_assoc; cbn [app]; eauto.
Qed.

(** X5. [combine_adjacent] on a non-empty list without zeros returns sums
    that are nonzero and alternate in sign, that add up to the sum of the
    list, with one index per sum; the first index is 0 and the indexes
    never decrease.  On the empty list it returns two empty lists, and on a
    list that contains a zero it raises [ZeroDivisionError]. *)
Theorem combine_adjacent_contract :
  forall arr : list Z,
    (Forall (fun x => x <> 0) arr ->
     exists output indexes,
       combine_adjacent arr = Ok (output, indexes) /\
       alternating output /\
       py_sumZ output = py_sumZ arr /\
       len indexes = len output /\
       ascending 0 indexes /\
       match arr with
       | [] => output = [] /\ indexes = []
       | _ :: _ => exists later, indexes = 0 :: later
       end) /\
    (~ Forall (fun x => x <> 0) arr ->
     combine_adjacent arr = Raise ZeroDivisionError).
Proof.
  intros arr; split.
  - intros Hnz.
    destruct (combine_adjacent_loop_nonzero (length arr) arr 0 [] []
                (Nat.le_refl _) Hnz) as ([o ix] & Hrun).
    exists o, ix; split; [exact Hrun |].
    pose proof (combine_adjacent_ok _ _ _ Hrun) as (Hlen & _ & Hasc & _).
    pose proof (combine_adjacent_loop_indexes _ _ _ _ _ _ _ Hrun) as Hix.
    apply combine_adjacent_loop_sums in Hrun as (Halt & Hsum & _).
    + split; [exact Halt |]; split; [exact Hsum |]; split; [auto |].
      split; [exact Hasc |].
      destruct arr as [| a0 arr]; [| exact Hix].
      cbn [app] in Hix; subst ix; split; [| reflexivity].
      destruct o; [reflexivity | unfold len in Hlen; simpl in Hlen; lia].
    + exact I.
    + intros pre last x rest E; destruct pre; discriminate E.
  - intros Hz.
    destruct (combine_adjacent arr) as [[o ix] | e |] eqn:Hrun.
    + exfalso; apply Hz.
      apply combine_adjacent_loop_sums in Hrun as (_ & _ & Hnz); [exact Hnz | exact I |].
      intros pre last x rest E; destruct pre; discriminate E.
    + f_equal; exact (combine_adjacent_loop_raises _ _ _ _ _ _ Hrun).
    + exfalso; exact (combine_adjacent_total arr Hrun).
Qed.

Lemma combine_adjacent_contract_witness :
  (exists output indexes,
      combine_adjacent [-1; -2; 3; -4] = Ok (output, indexes) /\
      alternating output /\
      py_sumZ output = py_sumZ [-1; -2; 3; -4] /\
      len indexes = len output /\
      ascending 0 indexes /\
      exists later, indexes = 0 :: later) /\
  combine_adjacent [1; 0; 2] = Raise ZeroDivisionError.
Proof.
  split.
  - apply (proj1 (combine_adjacent_contract [-1; -2; 3; -4])).
    repeat constructor; discriminate.
  - apply (proj2 (combine_adjacent_contract [1; 0; 2])).
    intros H; inversion H as [| ? ? _ Htl]; inversion Htl as [| ? ? Hzero _].
    apply Hzero; reflexivity.
Defined.

(** ** The resolved size *)

Lemma py_max3_nonneg (a b c : Q) : (0 <= a)%Q -> (0 <= py_max3 a b c)%Q.
Proof.
  intros Ha; unfold py_max3.
  apply Qle_trans with a; [exact Ha |].
  apply Qle_trans with (Qmax a b); apply Q.le_max_l.
Qed.

Lemma calculate_atr_nonneg (atr_length : Z) (highs lows closes : list Q) (atr : Q) :
  _calculate_atr atr_length highs lows closes = Ok atr ->
  (0 <= atr)%Q /\ 1 <= atr_length < len closes.
Proof.
  unfold _calculate_atr; intros H.
  destruct (atr_length <? 1) eqn:E1; [discriminate |].
  destruct (atr_length >=? len closes) eqn:E2; [discriminate |].
  apply Z.ltb_ge in E1; rewrite Z.geb_leb in E2; apply Z.leb_gt in E2.
  split; [| lia].
  apply bind_Ok in H as (acc & Hacc & H).
  assert (Hnn : (0 <= acc)%Q).
  { revert Hacc; apply for_each_invariant with (P := fun a => (0 <= a)%Q);
      [| apply Qle_refl].
    intros a i a' Ha Hb; unfold atr_body in Hb.
    apply bind_Ok in Hb as (h & _ & Hb).
    apply bind_Ok in Hb as (l & _ & Hb).
    apply bind_Ok in Hb as (c & _ & Hb); injection Hb as <-.
    pose proof (py_max3_nonneg (Qabs (h - l)) (Qabs (h - c)) (Qabs (l - c))
                  (Qabs_nonneg _)) as Hm.
    apply (Qplus_le_compat 0 a 0 _ Ha) in Hm.
    rewrite Qplus_0_l in Hm; exact Hm. }
  apply py_div_Ok in H as [_ ->].
  unfold Qdiv; apply Qmult_le_0_compat; [exact Hnn |].
  apply Qinv_le_0_compat; unfold Qle; simpl; lia.
Qed.

Lemma resolved_size_nonnegative_aux :
  forall (cfg : size_cfg) (al : atr_length_cfg) (highs lows closes : list Q) (size : Q),
    resolve_size cfg al highs lows closes = Ok size ->
    (0 <= size)%Q /\ 2 <= len closes.
Proof.
  intros cfg al highs lows closes size H; unfold resolve_size in H.
  destruct cfg as [| v].
  - destruct al as [| n]; apply calculate_atr_nonneg in H; split; try tauto; lia.
  - apply bind_Ok in H as (upper & _ & H).
    apply bind_Ok in H as (lower & Hlower & H).
    destruct (Qltb upper v); [discriminate |].
    destruct (Qltb v lower) eqn:E; [discriminate |].
    injection H as <-; apply Qltb_false in E.
    unfold lower_limit in Hlower.
    apply bind_Ok in Hlower as (atr & Hatr & Hlower); injection Hlower as <-.
    apply calculate_atr_nonneg in Hatr as [Hnn Hlen].
    split; [| lia].
    apply Qle_trans with ((1 # 100) * atr)%Q; [| exact E].
    apply Qmult_le_0_compat; [unfold Qle; simpl; lia | exact Hnn].
Qed.

(** X6. Whatever the configuration, a size that both aggregators accept
    is never negative, and it is only accepted for a series of at least
    two closes; in particular an explicit negative size is always
    refused. *)
Theorem resolved_size_nonnegative :
  forall (al : atr_length_cfg) (highs lows closes : list Q),
    (forall cfg size,
        resolve_size cfg al highs lows closes = Ok size ->
        (0 <= size)%Q /\ 2 <= len closes) /\
    (forall v size,
        (v < 0)%Q ->
        resolve_size (SizeNum v) al highs lows closes <> Ok size).
Proof.
  intros al highs lows closes; split.
  - intros cfg size H; exact (resolved_size_nonnegative_aux _ _ _ _ _ _ H).
  - intros v size Hv H.
    pose proof (resolve_size_explicit _ _ _ _ _ _ H) as E; subst size.
    apply resolved_size_nonnegative_aux in H as [Hnn _].
    apply (Qlt_not_le _ _ Hv Hnn).
Qed.

Lemma resolved_size_nonnegative_witness :
  ((0 <= 10)%Q /\ 2 <= len reversal_closes) /\
  resolve_size (SizeNum (-1)) (LengthInt 14) reversal_closes reversal_closes
    reversal_closes <> Ok (-1)%Q.
Proof.
  split.
  - exact (proj1 (resolved_size_nonnegative (LengthInt 14) reversal_closes
                    reversal_closes reversal_closes) (SizeNum 10) 10%Q eq_refl).
  - apply (proj2 (resolved_size_nonnegative (LengthInt 14) reversal_closes
                    reversal_closes reversal_closes)).
    reflexivity.
Defined.

(** ** Point and figure with [reversal = 1] *)

Lemma alternating_adjacent (l1 l2 : list Z) (x y : Z) :
  alternating (l1 ++ x :: y :: l2) -> x * y < 0.
Proof.
  induction l1 as [| z l1 IH]; simpl.
  - intros (_ & H & _); exact H.
  - intros (_ & _ & H); exact (IH H).
Qed.

Lemma alternating_nonzero (l : list Z) : alternating l -> Forall (fun x => x <> 0) l.
Proof.
  induction l as [| x l IH]; simpl; [constructor |].
  intros (Hx & _ & H); constructor; [exact Hx | exact (IH H)].
Qed.

(** The discounted values alternate in sign and stay aligned with their
    volumes and dates. *)
Definition discount_alternating (st : pnf_discount) : Prop :=
  alternating (adjusted_boxes st) /\
  len (pd_temp_volumes st) = len (adjusted_boxes st) /\
  len (pd_temp_dates st) = len (adjusted_boxes st).

Lemma pnf_discount_pass_alternating (bxs : list Z) (nvs nds : list Q)
    (di : pnf_discount) :
  Forall (fun x => x <> 0) bxs ->
  pnf_discount_pass bxs nvs nds = Ok di ->
  discount_alternating di.
Proof.
  intros Hbxs H; unfold pnf_discount_pass in H.
  apply bind_Ok in H as (b0 & Hb0 & H).
  apply bind_Ok in H as (v0 & _ & H).
  apply bind_Ok in H as (d0 & _ & H).
  revert H; apply for_each_invariant with (P := discount_alternating).
  - intros s i s' (Halt & Hlv & Hld) Hb.
    apply pnf_discount_body_step in Hb as (b & v & _ & Hb & _ & Hcases).
    cbv zeta in Hcases; unfold discount_alternating.
    destruct Hcases as [(Ea & Ev & Ed & _)
      | [(Hadj & pre & last & Epre & Hs & Ea & Ev & _ & d & Ed)
        | (Hadj & pre & last & Epre & Hs & Ea & (vpre & lastv & Evp & Ev) & _ & Ed)]];
      rewrite Ea, Ev, Ed.
    + auto.
    + rewrite !len_app, Hlv, Hld; repeat split; auto.
      rewrite Epre in *; rewrite <- app_assoc; simpl.
      apply alternating_append; assumption.
    + rewrite Epre in Halt, Hlv, Hld; rewrite Evp in Hlv.
      rewrite !len_app in *; repeat split; auto.
      apply (alternating_replace_last pre last); [exact Halt |].
      pose proof (alternating_last_nonzero _ _ Halt).
      destruct last, (b - Z.sgn b); simpl in *; lia.
  - repeat split; simpl; auto.
    apply py_index_split in Hb0 as (pre & post & -> & _).
    apply Forall_app in Hbxs as [_ Hbxs]; inversion Hbxs; assumption.
Qed.

Definition Qeq_list (l1 l2 : list Q) : Prop := Forall2 Qeq l1 l2.

Lemma py_slice_snoc_last {A : Type} (l : list A) (m : Z) (a : A) (pre : list A) (x : A) :
  1 <= m -> py_index l m = Ok a -> py_slice l 0 m = pre ++ [x] ->
  exists post, l = pre ++ x :: a :: post.
Proof.
  intros Hm Ha Hs.
  apply py_index_split in Ha as (pre' & post & -> & Hlen & _).
  specialize (Hlen ltac:(lia)).
  rewrite py_slice_prefix in Hs by lia.
  replace (Z.to_nat m) with (length pre') in Hs by (unfold len in Hlen; lia).
  rewrite firstn_exact in Hs; subst pre'.
  exists post; rewrite <- app_assoc; reflexivity.
Qed.

(** X11. With [reversal = 1] the reversal-threshold pass changes nothing:
    the columns are the discounted values (which alternate in sign), with
    their dates and, up to [==], their volumes. *)
Theorem pnf_reversal_one_keeps_columns :
  forall (bxs : list Z) (nvs nds : list Q) (di : pnf_discount) (out : pnf_merge),
    Forall (fun x => x <> 0) bxs ->
    pnf_discount_pass bxs nvs nds = Ok di ->
    pnf_merge_pass 1 (adjusted_boxes di) (pd_temp_volumes di) (pd_temp_dates di)
    = Ok out ->
    alternating (adjusted_boxes di) /\
    boxes out = adjusted_boxes di /\
    new_dates out = pd_temp_dates di /\
    Qeq_list (new_volumes out) (pd_temp_volumes di).
Proof.
  intros bxs nvs nds di out Hbxs Hdi H.
  destruct (pnf_discount_pass_alternating _ _ _ _ Hbxs Hdi) as (Halt & Hlv & Hld).
  split; [exact Halt |].
  set (adjusted := adjusted_boxes di) in *.
  set (tv := pd_temp_volumes di) in *.
  set (td := pd_temp_dates di) in *.
  unfold pnf_merge_pass, pnf_merge_upto in H.
  apply bind_Ok in H as (st & Hst & Hfin).
  apply bind_Ok in Hst as (st0 & Hinit & Hloop).
  unfold pnf_merge_init in Hinit.
  apply bind_Ok in Hinit as (a0 & Ha0 & Hinit).
  apply bind_Ok in Hinit as (v0 & Hv0 & Hinit).
  apply bind_Ok in Hinit as (d0 & Hd0 & Hinit); injection Hinit as <-.
  assert (H1 : 1 <= len adjusted).
  { apply py_index_split in Ha0 as (pre & post & E & _); rewrite E.
    rewrite len_app; unfold len; cbn [length]; lia. }
  assert (Hinv :
    1 <= len adjusted /\
    boxes st = py_slice adjusted 0 (len adjusted) /\
    new_dates st = py_slice td 0 (len adjusted) /\
    Qeq_list (new_volumes st) (py_slice tv 0 (len adjusted)) /\
    volume_cache st = 0%Q /\ biggest_difference st = 0 /\ rolling_change st = 0).
  { revert Hloop.
    apply (for_each_range_invariant
             (fun m s =>
                1 <= m /\
                boxes s = py_slice adjusted 0 m /\
                new_dates s = py_slice td 0 m /\
                Qeq_list (new_volumes s) (py_slice tv 0 m) /\
                volume_cache s = 0%Q /\ biggest_difference s = 0 /\
                rolling_change s = 0)); [| exact H1 |].
    - intros i s s' _ (Hi & Eb & Ed & Ev & Ec & Ebig & Er) Hb.
      apply pnf_merge_body_step in Hb
        as (a & v & pre & last & Ha & Hv & Hpre & Hcases); cbv zeta in Hcases.
      rewrite Er, Ec in Hcases; rewrite Z.add_0_l in Hcases.
      rewrite Eb in Hpre.
      destruct (py_slice_snoc_last adjusted i a pre last Hi Ha Hpre) as (post & Eadj).
      assert (Hsign : last * a < 0).
      { pose proof Halt as Halt'; rewrite Eadj in Halt'.
        exact (alternating_adjacent _ _ _ _ Halt'). }
      assert (Ha_nz : a <> 0) by (intros ->; lia).
      split; [lia |].
      destruct Hcases as [(Hsmall & _)
                         | [(_ & Hsame & _)
                           | (_ & _ & Eb' & Ev' & (d & Hd & Ed') & Er' & Ec' & Ebig')]];
        [lia | lia |].
      rewrite Eb', Ed', Ev', Er', Ec', Ebig', Eb, Ed.
      rewrite (py_slice_snoc adjusted 0 i a ltac:(lia) Ha).
      rewrite (py_slice_snoc td 0 i d ltac:(lia) Hd).
      rewrite (py_slice_snoc tv 0 i v ltac:(lia) Hv).
      repeat split; auto.
      apply Forall2_app; [exact Ev |].
      constructor; [ring | constructor].
    - cbn [boxes new_dates new_volumes volume_cache biggest_difference
             rolling_change].
      rewrite (py_slice_first adjusted a0 Ha0), (py_slice_first td d0 Hd0),
        (py_slice_first tv v0 Hv0).
      repeat split; auto; [lia |].
      constructor; [reflexivity | constructor]. }
  destruct Hinv as (_ & Eb & Ed & Ev & Ec & Ebig & _).
  rewrite py_slice_all in Eb.
  rewrite <- Hld, py_slice_all in Ed.
  rewrite <- Hlv, py_slice_all in Ev.
  unfold pnf_merge_finish in Hfin.
  apply bind_Ok in Hfin as (last & Hlast & Hfin).
  destruct (py_index_last_inv _ _ Hlast) as (pre & Hpre).
  apply bind_Ok in Hfin as (bs & Hbs & Hfin).
  apply bind_Ok in Hfin as (lastv & Hlastv & Hfin).
  destruct (py_index_last_inv _ _ Hlastv) as (vpre & Hvpre).
  apply bind_Ok in Hfin as (vs & Hvs & Hfin); injection Hfin as <-.
  cbn [boxes new_dates new_volumes].
  rewrite Hpre, py_setitem_last in Hbs; injection Hbs as <-.
  rewrite Hvpre, py_setitem_last in Hvs; injection Hvs as <-.
  rewrite Ebig, Z.add_0_r, <- Hpre, Ec.
  repeat split; auto.
  rewrite Hvpre in Ev; unfold Qeq_list in *.
  destruct (Forall2_app_inv_l _ _ Ev) as (t1 & t2 & Ht1 & Ht2 & Et).
  rewrite Et; apply Forall2_app; [exact Ht1 |].
  inversion Ht2 as [| ? y ? ? Hy Hnil]; subst.
  constructor; [rewrite <- Hy; ring | exact Hnil].
Qed.

Lemma pnf_reversal_one_keeps_columns_witness :
  exists di out,
    pnf_discount_pass [3; -2; 4] [1; 2; 4]%Q [1; 2; 3]%Q = Ok di /\
    pnf_merge_pass 1 (adjusted_boxes di) (pd_temp_volumes di) (pd_temp_dates di)
    = Ok out /\
    boxes out = adjusted_boxes di.
Proof.
  do 2 eexists; split; [vm_compute; reflexivity |];
    split; [vm_compute; reflexivity |].
  refine (proj1 (proj2 (pnf_reversal_one_keeps_columns [3; -2; 4] [1; 2; 4]%Q
            [1; 2; 3]%Q _ _ _ _ _))).
  - repeat constructor; discriminate.
  - vm_compute; reflexivity.
  - vm_compute; reflexivity.
Defined.

(** ** Point and figure: delta extraction *)

(** X12. After the point-and-figure delta extraction every box delta is
    nonzero and there is one date per delta; when volumes are given there
    is one volume per delta, and none otherwise. *)
Theorem pnf_extract_aligned :
  forall (dates : list Q) (volumes : option (list Q)) (closes : list Q)
         (size : Q) (ex : pnf_extract),
    pnf_extract_pass dates volumes closes size = Ok ex ->
    Forall (fun b => b <> 0) (px_boxes ex) /\
    len (px_temp_dates ex) = len (px_boxes ex) /\
    match volumes with
    | Some _ => len (px_temp_volumes ex) = len (px_boxes ex)
    | None => px_temp_volumes ex = []
    end.
Proof.
  intros dates volumes closes size ex H; unfold pnf_extract_pass in H.
  apply bind_Ok in H as (c0 & Hc0 & H).
  revert H; apply for_each_invariant with (P := fun s =>
    Forall (fun b => b <> 0) (px_boxes s) /\
    len (px_temp_dates s) = len (px_boxes s) /\
    match volumes with
    | Some _ => len (px_temp_volumes s) = len (px_boxes s)
    | None => px_temp_volumes s = []
    end).
  - intros s i s' (Hnz & Hd & Hv) Hb.
    apply pnf_extract_body_step in Hb
      as (c & q & _ & _ & [(_ & Eb & Ep & Ed & Ev & _)
                          | (Hq & Eb & Ep & (d & _ & Ed) & Hvol)]).
    + rewrite Eb, Ed, Ev; auto.
    + rewrite Eb, Ed, !len_app, Hd.
      split; [apply Forall_app; split; [exact Hnz | repeat constructor; exact Hq] |].
      split; [reflexivity |].
      destruct volumes as [vs |].
      * destruct Hvol as (v & _ & -> & _); rewrite len_app, Hv; reflexivity.
      * destruct Hvol as [-> _]; exact Hv.
  - cbn; repeat split; try constructor.
    destruct volumes; reflexivity.
Qed.

Lemma pnf_extract_aligned_witness :
  exists ex,
    pnf_extract_pass reversal_dates (Some [7; 8; 9; 10; 11; 12]%Q) reversal_closes 5
      = Ok ex /\
    Forall (fun b => b <> 0) (px_boxes ex) /\
    len (px_temp_dates ex) = len (px_boxes ex) /\
    len (px_temp_volumes ex) = len (px_boxes ex).
Proof.
  eexists; split; [vm_compute; reflexivity |].
  apply (pnf_extract_aligned reversal_dates (Some [7; 8; 9; 10; 11; 12]%Q)
           reversal_closes 5).
  vm_compute; reflexivity.
Defined.

(** ** Price levels *)

Lemma len_py_range (a b : Z) : a <= b -> len (py_range a b) = b - a.
Proof. intros H; unfold len, py_range; rewrite length_map, length_seq; lia. Qed.

(** X14. In the point-and-figure output every column of [box_values] holds
    exactly as many price levels as the magnitude of its box count. *)
Theorem pnf_values_match_counts :
  forall (dates highs lows : list Q) (volumes : option (list Q))
         (config : pnf_params) (closes : list Q) (out : pnf_output),
    _construct_pointnfig_collections dates highs lows volumes config closes = Ok out ->
    Forall2 (fun b column => len column = Z.abs b) (po_boxes out) (po_values out).
Proof.
  intros dates highs lows volumes config closes out H.
  unfold _construct_pointnfig_collections in H.
  apply bind_Ok in H as (size & _ & H).
  destruct ((reversal config <? 1) || (reversal config >? 9)); [discriminate |].
  apply bind_Ok in H as (ex & _ & H).
  apply bind_Ok in H as (comb & _ & H).
  apply bind_Ok in H as (vd & _ & H).
  apply bind_Ok in H as (di & _ & H).
  apply bind_Ok in H as (me & _ & H).
  apply bind_Ok in H as (c0 & _ & H).
  apply bind_Ok in H as (bv & Hbv & H).
  injection H as <-; cbn [po_boxes po_values].
  assert (G : forall bs st st',
             for_each (pnf_values_body size) st bs = Ok st' ->
             exists cols, snd st' = snd st ++ cols /\
                          Forall2 (fun b column => len column = Z.abs b) bs cols).
  { induction bs as [| b bs IH]; intros st st' Hrun; cbn [for_each] in Hrun.
    - injection Hrun as <-; exists []; rewrite app_nil_r; split; [reflexivity | constructor].
    - apply bind_Ok in Hrun as (s1 & Hb & Hrun).
      unfold pnf_values_body in Hb.
      apply bind_Ok in Hb as (sign & _ & Hb); injection Hb as <-.
      destruct (IH _ _ Hrun) as (cols & Ecols & Hcols); cbn [snd fst] in Ecols.
      eexists; split; [rewrite Ecols, <- app_assoc; reflexivity |].
      constructor; [| exact Hcols].
      unfold pnf_column, len; rewrite length_map.
      fold (len (py_range (if Qltb 0 sign then 0 else 1)
                   (Z.abs b + (if Qltb 0 sign then 0 else 1)))).
      rewrite len_py_range; lia. }
  destruct (G _ _ _ Hbv) as (cols & Ecols & Hcols).
  cbn [snd app] in Ecols; rewrite Ecols; exact Hcols.
Qed.

Lemma pnf_values_match_counts_witness :
  exists out,
    _construct_pointnfig_collections reversal_dates reversal_closes reversal_closes
      None (Build_pnf_params (SizeNum 5) (LengthInt 14) 1) reversal_closes = Ok out /\
    Forall2 (fun b column => len column = Z.abs b) (po_boxes out) (po_values out).
Proof.
  eexists; split; [vm_compute; reflexivity |].
  apply (pnf_values_match_counts reversal_dates reversal_closes reversal_closes
           None (Build_pnf_params (SizeNum 5) (LengthInt 14) 1) reversal_closes).
  vm_compute; reflexivity.
Defined.

(* ================================================================== *)
(** * [_check_input] *)
(* ================================================================== *)

(** A float that may be missing: [None] stands for NaN. *)
Definition isnan (x : option Q) : bool :=
  match x with
  | None => true
  | Some _ => false
  end.

(** [np.where(np.isnan(xs))[0]]: the positions of the missing values,
    counted from [k]. *)
Fixpoint nan_positions_from (k : Z) (xs : list (option Q)) : list Z :=
  match xs with
  | [] => []
  | x :: xs' =>
      if isnan x then k :: nan_positions_from (k + 1) xs'
      else nan_positions_from (k + 1) xs'
  end.

Definition nan_positions (xs : list (option Q)) : list Z := nan_positions_from 0 xs.

(** [(a == b).all()] on two index arrays; the source only evaluates it on
    arrays of one length. *)
Fixpoint all_equal (a b : list Z) : bool :=
  match a, b with
  | x :: a', y :: b' => (x =? y) && all_equal a' b'
  | _, _ => true
  end.

Definition _check_input (opens closes highs lows : list (option Q)) : result unit :=
  let same_length :=
    (len opens =? len highs) && (len highs =? len lows) && (len lows =? len closes) in
  if negb same_length then Raise ValueError
  else
    let o := nan_positions opens in
    let h := nan_positions highs in
    let l := nan_positions lows in
    let c := nan_positions closes in
    let same_numnans := (len o =? len h) && (len h =? len l) && (len l =? len c) in
    if negb same_numnans then Raise ValueError
    else
      let same_missing := all_equal o h && all_equal o l && all_equal o c in
      if negb same_missing then Raise ValueError
      else Ok tt.

(** The four series have one length and are missing at the same places. *)
Definition consistent_input (opens closes highs lows : list (option Q)) : Prop :=
  len opens = len highs /\ len highs = len lows /\ len lows = len closes /\
  map isnan opens = map isnan highs /\
  map isnan opens = map isnan lows /\
  map isnan opens = map isnan closes.

Lemma nan_positions_from_lower (xs : list (option Q)) :
  forall k p, In p (nan_positions_from k xs) -> k <= p.
Proof.
  induction xs as [| x xs IH]; intros k p Hin; simpl in Hin; [contradiction |].
  destruct (isnan x); [destruct Hin as [<- | Hin]; [lia |] |];
    specialize (IH _ _ Hin); lia.
Qed.

Lemma nan_positions_from_mask (xs ys : list (option Q)) :
  forall k,
    map isnan xs = map isnan ys ->
    nan_positions_from k xs = nan_positions_from k ys.
Proof.
  revert ys; induction xs as [| x xs IH]; intros [| y ys] k H; simpl in H;
    try discriminate; [reflexivity |].
  injection H as Hxy H; simpl; rewrite Hxy, (IH ys (k + 1) H); reflexivity.
Qed.

Lemma nan_positions_from_inj (xs ys : list (option Q)) :
  forall k,
    length xs = length ys ->
    nan_positions_from k xs = nan_positions_from k ys ->
    map isnan xs = map isnan ys.
Proof.
  revert ys; induction xs as [| x xs IH]; intros [| y ys] k Hlen H;
    simpl in Hlen; try discriminate; [reflexivity |].
  injection Hlen as Hlen; simpl in H |- *.
  destruct (isnan x) eqn:Ex, (isnan y) eqn:Ey.
  - injection H as H; f_equal; exact (IH ys (k + 1) Hlen H).
  - exfalso.
    assert (Hin : In k (nan_positions_from (k + 1) ys)) by (rewrite <- H; left; reflexivity).
    apply nan_positions_from_lower in Hin; lia.
  - exfalso.
    assert (Hin : In k (nan_positions_from (k + 1) xs)) by (rewrite H; left; reflexivity).
    apply nan_positions_from_lower in Hin; lia.
  - f_equal; exact (IH ys (k + 1) Hlen H).
Qed.

Lemma all_equal_refl (a : list Z) : all_equal a a = true.
Proof. induction a as [| x a IH]; simpl; [| rewrite Z.eqb_refl, IH]; reflexivity. Qed.

Lemma all_equal_eq (a b : list Z) :
  len a = len b -> all_equal a b = true -> a = b.
Proof.
  revert b; induction a as [| x a IH]; intros [| y b] Hlen H;
    unfold len in Hlen; simpl in Hlen; try lia; [reflexivity |].
  simpl in H; apply andb_prop in H as [Hxy H]; apply Z.eqb_eq in Hxy.
  f_equal; [exact Hxy | apply IH; [unfold len; lia | exact H]].
Qed.

Lemma check_input_complete (opens closes highs lows : list (option Q)) :
  consistent_input opens closes highs lows ->
  _check_input opens closes highs lows = Ok tt.
Proof.
  intros (H1 & H2 & H3 & Mh & Ml & Mc); unfold _check_input, nan_positions.
  rewrite H1, H2, H3, !Z.eqb_refl; cbn [andb negb].
  rewrite <- (nan_positions_from_mask _ _ 0 Mh),
    <- (nan_positions_from_mask _ _ 0 Ml), <- (nan_positions_from_mask _ _ 0 Mc).
  rewrite !Z.eqb_refl, !all_equal_refl; reflexivity.
Qed.

Lemma check_input_sound (opens closes highs lows : list (option Q)) :
  _check_input opens closes highs lows = Ok tt ->
  consistent_input opens closes highs lows.
Proof.
  unfold _check_input, nan_positions; intros H.
  destruct ((len opens =? len highs) && (len highs =? len lows)
            && (len lows =? len closes)) eqn:E1; [| discriminate].
  apply andb_prop in E1 as [E1 E3]; apply andb_prop in E1 as [E1 E2].
  apply Z.eqb_eq in E1, E2, E3; cbn [negb] in H.
  destruct ((len (nan_positions_from 0 opens) =? len (nan_positions_from 0 highs))
            && (len (nan_positions_from 0 highs) =? len (nan_positions_from 0 lows))
            && (len (nan_positions_from 0 lows) =? len (nan_positions_from 0 closes)))
    eqn:E4; [| discriminate].
  apply andb_prop in E4 as [E4 E6]; apply andb_prop in E4 as [E4 E5].
  apply Z.eqb_eq in E4, E5, E6; cbn [negb] in H.
  destruct (all_equal (nan_positions_from 0 opens) (nan_positions_from 0 highs)
            && all_equal (nan_positions_from 0 opens) (nan_positions_from 0 lows)
            && all_equal (nan_positions_from 0 opens) (nan_positions_from 0 closes))
    eqn:E7; [| discriminate].
  apply andb_prop in E7 as [E7 E9]; apply andb_prop in E7 as [E7 E8].
  apply all_equal_eq in E7, E8, E9; try lia.
  unfold consistent_input; repeat split; try assumption;
    apply (nan_positions_from_inj _ _ 0); try assumption; unfold len in *; lia.
Qed.

Lemma check_input_result (opens closes highs lows : list (option Q)) :
  _check_input opens closes highs lows = Ok tt \/
  _check_input opens closes highs lows = Raise ValueError.
Proof.
  unfold _check_input.
  repeat match goal with
         | |- context [if ?c then _ else _] => destruct c
         end; auto.
Qed.

(** X15. [_check_input] accepts exactly the inputs whose four series have
    one length and are missing (NaN) at the same positions; every other
    input raises [ValueError]. *)
Theorem check_input_accepts_consistent :
  forall opens closes highs lows : list (option Q),
    (consistent_input opens closes highs lows <->
     _check_input opens closes highs lows = Ok tt) /\
    (~ consistent_input opens closes highs lows ->
     _check_input opens closes highs lows = Raise ValueError).
Proof.
  intros opens closes highs lows; split.
  - split; [apply check_input_complete | apply check_input_sound].
  - intros Hbad.
    destruct (check_input_result opens closes highs lows) as [H | H]; [| exact H].
    exfalso; apply Hbad, check_input_sound, H.
Qed.

Lemma check_input_accepts_consistent_witness :
  _check_input [Some 1; None; Some 3]%Q [Some 2; None; Some 1]%Q
    [Some 4; None; Some 5]%Q [Some 0; None; Some 1]%Q = Ok tt /\
  _check_input [Some 1; None; Some 3]%Q [Some 2; Some 7; None]%Q
    [Some 4; None; Some 5]%Q [Some 0; None; Some 1]%Q = Raise ValueError.
Proof.
  split.
  - apply (proj1 (proj1 (check_input_accepts_consistent _ _ _ _))).
    repeat split.
  - apply (proj2 (check_input_accepts_consistent _ _ _ _)).
    intros (_ & _ & _ & _ & _ & H); discriminate H.
Defined.

(** X16. The result of [_check_input] does not depend on the order in which
    the four series are passed: the plotting functions call it as
    [_check_input(opens, highs, lows, closes)] although its parameters are
    [(opens, closes, highs, lows)], and swapping any two arguments leaves
    the outcome unchanged. *)
Theorem check_input_argument_order :
  forall a b c d : list (option Q),
    _check_input a b c d = _check_input a c d b /\
    _check_input a b c d = _check_input b a c d /\
    _check_input a b c d = _check_input a c b d /\
    _check_input a b c d = _check_input a b d c.
Proof.
  assert (Hstep : forall a b c d a' b' c' d' : list (option Q),
             (consistent_input a b c d -> consistent_input a' b' c' d') ->
             (consistent_input a' b' c' d' -> consistent_input a b c d) ->
             _check_input a b c d = _check_input a' b' c' d').
  { intros a b c d a' b' c' d' H1 H2.
    destruct (check_input_result a b c d) as [H | H],
             (check_input_result a' b' c' d') as [H' | H'];
      rewrite H, H'; try reflexivity; exfalso.
    - apply check_input_sound, H1, check_input_complete in H; congruence.
    - apply check_input_sound, H2, check_input_complete in H'; congruence. }
  intros a b c d; repeat split; apply Hstep;
    unfold consistent_input; intros (H1 & H2 & H3 & M1 & M2 & M3);
    repeat split; congruence.
Qed.

(* ================================================================== *)
(** * [_updown_colors] and [_updownhollow_colors] *)
(* ================================================================== *)

(** [a < b] on floats: false as soon as one side is NaN. *)
Definition float_lt (a b : option Q) : bool :=
  match a, b with
  | Some x, Some y => Qltb x y
  | _, _ => false
  end.

(** What the colour functions return: the one colour itself when up and
    down colours coincide, a list with one colour per candle otherwise. *)
Inductive colors (color : Type) : Type :=
| SingleColor (c : color)
| ColorList (cs : list color).

Arguments SingleColor {color} c.
Arguments ColorList {color} cs.

Section Colors.

Variable color : Type.
Variable color_eqb : color -> color -> bool.

Definition _updown_colors (upcolor downcolor : color)
    (opens closes : list (option Q)) (use_prev_close : bool) : result (colors color) :=
  if color_eqb upcolor downcolor then Ok (SingleColor upcolor)
  else
    let cmap (b : bool) := if b then upcolor else downcolor in
    if negb use_prev_close then
      Ok (ColorList (map (fun oc => cmap (float_lt (fst oc) (snd oc)))
                         (combine opens closes)))
    else
      o0 <- py_index opens 0 ;;
      c0 <- py_index closes 0 ;;
      let first := cmap (float_lt o0 c0) in
      let _list := map (fun cp => cmap (float_lt (snd cp) (fst cp)))
                       (combine (py_slice closes 1 (len closes)) closes) in
      Ok (ColorList (first :: _list)).

Definition _updownhollow_colors (upcolor downcolor hollowcolor : color)
    (opens closes : list (option Q)) : result (colors color) :=
  if color_eqb upcolor downcolor then Ok (SingleColor upcolor)
  else
    let umap (b : bool) := if b then hollowcolor else upcolor in
    let dmap (b : bool) := if b then hollowcolor else downcolor in
    c0 <- py_index closes 0 ;;
    o0 <- py_index opens 0 ;;
    let first := umap (float_lt o0 c0) in
    let _list :=
      map (fun t =>
             let cls0 := fst (fst t) in
             let opn := snd (fst t) in
             let cls := snd t in
             if float_lt cls0 cls then umap (float_lt opn cls)
             else dmap (float_lt opn cls))
          (combine (combine (py_slice closes 0 (-1)) (py_slice opens 1 (len opens)))
                   (py_slice closes 1 (len closes))) in
    Ok (ColorList (first :: _list)).

End Colors.

Arguments _updown_colors {color} color_eqb upcolor downcolor opens closes use_prev_close.
Arguments _updownhollow_colors {color} color_eqb upcolor downcolor hollowcolor opens closes.

Lemma py_index_nonneg {A : Type} (l : list A) (i : Z) :
  0 <= i ->
  py_index l i = match nth_error l (Z.to_nat i) with
                 | Some x => Ok x
                 | None => Raise IndexError
                 end.
Proof.
  intros Hi; unfold py_index, py_pos.
  destruct (i <? len l) eqn:E.
  - replace (0 <=? i) with true by (symmetry; apply Z.leb_le; lia).
    reflexivity.
  - replace (i <? 0) with false by (symmetry; apply Z.ltb_ge; lia).
    rewrite !andb_false_r; cbn [bind].
    apply Z.ltb_ge in E.
    replace (nth_error l (Z.to_nat i)) with (@None A); [reflexivity |].
    symmetry; apply nth_error_None; unfold len in E; lia.
Qed.

Lemma py_index_nth_error {A : Type} (l : list A) (i : Z) (x : A) :
  0 <= i -> py_index l i = Ok x -> nth_error l (Z.to_nat i) = Some x.
Proof.
  intros Hi H; rewrite (py_index_nonneg l i Hi) in H.
  destruct (nth_error l (Z.to_nat i)); [injection H as -> ; reflexivity | discriminate].
Qed.

Lemma py_slice_tail {A : Type} (x : A) (l : list A) :
  py_slice (x :: l) 1 (len (x :: l)) = l.
Proof.
  unfold py_slice, py_clamp, len; cbn [length].
  replace (Z.of_nat (S (length l)) <? 0) with false by (symmetry; apply Z.ltb_ge; lia).
  replace (1 <? 0) with false by reflexivity.
  rewrite Z.min_id, Nat2Z.id.
  replace (Z.to_nat (Z.min 1 (Z.of_nat (S (length l))))) with 1%nat by lia.
  change (S (length l)) with (length (x :: l)); rewrite firstn_all; reflexivity.
Qed.

Lemma py_slice_init {A : Type} (l : list A) :
  py_slice l 0 (-1) = removelast l.
Proof.
  unfold py_slice, py_clamp, len.
  replace (-1 <? 0) with true by reflexivity.
  replace (0 <? 0) with false by reflexivity.
  replace (Z.to_nat (Z.min 0 (Z.of_nat (length l)))) with 0%nat by lia.
  rewrite removelast_firstn_len; cbn [skipn]; f_equal; lia.
Qed.

Lemma nth_error_removelast {A : Type} (l : list A) (j : nat) :
  (S j < length l)%nat -> nth_error (removelast l) j = nth_error l j.
Proof.
  intros Hj; rewrite removelast_firstn_len, nth_error_firstn.
  replace (j <? Nat.pred (length l))%nat with true; [reflexivity |].
  symmetry; apply Nat.ltb_lt; lia.
Qed.

Lemma nth_error_map_combine {A B C : Type} (f : A * B -> C) (a : list A) :
  forall (b : list B) (i : nat) (x : A) (y : B),
    nth_error a i = Some x -> nth_error b i = Some y ->
    nth_error (map f (combine a b)) i = Some (f (x, y)).
Proof.
  induction a as [| a0 a IH]; intros b i x y Ha Hb.
  - destruct i; discriminate.
  - destruct b as [| b0 b]; [destruct i; discriminate |].
    destruct i as [| i]; simpl in *.
    + injection Ha as ->; injection Hb as ->; reflexivity.
    + exact (IH b i x y Ha Hb).
Qed.

Lemma nth_error_Some_lt {A : Type} (l : list A) (i : nat) (x : A) :
  nth_error l i = Some x -> (i < length l)%nat.
Proof. intros H; apply nth_error_Some; congruence. Qed.

Section ColorProperties.

Variable color : Type.
Variable color_eqb : color -> color -> bool.
Variables upcolor downcolor hollowcolor : color.
Hypothesis distinct : color_eqb upcolor downcolor = false.

Lemma updown_colors_prev_close_aux (o0 c0 : option Q) (opens closes : list (option Q)) :
  exists cs,
    _updown_colors color_eqb upcolor downcolor (o0 :: opens) (c0 :: closes) true
      = Ok (ColorList cs) /\
    len cs = len (c0 :: closes) /\
    nth_error cs 0 = Some (if float_lt o0 c0 then upcolor else downcolor) /\
    (forall j p c,
        nth_error (c0 :: closes) j = Some p ->
        nth_error (c0 :: closes) (S j) = Some c ->
        nth_error cs (S j) = Some (if float_lt p c then upcolor else downcolor)).
Proof.
  unfold _updown_colors; rewrite distinct; cbn [negb].
  rewrite !py_index_nonneg by lia; cbn [Z.to_nat nth_error bind].
  rewrite py_slice_tail.
  eexists; split; [reflexivity |]; split; [| split].
  - unfold len; cbn [length]; rewrite length_map, length_combine; cbn [length]; lia.
  - reflexivity.
  - intros j p c Hp Hc; cbn [nth_error] in Hc |- *.
    rewrite (nth_error_map_combine _ _ _ _ _ _ Hc Hp); reflexivity.
Qed.

Lemma updownhollow_colors_aux (o0 c0 : option Q) (opens closes : list (option Q)) :
  exists cs,
    _updownhollow_colors color_eqb upcolor downcolor hollowcolor
      (o0 :: opens) (c0 :: closes) = Ok (ColorList cs) /\
    len cs = Z.min (len (o0 :: opens)) (len (c0 :: closes)) /\
    nth_error cs 0 = Some (if float_lt o0 c0 then hollowcolor else upcolor) /\
    (forall j p o c,
        nth_error (c0 :: closes) j = Some p ->
        nth_error (o0 :: opens) (S j) = Some o ->
        nth_error (c0 :: closes) (S j) = Some c ->
        nth_error cs (S j) =
          Some (if float_lt o c then hollowcolor
                else if float_lt p c then upcolor else downcolor)).
Proof.
  unfold _updownhollow_colors; rewrite distinct.
  rewrite !py_index_nonneg by lia; cbn [Z.to_nat nth_error bind].
  rewrite !py_slice_tail, py_slice_init.
  eexists; split; [reflexivity |]; split; [| split].
  - unfold len; cbn [length]; rewrite length_map, !length_combine.
    assert (Hr : length (removelast (c0 :: closes)) = length closes).
    { rewrite removelast_firstn_len, length_firstn; cbn [length]; lia. }
    rewrite Hr; lia.
  - reflexivity.
  - intros j p o c Hp Ho Hc; cbn [nth_error] in Ho, Hc |- *.
    assert (Hj : (S j < length (c0 :: closes))%nat).
    { apply nth_error_Some_lt in Hc; cbn [length]; lia. }
    rewrite <- (nth_error_removelast _ _ Hj) in Hp.
    assert (Hpo : nth_error (combine (removelast (c0 :: closes)) opens) j = Some (p, o)).
    { rewrite <- (map_id (combine _ _)).
      exact (nth_error_map_combine (fun t => t) _ _ _ _ _ Hp Ho). }
    rewrite (nth_error_map_combine _ _ _ _ _ _ Hpo Hc); cbn [fst snd].
    destruct (float_lt p c), (float_lt o c); reflexivity.
Qed.

End ColorProperties.

Lemma len_cons_inv {A : Type} (l : list A) :
  1 <= len l -> exists x l', l = x :: l'.
Proof.
  destruct l as [| x l']; [unfold len; simpl; lia | intros _; eauto].
Qed.

Lemma len_zero_inv {A : Type} (l : list A) : len l = 0 -> l = [].
Proof. destruct l; [reflexivity | unfold len; simpl; lia]. Qed.

Lemma py_index_of_nth_error {A : Type} (l : list A) (i : Z) (x : A) :
  0 <= i -> nth_error l (Z.to_nat i) = Some x -> py_index l i = Ok x.
Proof. intros Hi H; rewrite (py_index_nonneg l i Hi), H; reflexivity. Qed.

(** X17. [_updown_colors] with distinct up and down colours.  Without
    [use_prev_close] it gives one colour per (open, close) pair, up exactly
    when open < close.  With [use_prev_close] it gives one colour per
    close: the first compares the first open with the first close, every
    later one compares the previous close with the close, and the opens
    after the first are never read; on an empty series it raises
    [IndexError] where the plain mode returns the empty list. *)
Theorem updown_colors_by_candle :
  forall (color : Type) (color_eqb : color -> color -> bool)
         (upcolor downcolor : color) (opens closes : list (option Q)),
    color_eqb upcolor downcolor = false ->
    (exists cs,
        _updown_colors color_eqb upcolor downcolor opens closes false
          = Ok (ColorList cs) /\
        len cs = Z.min (len opens) (len closes) /\
        forall i o c,
          0 <= i -> py_index opens i = Ok o -> py_index closes i = Ok c ->
          py_index cs i = Ok (if float_lt o c then upcolor else downcolor)) /\
    (1 <= len opens -> 1 <= len closes ->
     exists cs,
        _updown_colors color_eqb upcolor downcolor opens closes true
          = Ok (ColorList cs) /\
        len cs = len closes /\
        (forall o c,
            py_index opens 0 = Ok o -> py_index closes 0 = Ok c ->
            py_index cs 0 = Ok (if float_lt o c then upcolor else downcolor)) /\
        (forall i p c,
            1 <= i -> py_index closes (i - 1) = Ok p -> py_index closes i = Ok c ->
            py_index cs i = Ok (if float_lt p c then upcolor else downcolor))) /\
    (len opens = 0 \/ len closes = 0 ->
     _updown_colors color_eqb upcolor downcolor opens closes true = Raise IndexError).
Proof.
  intros color color_eqb upcolor downcolor opens closes Hd; split; [| split].
  - unfold _updown_colors; rewrite Hd; cbn [negb].
    eexists; split; [reflexivity |]; split.
    + unfold len; rewrite length_map, length_combine; lia.
    + intros i o c Hi Ho Hc.
      apply py_index_nth_error in Ho, Hc; try exact Hi.
      apply py_index_of_nth_error; [exact Hi |].
      rewrite (nth_error_map_combine _ _ _ _ _ _ Ho Hc); reflexivity.
  - intros Hopens Hcloses.
    apply len_cons_inv in Hopens as (o0 & opens' & ->).
    apply len_cons_inv in Hcloses as (c0 & closes' & ->).
    destruct (updown_colors_prev_close_aux color color_eqb upcolor downcolor Hd
                o0 c0 opens' closes') as (cs & Hrun & Hlen & Hfirst & Hrest).
    exists cs; split; [exact Hrun |]; split; [exact Hlen |]; split.
    + intros o c Ho Hc.
      apply py_index_nth_error in Ho, Hc; try lia.
      cbn [Z.to_nat nth_error] in Ho, Hc; injection Ho as <-; injection Hc as <-.
      apply py_index_of_nth_error; [lia | exact Hfirst].
    + intros i p c Hi Hp Hc.
      apply py_index_nth_error in Hp, Hc; try lia.
      replace (Z.to_nat i) with (S (Z.to_nat (i - 1))) in Hc by lia.
      apply py_index_of_nth_error; [lia |].
      replace (Z.to_nat i) with (S (Z.to_nat (i - 1))) by lia.
      exact (Hrest _ _ _ Hp Hc).
  - intros Hempty; unfold _updown_colors; rewrite Hd; cbn [negb].
    destruct Hempty as [H | H]; apply len_zero_inv in H; subst.
    + reflexivity.
    + destruct opens; reflexivity.
Qed.

Lemma updown_colors_by_candle_witness :
  exists cs,
    _updown_colors Z.eqb 1 2 [Some 5; Some 9]%Q [Some 7; Some 6; Some 8]%Q true
      = Ok (ColorList cs) /\
    len cs = 3 /\
    py_index cs 2 = Ok 1.
Proof.
  destruct (proj1 (proj2 (updown_colors_by_candle Z Z.eqb 1 2
                            [Some 5; Some 9]%Q [Some 7; Some 6; Some 8]%Q eq_refl))
              ltac:(vm_compute; discriminate) ltac:(vm_compute; discriminate))
    as (cs & Hrun & Hlen & _ & Hrest).
  exists cs; split; [exact Hrun |]; split; [exact Hlen |].
  exact (Hrest 2 (Some 6%Q) (Some 8%Q) ltac:(lia) eq_refl eq_refl).
Defined.

(** X18. [_updownhollow_colors] with distinct up and down colours, on
    non-empty series: one colour per candle; a candle whose close is above
    its open is hollow; any other candle is up when its close is above the
    previous close and down otherwise, except the first, which has no
    previous close and is always up.  On an empty series it raises
    [IndexError]. *)
Theorem updownhollow_colors_by_candle :
  forall (color : Type) (color_eqb : color -> color -> bool)
         (upcolor downcolor hollowcolor : color) (opens closes : list (option Q)),
    color_eqb upcolor downcolor = false ->
    (1 <= len opens -> 1 <= len closes ->
     exists cs,
        _updownhollow_colors color_eqb upcolor downcolor hollowcolor opens closes
          = Ok (ColorList cs) /\
        len cs = Z.min (len opens) (len closes) /\
        (forall o c,
            py_index opens 0 = Ok o -> py_index closes 0 = Ok c ->
            py_index cs 0 = Ok (if float_lt o c then hollowcolor else upcolor)) /\
        (forall i p o c,
            1 <= i -> py_index closes (i - 1) = Ok p ->
            py_index opens i = Ok o -> py_index closes i = Ok c ->
            py_index cs i =
              Ok (if float_lt o c then hollowcolor
                  else if float_lt p c then upcolor else downcolor))) /\
    (len opens = 0 \/ len closes = 0 ->
     _updownhollow_colors color_eqb upcolor downcolor hollowcolor opens closes
       = Raise IndexError).
Proof.
  intros color color_eqb upcolor downcolor hollowcolor opens closes Hd; split.
  - intros Hopens Hcloses.
    apply len_cons_inv in Hopens as (o0 & opens' & ->).
    apply len_cons_inv in Hcloses as (c0 & closes' & ->).
    destruct (updownhollow_colors_aux color color_eqb upcolor downcolor hollowcolor Hd
                o0 c0 opens' closes') as (cs & Hrun & Hlen & Hfirst & Hrest).
    exists cs; split; [exact Hrun |]; split; [exact Hlen |]; split.
    + intros o c Ho Hc.
      apply py_index_nth_error in Ho, Hc; try lia.
      cbn [Z.to_nat nth_error] in Ho, Hc; injection Ho as <-; injection Hc as <-.
      apply py_index_of_nth_error; [lia | exact Hfirst].
    + intros i p o c Hi Hp Ho Hc.
      apply py_index_nth_error in Hp, Ho, Hc; try lia.
      replace (Z.to_nat i) with (S (Z.to_nat (i - 1))) in Ho, Hc by lia.
      apply py_index_of_nth_error; [lia |].
      replace (Z.to_nat i) with (S (Z.to_nat (i - 1))) by lia.
      exact (Hrest _ _ _ _ Hp Ho Hc).
  - intros Hempty; unfold _updownhollow_colors; rewrite Hd.
    destruct Hempty as [H | H]; apply len_zero_inv in H; subst.
    + destruct closes; reflexivity.
    + reflexivity.
Qed.

Lemma updownhollow_colors_by_candle_witness :
  exists cs,
    _updownhollow_colors Z.eqb 1 2 3 [Some 5; Some 9; Some 4]%Q
      [Some 7; Some 6; Some 8]%Q = Ok (ColorList cs) /\
    len cs = 3 /\
    py_index cs 1 = Ok 2 /\ py_index cs 2 = Ok 3.
Proof.
  destruct (proj1 (updownhollow_colors_by_candle Z Z.eqb 1 2 3
                     [Some 5; Some 9; Some 4]%Q [Some 7; Some 6; Some 8]%Q eq_refl)
              ltac:(vm_compute; discriminate) ltac:(vm_compute; discriminate))
    as (cs & Hrun & Hlen & _ & Hrest).
  exists cs; split; [exact Hrun |]; split; [exact Hlen |]; split.
  - exact (Hrest 1 (Some 7%Q) (Some 9%Q) (Some 6%Q) ltac:(lia) eq_refl eq_refl eq_refl).
  - exact (Hrest 2 (Some 6%Q) (Some 4%Q) (Some 8%Q) ltac:(lia) eq_refl eq_refl eq_refl).
Defined.

(** X19. Body and edge colours of a hollow candle chart, as
    [_construct_hollow_candlestick_collections] computes them: for every
    candle after the first that is not hollow (close not above open), the
    body colour of [_updownhollow_colors] is the edge colour of
    [_updown_colors] with [use_prev_close]; for a first candle that is not
    hollow the two differ, the body being up and the edge down. *)
Theorem hollow_body_and_edge_colors :
  forall (color : Type) (color_eqb : color -> color -> bool)
         (upcolor downcolor hollowcolor : color) (opens closes : list (option Q))
         (body edge : list color),
    color_eqb upcolor downcolor = false ->
    _updownhollow_colors color_eqb upcolor downcolor hollowcolor opens closes
      = Ok (ColorList body) ->
    _updown_colors color_eqb upcolor downcolor opens closes true
      = Ok (ColorList edge) ->
    (forall i o c,
        1 <= i -> py_index opens i = Ok o -> py_index closes i = Ok c ->
        float_lt o c = false ->
        py_index body i = py_index edge i) /\
    (forall o c,
        py_index opens 0 = Ok o -> py_index closes 0 = Ok c ->
        float_lt o c = false ->
        py_index body 0 = Ok upcolor /\ py_index edge 0 = Ok downcolor).
Proof.
  intros color color_eqb upcolor downcolor hollowcolor opens closes body edge
    Hd Hbody Hedge.
  destruct opens as [| o0 opens'].
  { unfold _updown_colors in Hedge; rewrite Hd in Hedge; discriminate. }
  destruct closes as [| c0 closes'].
  { unfold _updown_colors in Hedge; rewrite Hd in Hedge; discriminate. }
  destruct (updownhollow_colors_aux color color_eqb upcolor downcolor hollowcolor Hd
              o0 c0 opens' closes') as (cs & Hrun & _ & Hfirst & Hrest).
  rewrite Hrun in Hbody; injection Hbody as ->.
  destruct (updown_colors_prev_close_aux color color_eqb upcolor downcolor Hd
              o0 c0 opens' closes') as (es & Hrun' & _ & Hfirst' & Hrest').
  rewrite Hrun' in Hedge; injection Hedge as ->.
  split.
  - intros i o c Hi Ho Hc Hoc.
    apply py_index_nth_error in Ho, Hc; try lia.
    replace (Z.to_nat i) with (S (Z.to_nat (i - 1))) in Ho, Hc by lia.
    destruct (nth_error (c0 :: closes') (Z.to_nat (i - 1))) as [p |] eqn:Hp.
    2:{ apply nth_error_None in Hp; apply nth_error_Some_lt in Hc; lia. }
    rewrite !py_index_nonneg by lia.
    replace (Z.to_nat i) with (S (Z.to_nat (i - 1))) by lia.
    rewrite (Hrest _ _ _ _ Hp Ho Hc), (Hrest' _ _ _ Hp Hc), Hoc; reflexivity.
  - intros o c Ho Hc Hoc.
    apply py_index_nth_error in Ho, Hc; try lia.
    cbn [Z.to_nat nth_error] in Ho, Hc; injection Ho as <-; injection Hc as <-.
    rewrite Hoc in Hfirst, Hfirst'.
    split; apply py_index_of_nth_error; try lia; assumption.
Qed.

Lemma hollow_body_and_edge_colors_witness :
  py_index [1; 2; 3] 1 = py_index [2; 2; 1] 1 /\
  py_index [1; 2; 3] 0 = Ok 1 /\ py_index [2; 2; 1] 0 = Ok 2.
Proof.
  pose proof (hollow_body_and_edge_colors Z Z.eqb 1 2 3
                [Some 8; Some 9; Some 4]%Q [Some 7; Some 6; Some 8]%Q
                [1; 2; 3] [2; 2; 1] eq_refl eq_refl eq_refl) as [Hrest Hfirst].
  split.
  - exact (Hrest 1 (Some 9%Q) (Some 6%Q) ltac:(lia) eq_refl eq_refl eq_refl).
  - exact (Hfirst (Some 8%Q) (Some 7%Q) eq_refl eq_refl eq_refl).
Defined.

(* ================================================================== *)
(** * Delta extraction in binary64 arithmetic *)
(* ================================================================== *)

(** The first loop of [_construct_renko_collections] once more, this time
    on IEEE 754 binary64 numbers with round-to-nearest-even, the arithmetic
    of Python's [float] and of [numpy.float64].  The reference close is an
    accumulator of rounded products, so what can be said about its value
    depends on the rounding, which the exact model above leaves out. *)

Definition float64 : Type := spec_float.

Definition f64_add : float64 -> float64 -> float64 := SFadd 53 1024.
Definition f64_sub : float64 -> float64 -> float64 := SFsub 53 1024.
Definition f64_mul : float64 -> float64 -> float64 := SFmul 53 1024.

(** Which division the operands get: Python's [float] raises on a zero
    divisor, [numpy.float64] (as soon as one operand is one) returns an
    infinity or a NaN. *)
Inductive float_kind : Type := PythonFloat | NumpyFloat64.

Definition f64_is_zero (x : float64) : bool :=
  match x with
  | S754_zero _ => true
  | _ => false
  end.

Definition f64_finite (x : float64) : bool :=
  match x with
  | S754_zero _ | S754_finite _ _ _ => true
  | _ => false
  end.

(** [a / b] on floats *)
Definition f64_div (kind : float_kind) (a b : float64) : result float64 :=
  match kind with
  | PythonFloat =>
      if f64_is_zero b then Raise ZeroDivisionError else Ok (SFdiv 53 1024 a b)
  | NumpyFloat64 => Ok (SFdiv 53 1024 a b)
  end.

(** The rational a finite float stands for (0 for the others). *)
Definition f64_toQ (x : float64) : Q :=
  match x with
  | S754_finite s m e => inject_Z (cond_Zopp s (Zpos m)) * Qpower 2 e
  | _ => 0
  end.

(** [int(x)] on a float *)
Definition f64_int (x : float64) : result Z :=
  match x with
  | S754_nan => Raise ValueError
  | S754_infinity _ => Raise OverflowError
  | _ => Ok (int_of (f64_toQ x))
  end.

(** [float(n)], the conversion an int undergoes when it meets a float. *)
Definition f64_of_int (n : Z) : result float64 :=
  match binary_normalize 53 1024 n 0 false with
  | S754_infinity _ => Raise OverflowError
  | x => Ok x
  end.

(** [a / b] on two ints: the correctly rounded quotient. *)
Definition int_truediv (a b : Z) : result float64 :=
  match a, b with
  | _, Z0 => Raise ZeroDivisionError
  | Z0, _ => Ok (S754_zero false)
  | Zpos p, Zpos q => Ok (SFdiv 53 1024 (S754_finite false p 0) (S754_finite false q 0))
  | Zpos p, Zneg q => Ok (SFdiv 53 1024 (S754_finite false p 0) (S754_finite true q 0))
  | Zneg p, Zpos q => Ok (SFdiv 53 1024 (S754_finite true p 0) (S754_finite false q 0))
  | Zneg p, Zneg q => Ok (SFdiv 53 1024 (S754_finite true p 0) (S754_finite true q 0))
  end.

(** Float literals: [n] for an integer-valued one, [n / d] for a decimal
    one (the correctly rounded quotient of two exact integers is the
    float the decimal literal denotes). *)
Definition f64_lit (n : Z) : float64 := binary_normalize 53 1024 n 0 false.
Definition f64_dec (n d : Z) : float64 := SFdiv 53 1024 (f64_lit n) (f64_lit d).

Record renko_extract64 : Type := Build_renko_extract64 {
  cdiff64 : list Z;
  prev_close_brick64 : float64;
  rx_volume_cache64 : float64;
  rx_new_dates64 : list float64;
  rx_new_volumes64 : list float64
}.

Definition renko_extract_init64 (closes0 : float64) : renko_extract64 :=
  Build_renko_extract64 [] closes0 (S754_zero false) [] [].

(** [int((closes[i+1] - prev_close_brick) / brick_size)] *)
Definition brick_diff64 (kind : float_kind) (closes : list float64) (size : float64)
    (prev : float64) (i : Z) : result Z :=
  c <- py_index closes (i + 1) ;;
  q <- f64_div kind (f64_sub c prev) size ;;
  f64_int q.

(** Body of [for i in range(len(closes)-1)]. *)
Definition renko_extract_body64 (kind : float_kind) (dates : list float64)
    (volumes : option (list float64)) (closes : list float64) (size : float64)
    (st : renko_extract64) (i : Z) : result renko_extract64 :=
  brick_diff <- brick_diff64 kind closes size (prev_close_brick64 st) i ;;
  if brick_diff =? 0 then
    match volumes with
    | Some vs =>
        v <- py_index vs i ;;
        Ok (Build_renko_extract64 (cdiff64 st) (prev_close_brick64 st)
              (f64_add (rx_volume_cache64 st) v)
              (rx_new_dates64 st) (rx_new_volumes64 st))
    | None => Ok st
    end
  else
    s <- int_truediv brick_diff (Z.abs brick_diff) ;;
    unit <- f64_int s ;;
    let cdiff' := cdiff64 st ++ py_repeat unit (Z.abs brick_diff) in
    vc <- match volumes with
          | Some vs =>
              v <- py_index vs i ;;
              Ok (rx_new_volumes64 st
                    ++ py_repeat (f64_add v (rx_volume_cache64 st)) (Z.abs brick_diff),
                  S754_zero false)
          | None => Ok (rx_new_volumes64 st, rx_volume_cache64 st)
          end ;;
    d <- py_index dates i ;;
    f <- f64_of_int brick_diff ;;
    Ok (Build_renko_extract64 cdiff'
          (f64_add (prev_close_brick64 st) (f64_mul f size))
          (snd vc)
          (rx_new_dates64 st ++ py_repeat d (Z.abs brick_diff))
          (fst vc)).

(** The loop run on its first [m] iterations. *)
Definition renko_extract_upto64 (kind : float_kind) (m : Z) (dates : list float64)
    (volumes : option (list float64)) (closes : list float64) (size : float64)
  : result renko_extract64 :=
  c0 <- py_index closes 0 ;;
  for_each (renko_extract_body64 kind dates volumes closes size)
    (renko_extract_init64 c0) (py_range 0 m).

Definition renko_extract_pass64 (kind : float_kind) (dates : list float64)
    (volumes : option (list float64)) (closes : list float64) (size : float64)
  : result renko_extract64 :=
  renko_extract_upto64 kind (len closes - 1) dates volumes closes size.

(** The advance of line 801 from reference close [prev] by [brick_diff]
    sizes incurs no rounding: the float it yields is finite and stands for
    [prev + brick_diff * size] exactly. *)
Definition advance_exact (prev : float64) (brick_diff : Z) (size : float64) : bool :=
  match f64_of_int brick_diff with
  | Ok f =>
      let next := f64_add prev (f64_mul f size) in
      f64_finite next &&
      Qeq_bool (f64_toQ next) (f64_toQ prev + inject_Z brick_diff * f64_toQ size)
  | _ => false
  end.

(** ** The sign of a nonzero int, as the loop computes it *)

Lemma SFdiv_self (s1 s2 : bool) (p : positive) :
  SFdiv 53 1024 (S754_finite s1 p 0) (S754_finite s2 p 0)
  = S754_finite (xorb s1 s2) 4503599627370496 (-52).
Proof.
  unfold SFdiv, SFdiv_core_binary.
  replace (Zdigits2 (Z.pos p) + 0 - (Zdigits2 (Z.pos p) + 0)) with 0 by lia.
  change (Z.min (fexp 53 1024 0) (0 - 0)) with (-53).
  change (0 - 0 - -53) with 53.
  cbv beta iota zeta.
  assert (E : Z.div_eucl (Z.shiftl (Z.pos p) 53) (Z.pos p) = (9007199254740992, 0)).
  { rewrite Z.shiftl_mul_pow2 by lia.
    rewrite (surjective_pairing (Z.div_eucl (Z.pos p * 2 ^ 53) (Z.pos p))).
    change (fst (Z.div_eucl (Z.pos p * 2 ^ 53) (Z.pos p)))
      with ((Z.pos p * 2 ^ 53) / Z.pos p).
    change (snd (Z.div_eucl (Z.pos p * 2 ^ 53) (Z.pos p)))
      with ((Z.pos p * 2 ^ 53) mod Z.pos p).
    rewrite (Z.mul_comm (Z.pos p)), Z.div_mul, Z.mod_mul by lia; reflexivity. }
  rewrite E.
  assert (L : new_location (Z.pos p) 0 = loc_Exact).
  { unfold new_location, new_location_even, new_location_odd.
    destruct (Z.even (Z.pos p)); reflexivity. }
  rewrite L.
  destruct s1, s2; reflexivity.
Qed.

Lemma int_truediv_sign (brick_diff : Z) :
  brick_diff <> 0 ->
  exists s, int_truediv brick_diff (Z.abs brick_diff) = Ok s /\
            f64_int s = Ok (Z.sgn brick_diff).
Proof.
  intros H; destruct brick_diff as [| p | p]; [congruence | |];
    cbn [Z.abs int_truediv]; rewrite SFdiv_self; eexists; split;
    try reflexivity.
Qed.

(** One iteration of the loop in binary64: the quotient of line 790 is
    taken; when it is zero the reference close and the units stay, and
    otherwise [|brick_diff|] units of its sign are emitted and the
    reference close becomes the rounded sum of itself and the rounded
    product [brick_diff * brick_size]. *)
Lemma renko_extract_body64_step (kind : float_kind) (dates : list float64)
    (volumes : option (list float64)) (closes : list float64) (size : float64)
    (st st' : renko_extract64) (i : Z) :
  renko_extract_body64 kind dates volumes closes size st i = Ok st' ->
  exists brick_diff,
    brick_diff64 kind closes size (prev_close_brick64 st) i = Ok brick_diff /\
    ((brick_diff = 0 /\
      prev_close_brick64 st' = prev_close_brick64 st /\
      cdiff64 st' = cdiff64 st) \/
     (brick_diff <> 0 /\
      exists f,
        f64_of_int brick_diff = Ok f /\
        prev_close_brick64 st'
        = f64_add (prev_close_brick64 st) (f64_mul f size) /\
        cdiff64 st'
        = cdiff64 st ++ py_repeat (Z.sgn brick_diff) (Z.abs brick_diff))).
Proof.
  intros H; unfold renko_extract_body64 in H.
  apply bind_Ok in H as (bd & Hbd & H).
  exists bd; split; [exact Hbd |].
  destruct (bd =? 0) eqn:E.
  - left; apply Z.eqb_eq in E; split; [exact E |].
    destruct volumes as [vs |].
    + apply bind_Ok in H as (v & _ & H); injection H as <-; split; reflexivity.
    + injection H as <-; split; reflexivity.
  - right; apply Z.eqb_neq in E; split; [exact E |].
    destruct (int_truediv_sign bd E) as (s & Hs & Hunit).
    rewrite Hs in H; cbn [bind] in H; rewrite Hunit in H; cbn [bind] in H.
    apply bind_Ok in H as (vc & _ & H).
    apply bind_Ok in H as (d & _ & H).
    apply bind_Ok in H as (f & Hf & H).
    injection H as <-; exists f; repeat split; assumption.
Qed.

Lemma renko_extract_upto64_next (kind : float_kind) (dates : list float64)
    (volumes : option (list float64)) (closes : list float64) (size : float64)
    (j : Z) (sj sj' : renko_extract64) :
  0 <= j ->
  renko_extract_upto64 kind j dates volumes closes size = Ok sj ->
  renko_extract_body64 kind dates volumes closes size sj j = Ok sj' ->
  renko_extract_upto64 kind (j + 1) dates volumes closes size = Ok sj'.
Proof.
  unfold renko_extract_upto64; intros Hj H Hb.
  apply bind_Ok in H as (c0 & Hc0 & H); rewrite Hc0; cbn [bind].
  rewrite py_range_snoc, for_each_app, H by exact Hj; cbn [bind for_each].
  rewrite Hb; reflexivity.
Qed.

Lemma advance_exact_value (prev : float64) (brick_diff : Z) (size f : float64) :
  advance_exact prev brick_diff size = true ->
  f64_of_int brick_diff = Ok f ->
  f64_toQ (f64_add prev (f64_mul f size))
  == f64_toQ prev + inject_Z brick_diff * f64_toQ size.
Proof.
  unfold advance_exact; intros H Hf; rewrite Hf in H.
  apply andb_prop in H as [_ H]; apply Qeq_bool_iff in H; exact H.
Qed.

(** C8, amended.  Throughout the Renko delta-extraction pass, run in the
    binary64 arithmetic of the program, the reference close moves only at
    steps whose [brick_diff = int((closes[i+1] - prev_close_brick) /
    brick_size)] is nonzero, and then becomes the rounded sum of itself
    and the rounded product [brick_diff * brick_size]; after any number of
    steps whose advances incurred no rounding it equals [closes[0] + k *
    brick_size] exactly, [k] being the sum of the units emitted so far. *)
Theorem renko_reference_close_advances :
  forall (kind : float_kind) (dates : list float64)
         (volumes : option (list float64)) (closes : list float64) (size : float64),
    (forall st i st',
        renko_extract_body64 kind dates volumes closes size st i = Ok st' ->
        exists brick_diff,
          brick_diff64 kind closes size (prev_close_brick64 st) i = Ok brick_diff /\
          ((brick_diff = 0 /\ prev_close_brick64 st' = prev_close_brick64 st) \/
           (brick_diff <> 0 /\
            exists f,
              f64_of_int brick_diff = Ok f /\
              prev_close_brick64 st'
              = f64_add (prev_close_brick64 st) (f64_mul f size)))) /\
    (forall m st,
        renko_extract_upto64 kind m dates volumes closes size = Ok st ->
        (forall j sj brick_diff,
            0 <= j < m ->
            renko_extract_upto64 kind j dates volumes closes size = Ok sj ->
            brick_diff64 kind closes size (prev_close_brick64 sj) j = Ok brick_diff ->
            brick_diff <> 0 ->
            advance_exact (prev_close_brick64 sj) brick_diff size = true) ->
        exists (c0 : float64) (k : Z),
          py_index closes 0 = Ok c0 /\
          k = py_sumZ (cdiff64 st) /\
          f64_toQ (prev_close_brick64 st) == f64_toQ c0 + inject_Z k * f64_toQ size).
Proof.
  intros kind dates volumes closes size; split.
  - intros st i st' H.
    apply renko_extract_body64_step in H as (bd & Hbd & [(E & Hp & _) | (E & f & Hf & Hp & _)]);
      exists bd; (split; [exact Hbd |]); [left | right]; eauto.
  - intros m st H Hexact.
    pose proof H as Hrun; unfold renko_extract_upto64 in Hrun.
    apply bind_Ok in Hrun as (c0 & Hc0 & Hrun).
    exists c0, (py_sumZ (cdiff64 st)); split; [exact Hc0 |]; split; [reflexivity |].
    destruct (Z.le_gt_cases 0 m) as [Hm | Hm].
    2:{ rewrite py_range_empty in Hrun by lia; injection Hrun as <-.
        cbn; unfold py_sumZ; simpl; ring. }
    assert (Hinv : 0 <= m /\
                   (renko_extract_upto64 kind m dates volumes closes size = Ok st /\
                    f64_toQ (prev_close_brick64 st)
                    == f64_toQ c0 + inject_Z (py_sumZ (cdiff64 st)) * f64_toQ size));
      [| exact (proj2 (proj2 Hinv))].
    revert Hrun; apply for_each_range_invariant
      with (P := fun j s =>
                   0 <= j /\
                   (renko_extract_upto64 kind j dates volumes closes size = Ok s /\
                    f64_toQ (prev_close_brick64 s)
                    == f64_toQ c0 + inject_Z (py_sumZ (cdiff64 s)) * f64_toQ size));
      [| exact Hm | ].
    + intros j s s' Hjm (Hj & Hs & Heq) Hb.
      split; [lia |]; split; [exact (renko_extract_upto64_next _ _ _ _ _ _ _ _ Hj Hs Hb) |].
      apply renko_extract_body64_step in Hb
        as (bd & Hbd & [(E & Hp & Hc) | (E & f & Hf & Hp & Hc)]); rewrite Hp, Hc.
      * exact Heq.
      * rewrite (advance_exact_value _ _ _ _
                   (Hexact j s bd (conj Hj Hjm) Hs Hbd E) Hf).
        rewrite py_sumZ_app, py_sumZ_units, inject_Z_plus, Heq; ring.
    + split; [lia |]; split.
      * unfold renko_extract_upto64; rewrite Hc0; reflexivity.
      * cbn; unfold py_sumZ; simpl; ring.
Qed.

(** A series on which the reference close leaves the grid: closes 0, 0.15,
    0.30, ..., 1.05 with bricks of 0.1. *)
Definition drift_closes : list float64 :=
  [f64_lit 0; f64_dec 15 100; f64_dec 30 100; f64_dec 45 100; f64_dec 60 100;
   f64_dec 75 100; f64_dec 90 100; f64_dec 105 100].

Definition drift_dates : list float64 := map f64_lit [1; 2; 3; 4; 5; 6; 7; 8].

(** C8, as stated, fails in the arithmetic of the program: with closes 0,
    0.15, ..., 1.05 and bricks of 0.1 the pass emits ten up units and ends
    with the reference close 0.9999999999999999, which is [closes[0] + k *
    brick_size] for no integer [k], and is not the float [closes[0] + 10 *
    brick_size] either. *)
Lemma renko_reference_close_off_grid :
  exists st c0,
    renko_extract_pass64 NumpyFloat64 drift_dates None drift_closes (f64_dec 1 10)
      = Ok st /\
    py_index drift_closes 0 = Ok c0 /\
    cdiff64 st = [1; 1; 1; 1; 1; 1; 1; 1; 1; 1] /\
    f64_finite (prev_close_brick64 st) = true /\
    (forall k : Z,
        ~ f64_toQ (prev_close_brick64 st)
          == f64_toQ c0 + inject_Z k * f64_toQ (f64_dec 1 10)) /\
    prev_close_brick64 st <> f64_add c0 (f64_mul (f64_lit 10) (f64_dec 1 10)).
Proof.
  eexists; eexists; split; [vm_compute; reflexivity |].
  split; [vm_compute; reflexivity |].
  split; [reflexivity |]; split; [reflexivity |]; split.
  - intros k H; cbn [prev_close_brick64] in H.
    assert (E1 : f64_toQ (S754_finite false 9007199254740991 (-53))
                 == 9007199254740991 # 9007199254740992) by (vm_compute; reflexivity).
    assert (E2 : f64_toQ (S754_zero false) == 0) by reflexivity.
    assert (E3 : f64_toQ (f64_dec 1 10) == 3602879701896397 # 36028797018963968)
      by (vm_compute; reflexivity).
    rewrite E1, E2, E3 in H.
    unfold Qeq, Qplus, Qmult, inject_Z in H; cbn in H; lia.
  - vm_compute; discriminate.
Qed.

Lemma renko_reference_close_advances_witness :
  exists (c0 : float64) (k : Z),
    py_index (map f64_lit [100; 110; 120; 115; 105; 95]) 0 = Ok c0 /\
    k = py_sumZ [1; 1; -1; -1] /\
    f64_toQ (f64_lit 100) == f64_toQ c0 + inject_Z k * f64_toQ (f64_lit 10).
Proof.
  apply (proj2 (renko_reference_close_advances PythonFloat
                  (map f64_lit [1; 2; 3; 4; 5; 6]) None
                  (map f64_lit [100; 110; 120; 115; 105; 95]) (f64_lit 10))
           5 (Build_renko_extract64 [1; 1; -1; -1] (f64_lit 100) (S754_zero false)
                (map f64_lit [1; 2; 4; 5]) [])).
  - vm_compute; reflexivity.
  - intros j sj bd Hj Hsj Hbd _.
    assert (Hcase : j = 0 \/ j = 1 \/ j = 2 \/ j = 3 \/ j = 4) by lia.
    destruct Hcase as [-> | [-> | [-> | [-> | ->]]]];
      vm_compute in Hsj; injection Hsj as <-;
      vm_compute in Hbd; injection Hbd as <-;
      vm_compute; reflexivity.
Defined.

(** ** A size of zero *)

Lemma py_index_two {A : Type} (l : list A) :
  2 <= len l -> exists x0 x1, py_index l 0 = Ok x0 /\ py_index l (0 + 1) = Ok x1.
Proof.
  intros H; destruct l as [| x0 [| x1 l]];
    try (unfold len in H; simpl in H; lia).
  exists x0, x1; split.
  - exact (py_index_mid [] (x1 :: l) x0).
  - exact (py_index_mid [x0] l x1).
Qed.

(** Neither a number nor an infinity comes out of [0 / 0] and [nan / 0]. *)
Definition f64_zero_or_nan (x : float64) : bool :=
  match x with
  | S754_zero _ | S754_nan => true
  | _ => false
  end.

(** X7. When the brick size is zero the delta extraction of a series of at
    least two closes stops at its first step with an exception, whatever
    the closes are: [ZeroDivisionError] on Python floats; on
    [numpy.float64], where the division returns NaN or an infinity,
    [ValueError] from [int] when the first two closes are equal (or their
    difference is NaN) and [OverflowError] otherwise. *)
Theorem zero_size_raises :
  forall (kind : float_kind) (dates : list float64)
         (volumes : option (list float64)) (closes : list float64) (size : float64),
    f64_is_zero size = true ->
    2 <= len closes ->
    exists c0 c1,
      py_index closes 0 = Ok c0 /\
      py_index closes 1 = Ok c1 /\
      renko_extract_pass64 kind dates volumes closes size
      = Raise match kind with
              | PythonFloat => ZeroDivisionError
              | NumpyFloat64 =>
                  if f64_zero_or_nan (f64_sub c1 c0) then ValueError
                  else OverflowError
              end.
Proof.
  intros kind dates volumes closes size Hz Hlen.
  destruct (py_index_two closes Hlen) as (c0 & c1 & Hc0 & Hc1).
  exists c0, c1; split; [exact Hc0 |]; split; [exact Hc1 |].
  unfold renko_extract_pass64, renko_extract_upto64.
  rewrite Hc0; cbn [bind].
  rewrite py_range_cons by lia; cbn [for_each].
  unfold renko_extract_body64 at 1, brick_diff64.
  rewrite Hc1; cbn [bind renko_extract_init64 prev_close_brick64].
  destruct size as [s | | |]; try discriminate Hz.
  destruct kind; cbn [f64_div f64_is_zero bind]; [reflexivity |].
  destruct (f64_sub c1 c0) as [s' | s' | | s' m e]; reflexivity.
Qed.

Lemma zero_size_raises_witness :
  exists c0 c1,
    py_index [f64_lit 7; f64_lit 7; f64_lit 8] 0 = Ok c0 /\
    py_index [f64_lit 7; f64_lit 7; f64_lit 8] 1 = Ok c1 /\
    renko_extract_pass64 NumpyFloat64 [f64_lit 1; f64_lit 2; f64_lit 3] None
      [f64_lit 7; f64_lit 7; f64_lit 8] (S754_zero false)
    = Raise (if f64_zero_or_nan (f64_sub c1 c0) then ValueError else OverflowError).
Proof.
  apply (zero_size_raises NumpyFloat64 [f64_lit 1; f64_lit 2; f64_lit 3] None
           [f64_lit 7; f64_lit 7; f64_lit 8] (S754_zero false)).
  - reflexivity.
  - vm_compute; discriminate.
Defined.

(** ** Units and missing prices *)

Lemma f64_sub_not_finite (c prev : float64) :
  f64_finite c = false \/ f64_finite prev = false ->
  f64_finite (f64_sub c prev) = false.
Proof.
  intros [H | H].
  - destruct c as [s | s | | s m e]; try discriminate H;
      destruct prev as [s' | s' | | s' m' e']; try reflexivity;
      destruct s, s'; reflexivity.
  - destruct prev as [s' | s' | | s' m' e']; try discriminate H;
      destruct c as [s | s | | s m e]; try reflexivity;
      destruct s, s'; reflexivity.
Qed.

Lemma SFdiv_not_finite (x size : float64) :
  f64_finite x = false -> f64_finite (SFdiv 53 1024 x size) = false.
Proof.
  intros H; destruct x as [s | s | | s m e]; try discriminate H;
    destruct size as [s' | s' | | s' m' e']; reflexivity.
Qed.

(** Line 790 only yields a [brick_diff] from a close and a reference close
    that are both numbers. *)
Lemma brick_diff64_finite (kind : float_kind) (closes : list float64)
    (size prev : float64) (i brick_diff : Z) :
  brick_diff64 kind closes size prev i = Ok brick_diff ->
  f64_finite prev = true /\
  exists c, py_index closes (i + 1) = Ok c /\ f64_finite c = true.
Proof.
  unfold brick_diff64; intros H.
  apply bind_Ok in H as (c & Hc & H).
  apply bind_Ok in H as (q & Hq & H).
  assert (Hfin : f64_finite q = true).
  { destruct q; try discriminate H; reflexivity. }
  assert (Hq' : q = SFdiv 53 1024 (f64_sub c prev) size).
  { destruct kind; cbn [f64_div] in Hq;
      [destruct (f64_is_zero size); [discriminate |] |];
      injection Hq as <-; reflexivity. }
  subst q.
  destruct (f64_finite (f64_sub c prev)) eqn:Hd.
  2:{ rewrite (SFdiv_not_finite _ size Hd) in Hfin; discriminate. }
  destruct (f64_finite prev) eqn:Hp.
  2:{ rewrite (f64_sub_not_finite c prev (or_intror Hp)) in Hd; discriminate. }
  split; [reflexivity |]; exists c; split; [exact Hc |].
  destruct (f64_finite c) eqn:Hcf; [reflexivity |].
  rewrite (f64_sub_not_finite c prev (or_introl Hcf)) in Hd; discriminate.
Qed.

(** What one iteration does to the emitted lists. *)
Lemma renko_extract_body64_lists (kind : float_kind) (dates : list float64)
    (volumes : option (list float64)) (closes : list float64) (size : float64)
    (st st' : renko_extract64) (i : Z) :
  renko_extract_body64 kind dates volumes closes size st i = Ok st' ->
  exists n : Z,
    0 <= n /\
    len (cdiff64 st') = len (cdiff64 st) + n /\
    len (rx_new_dates64 st') = len (rx_new_dates64 st) + n /\
    match volumes with
    | Some _ => len (rx_new_volumes64 st') = len (rx_new_volumes64 st) + n
    | None => rx_new_volumes64 st' = rx_new_volumes64 st
    end.
Proof.
  intros H; unfold renko_extract_body64 in H.
  apply bind_Ok in H as (bd & _ & H).
  destruct (bd =? 0) eqn:E.
  - exists 0; split; [lia |].
    destruct volumes as [vs |];
      [apply bind_Ok in H as (v & _ & H) |]; injection H as <-;
      cbn; repeat split; lia.
  - apply Z.eqb_neq in E.
    apply bind_Ok in H as (s & _ & H).
    apply bind_Ok in H as (u & _ & H).
    apply bind_Ok in H as (vc & Hvc & H).
    apply bind_Ok in H as (d & _ & H).
    apply bind_Ok in H as (f & _ & H).
    injection H as <-; cbn.
    exists (Z.abs bd); split; [lia |].
    rewrite !len_app, !len_py_repeat by lia.
    split; [reflexivity |]; split; [reflexivity |].
    destruct volumes as [vs |].
    + apply bind_Ok in Hvc as (v & _ & Hvc); injection Hvc as <-; cbn.
      rewrite len_app, len_py_repeat by lia; reflexivity.
    + injection Hvc as <-; reflexivity.
Qed.

(** X20. In binary64 arithmetic the units that delta extraction emits are
    all [+1] or [-1], however large the [brick_diff] they come from (the
    quotient [brick_diff / abs(brick_diff)] of two ints is exactly one in
    magnitude), and the pass emits one date per unit and, when volumes are
    given, one volume per unit. *)
Theorem renko_extract_units64 :
  forall (kind : float_kind) (dates : list float64)
         (volumes : option (list float64)) (closes : list float64) (size : float64)
         (st : renko_extract64),
    renko_extract_pass64 kind dates volumes closes size = Ok st ->
    Forall is_unit (cdiff64 st) /\
    len (rx_new_dates64 st) = len (cdiff64 st) /\
    match volumes with
    | Some _ => len (rx_new_volumes64 st) = len (cdiff64 st)
    | None => rx_new_volumes64 st = []
    end.
Proof.
  intros kind dates volumes closes size st H.
  unfold renko_extract_pass64, renko_extract_upto64 in H.
  apply bind_Ok in H as (c0 & _ & H).
  revert H; apply for_each_invariant with (P := fun s =>
    Forall is_unit (cdiff64 s) /\
    len (rx_new_dates64 s) = len (cdiff64 s) /\
    match volumes with
    | Some _ => len (rx_new_volumes64 s) = len (cdiff64 s)
    | None => rx_new_volumes64 s = []
    end).
  - intros s i s' (Hu & Hd & Hv) Hb; split; [| split].
    + apply renko_extract_body64_step in Hb
        as (bd & _ & [(_ & _ & Hc) | (E & f & _ & _ & Hc)]); rewrite Hc;
        [exact Hu | apply Forall_app; split; [exact Hu |]].
      exact (Forall_unit_repeat bd E).
    + apply renko_extract_body64_lists in Hb as (n & _ & Hc & Hdt & _); lia.
    + apply renko_extract_body64_lists in Hb as (n & _ & Hc & _ & Hvol).
      destruct volumes; [lia | rewrite Hvol; exact Hv].
  - cbn; repeat split; [constructor | destruct volumes; reflexivity].
Qed.

Lemma renko_extract_units64_witness :
  exists st,
    renko_extract_pass64 NumpyFloat64 drift_dates (Some drift_dates) drift_closes
      (f64_dec 1 10) = Ok st /\
    Forall is_unit (cdiff64 st) /\
    len (rx_new_dates64 st) = len (cdiff64 st) /\
    len (rx_new_volumes64 st) = len (cdiff64 st).
Proof.
  eexists; split; [vm_compute; reflexivity |].
  apply (renko_extract_units64 NumpyFloat64 drift_dates (Some drift_dates)
           drift_closes (f64_dec 1 10)).
  vm_compute; reflexivity.
Defined.

(** X21. Delta extraction does not get past a missing price: when the pass
    over at least two closes returns, every close is a number, neither NaN
    nor an infinity.  (A NaN or infinite close makes [int] raise
    [ValueError] or [OverflowError] at the step that reads it.) *)
Theorem renko_extract_needs_numbers :
  forall (kind : float_kind) (dates : list float64)
         (volumes : option (list float64)) (closes : list float64) (size : float64)
         (st : renko_extract64),
    renko_extract_pass64 kind dates volumes closes size = Ok st ->
    2 <= len closes ->
    Forall (fun c => f64_finite c = true) closes.
Proof.
  intros kind dates volumes closes size st H Hlen.
  unfold renko_extract_pass64, renko_extract_upto64 in H.
  apply bind_Ok in H as (c0 & Hc0 & H).
  assert (Hinv : 0 <= len closes - 1 /\
                 (len closes - 1 = 0 -> prev_close_brick64 st = c0) /\
                 (1 <= len closes - 1 -> f64_finite c0 = true) /\
                 forall i, 0 <= i < len closes - 1 ->
                           exists c, py_index closes (i + 1) = Ok c /\
                                     f64_finite c = true).
  { revert H; apply for_each_range_invariant
      with (P := fun j s =>
                   0 <= j /\
                   (j = 0 -> prev_close_brick64 s = c0) /\
                   (1 <= j -> f64_finite c0 = true) /\
                   forall i, 0 <= i < j ->
                             exists c, py_index closes (i + 1) = Ok c /\
                                       f64_finite c = true); [| lia |].
    - intros j s s' Hj (Hpos & H0 & H1 & Hall) Hb.
      apply renko_extract_body64_step in Hb as (bd & Hbd & _).
      apply brick_diff64_finite in Hbd as (Hprev & c & Hc & Hcf).
      split; [lia |]; split; [lia |]; split.
      + intros _.
        destruct (Z.eq_dec j 0) as [-> | Hne];
          [rewrite <- (H0 eq_refl); exact Hprev | apply H1; lia].
      + intros i Hi.
        destruct (Z.eq_dec i j) as [-> | Hne]; [exists c; auto | apply Hall; lia].
    - split; [lia |]; split; [reflexivity |]; split; [lia |]; intros i Hi; lia. }
  destruct Hinv as (_ & _ & Hfirst & Hrest).
  apply Forall_forall; intros x Hx.
  destruct (In_nth closes x x Hx) as (n & Hn & Hnth).
  pose proof (py_index_nat closes n x Hn) as Hix; rewrite Hnth in Hix.
  destruct n as [| n].
  - cbn [Z.of_nat] in Hix; rewrite Hc0 in Hix; injection Hix as <-.
    apply Hfirst; lia.
  - destruct (Hrest (Z.of_nat n)) as (c & Hc & Hcf); [unfold len; lia |].
    replace (Z.of_nat n + 1) with (Z.of_nat (S n)) in Hc by lia.
    rewrite Hix in Hc; injection Hc as <-; exact Hcf.
Qed.

Lemma renko_extract_needs_numbers_witness :
  Forall (fun c => f64_finite c = true) drift_closes.
Proof.
  apply (renko_extract_needs_numbers NumpyFloat64 drift_dates None drift_closes
           (f64_dec 1 10)
           (Build_renko_extract64 [1; 1; 1; 1; 1; 1; 1; 1; 1; 1]
              (S754_finite false 9007199254740991 (-53)) (S754_zero false)
              (map f64_lit [1; 2; 3; 3; 4; 5; 5; 6; 6; 7]) [])).
  - vm_compute; reflexivity.
  - vm_compute; discriminate.
Defined.
